(** * Antigravity2api: credential pool, cooldown registry, request translator
      and SSE emitter

    A shallow embedding of
    - [src/auth/token_manager.js]          (module [TokenManager]),
    - [src/auth/model_cooldown_manager.js] (module [ModelCooldown]),
    - the Claude -> Gemini request translator with its schema cleaner, the
      token estimator and the [ClaudeSseEmitter] class (modules
      [SchemaCleaner], [Translator], [Estimator], [SseEmitter]),
    followed by the properties proved about them, module by module.

    Conventions.  A JavaScript string is a [string]; one character of the
    embedding stands for one code unit of the source string.  The literals
    of the source that are written in Chinese (group names, the text put
    in place of redacted thinking) are held as their UTF-8 bytes; they are
    compared and copied, never measured.  Timestamps are
    milliseconds since the epoch, in [Z]; a [resetTimestamp] is the instant
    it parses to.  A property that may be missing on a JavaScript object is
    an [option].  What the code reads from outside (clock, usage ledger,
    upstream replies, configuration, drawn identifiers, [JSON.stringify]) is
    passed in.  An [await] is taken to complete before the next call on the
    same object is made, except where the stretches of an [async] function
    are modelled one by one ([SseEmitter.play]). *)

From Stdlib Require Import ZArith QArith Qround Lia Ascii String DecimalString.
From Stdlib Require Import SpecFloat.
From stdpp Require Import base option list gmap strings.

Local Open Scope string_scope.
Local Open Scope list_scope.
Local Open Scope Z_scope.

(** ** JavaScript string primitives *)

Module JsString.

(** Code units removed by [String.prototype.trim] among the first 256: tab,
    line feed, vertical tab, form feed, carriage return, space and the
    no-break space. *)
Definition is_ws (c : ascii) : bool :=
  match Ascii.nat_of_ascii c with
  | 9%nat | 10%nat | 11%nat | 12%nat | 13%nat | 32%nat | 160%nat => true
  | _ => false
  end.

Fixpoint trimStart (s : string) : string :=
  match s with
  | EmptyString => EmptyString
  | String c s' => if is_ws c then trimStart s' else s
  end.

Definition trimEnd (s : string) : string :=
  String.rev (trimStart (String.rev s)).

Definition trim (s : string) : string := trimEnd (trimStart s).

(** [s.startsWith(p)] *)
Definition startsWith (s p : string) : bool := String.prefix p s.

(** [s.endsWith(p)] *)
Definition endsWith (s p : string) : bool :=
  String.prefix (String.rev p) (String.rev s).

(** [s.includes(p)] *)
Fixpoint includes (s p : string) : bool :=
  String.prefix p s
  || match s with
     | EmptyString => false
     | String _ s' => includes s' p
     end.

(** Truthiness of a string: [!!s]. *)
Definition truthy (s : string) : bool :=
  match s with EmptyString => false | _ => true end.

(** [arr.join(sep)] on an array of strings. *)
Fixpoint join (sep : string) (l : list string) : string :=
  match l with
  | [] => ""
  | [x] => x
  | x :: rest => x +:+ sep +:+ join sep rest
  end.

End JsString.

(** ** JavaScript numbers *)

Module JsNumber.

(** A number of the source is an IEEE 754 double: a [spec_float] at
    precision 53 with exponents below 1024, and the operations of the
    standard library, which round to nearest, ties to even. *)
Definition prec : Z := 53.
Definition emax : Z := 1024.

Definition zero : spec_float := S754_zero false.

(** The double of an integer. *)
Definition of_Z (n : Z) : spec_float := binary_normalize prec emax n 0 false.

(** [x + y] *)
Definition add (x y : spec_float) : spec_float := SFadd prec emax x y.

(** [x / y] *)
Definition div (x y : spec_float) : spec_float := SFdiv prec emax x y.

(** [x > y] *)
Definition gt (x y : spec_float) : bool := SFltb y x.

(** [x || 0]: zeros and [NaN] are falsy. *)
Definition or_zero (x : spec_float) : spec_float :=
  match x with
  | S754_zero _ | S754_nan => zero
  | _ => x
  end.

(** The double a decimal literal [n / 10^k] with few digits denotes: the
    one nearest to the quotient. *)
Definition decimal (n : Z) (k : nat) : spec_float :=
  div (of_Z n) (of_Z (10 ^ Z.of_nat k)).

End JsNumber.

(** ** The credential store and selector ([token_manager.js]) *)

Module TokenManager.

(** A credential object.  [expires_in] is in seconds, [timestamp] in
    milliseconds.  Fields other than these are carried along by the source
    ([...token]) and play no role in what follows. *)
Record token := Token {
  refresh_token : string;
  access_token : string;
  expires_in : option Z;
  timestamp : option Z;
  projectId : option string;
  enable : option bool;
  disabledModels : option (list string);
  sessionId : option string
}.

Global Instance token_eq_dec : EqDecision token.
Proof. solve_decision. Defined.

(** Outcome of the OAuth refresh request: new [access_token] and
    [expires_in], or the [statusCode] of the thrown error. *)
Inductive refresh_outcome :=
| RefreshOk (access : string) (expires : option Z)
| RefreshError (statusCode : option Z).

(** Outcome of [fetchProjectId]: the returned project, [undefined], or a
    thrown error. *)
Inductive fetch_outcome :=
| FetchProject (p : string)
| FetchUndefined
| FetchThrows.

(** What a call observes of the outside world: the clock, the usage ledger
    ([getUsageCountSince] of [log_store.js]), the answers of the two
    upstream endpoints, [config.skipProjectIdFetch] and the identifier
    drawn by [generateProjectId]. *)
Record world := World {
  now : Z;
  getUsageCountSince : option string -> Z -> Z;
  refresh_reply : token -> refresh_outcome;
  fetch_reply : token -> fetch_outcome;
  skipProjectIdFetch : bool;
  generateProjectId : string
}.

(** The manager: the in-memory list, the rotating index, the hourly limit,
    the accounts file ([None] when its content does not parse to an array,
    in which case [saveToFile] fails and leaves it alone) and, once a quota
    monitor is injected, the keys passed to [markTokenUsed]. *)
Record manager := Manager {
  tokens : list token;
  currentIndex : nat;
  hourlyLimit : Z;
  file : option (list token);
  quotaMonitor : option (list string)
}.

Definition set_tokens (m : manager) (l : list token) : manager :=
  Manager l (currentIndex m) (hourlyLimit m) (file m) (quotaMonitor m).
Definition set_index (m : manager) (i : nat) : manager :=
  Manager (tokens m) i (hourlyLimit m) (file m) (quotaMonitor m).
Definition set_file (m : manager) (f : option (list token)) : manager :=
  Manager (tokens m) (currentIndex m) (hourlyLimit m) f (quotaMonitor m).
Definition set_monitor (m : manager) (q : option (list string)) : manager :=
  Manager (tokens m) (currentIndex m) (hourlyLimit m) (file m) q.

Definition opt_truthy (o : option string) : bool :=
  match o with Some s => JsString.truthy s | None => false end.

(** [isModelDisabled(token, modelName)] *)
Definition isModelDisabled (t : option token) (modelName : option string) : bool :=
  match t, modelName with
  | Some tok, Some name =>
      if JsString.truthy name
      then bool_decide (name ∈ default [] (disabledModels tok))
      else false
  | _, _ => false
  end.

(** [isWithinHourlyLimit(token)] *)
Definition isWithinHourlyLimit (w : world) (m : manager) (t : token) : bool :=
  if hourlyLimit m =? 0 then true
  else
    let oneHourAgo := now w - 60 * 60 * 1000 in
    let usage := getUsageCountSince w (projectId t) oneHourAgo in
    if hourlyLimit m <=? usage then false else true.

(** [moveToNextToken()] *)
Definition moveToNextToken (m : manager) : manager :=
  match length (tokens m) with
  | O => set_index m 0
  | n => set_index m ((currentIndex m + 1) mod n)
  end.

(** [isExpired(token)] *)
Definition isExpired (w : world) (t : token) : bool :=
  match timestamp t, expires_in t with
  | Some ts, Some ex =>
      if (ts =? 0) || (ex =? 0) then true
      else now w >=? (ts + ex * 1000) - 300000
  | _, _ => true
  end.

(** The object written for a credential: every field but [sessionId]. *)
Definition strip_session (t : token) : token :=
  Token (refresh_token t) (access_token t) (expires_in t) (timestamp t)
        (projectId t) (enable t) (disabledModels t) None.

(** [allTokens.findIndex(t => t.refresh_token === rt)] *)
Fixpoint findIndex (rt : string) (l : list token) : option nat :=
  match l with
  | [] => None
  | t :: l' =>
      if bool_decide (refresh_token t = rt) then Some O
      else S <$> findIndex rt l'
  end.

(** One turn of the [forEach] of [saveToFile]. *)
Definition save_one (allTokens : list token) (memToken : token) : list token :=
  match findIndex (refresh_token memToken) allTokens with
  | Some index => <[index := strip_session memToken]> allTokens
  | None => allTokens
  end.

(** The array [saveToFile] writes, from the array it read. *)
Definition merge_tokens (mem allTokens : list token) : list token :=
  foldl save_one allTokens mem.

(** [saveToFile()] *)
Definition saveToFile (m : manager) : manager :=
  match file m with
  | Some allTokens => set_file m (Some (merge_tokens (tokens m) allTokens))
  | None => m
  end.

(** Assignment to a field of the object held at position [i] of the list. *)
Definition update_at (m : manager) (i : nat) (t : token) : manager :=
  set_tokens m (<[i := t]> (tokens m)).

(** [disableToken(token)], for the object held at position [i]. *)
Definition disableToken (m : manager) (i : nat) (t : token) : manager :=
  let t' := Token (refresh_token t) (access_token t) (expires_in t)
                  (timestamp t) (projectId t) (Some false)
                  (disabledModels t) (sessionId t) in
  let m1 := saveToFile (update_at m i t') in
  let kept :=
    filter (fun x => refresh_token x <> refresh_token t) (tokens m1) in
  let m2 := set_tokens m1 kept in
  set_index m2 (currentIndex m2 mod Nat.max (length kept) 1).

(** [refreshToken(token)], for the object held at position [i]: the updated
    manager and object, or the [statusCode] of the error thrown. *)
Definition refreshToken (w : world) (m : manager) (i : nat) (t : token)
  : manager * token + option Z :=
  match refresh_reply w t with
  | RefreshOk access expires =>
      let t' := Token (refresh_token t) access expires (Some (now w))
                      (projectId t) (enable t) (disabledModels t)
                      (sessionId t) in
      inl (saveToFile (update_at m i t'), t')
  | RefreshError code => inr code
  end.

(** [quotaMonitor.markTokenUsed(projectId)] when a monitor is injected. *)
Definition markUsed (m : manager) (t : token) : manager :=
  match quotaMonitor m, projectId t with
  | Some marks, Some p =>
      if JsString.truthy p then set_monitor m (Some (marks ++ [p])) else m
  | _, _ => m
  end.

Definition with_projectId (t : token) (p : string) : token :=
  Token (refresh_token t) (access_token t) (expires_in t) (timestamp t)
        (Some p) (enable t) (disabledModels t) (sessionId t).

(** The [effectiveModelName] of [getToken]. *)
Definition effectiveModelName (modelName : option string) : option string :=
  match modelName with
  | Some s => if JsString.truthy (JsString.trim s)
              then Some (JsString.trim s) else None
  | None => None
  end.

(** The tail of one loop turn of [getToken], from the hourly check on. *)
Definition select_tail (w : world) (m : manager) (t : token)
  : manager * option token + manager :=
  if isWithinHourlyLimit w m t
  then inl (markUsed m t, Some t)
  else inr (moveToNextToken m).

(** One turn of the [while] loop of [getToken]: [inl] is a [return],
    [inr] the manager with which the loop goes on ([attempts] is then one
    more). *)
Definition getToken_turn (w : world) (model : option string) (m : manager)
  : manager * option token + manager :=
  let i := currentIndex m in
  match tokens m !! i with
  | None =>
      (* [token] is undefined: [isExpired] throws a TypeError, which the
         outer handler treats like any error without a status code *)
      inr (moveToNextToken m)
  | Some t =>
      if isModelDisabled (Some t) model then inr (moveToNextToken m)
      else
        let refreshed :=
          if isExpired w t then refreshToken w m i t else inl (m, t) in
        match refreshed with
        | inr code =>
            if bool_decide (code = Some 403 \/ code = Some 400) then
              let m' := disableToken m i t in
              match tokens m' with
              | [] => inl (m', None)
              | _ => inr m'
              end
            else inr (moveToNextToken m)
        | inl (m1, t1) =>
            if opt_truthy (projectId t1) then select_tail w m1 t1
            else if skipProjectIdFetch w then
              let t2 := with_projectId t1 (generateProjectId w) in
              select_tail w (saveToFile (update_at m1 i t2)) t2
            else
              match fetch_reply w t1 with
              | FetchUndefined =>
                  let m' := disableToken m1 i t1 in
                  match tokens m' with
                  | [] => inl (m', None)
                  | _ => inr m'
                  end
              | FetchProject p =>
                  let t2 := with_projectId t1 p in
                  select_tail w (saveToFile (update_at m1 i t2)) t2
              | FetchThrows => inr (moveToNextToken m1)
              end
        end
  end.

(** The [while (attempts < totalTokens)] loop, by the number of turns
    left. *)
Fixpoint getToken_loop (w : world) (model : option string)
         (left : nat) (m : manager) : manager * option token :=
  match left with
  | O => (m, None)
  | S left' =>
      match getToken_turn w model m with
      | inl r => r
      | inr m' => getToken_loop w model left' m'
      end
  end.

(** [getToken(modelName)] *)
Definition getToken (w : world) (modelName : option string) (m : manager)
  : manager * option token :=
  match tokens m with
  | [] => (m, None)
  | _ => getToken_loop w (effectiveModelName modelName)
                       (length (tokens m)) m
  end.

(** A series of selections, each with the world it runs in and its model
    name; the credentials returned, in order. *)
Fixpoint selections (calls : list (world * option string)) (m : manager)
  : list (option token) :=
  match calls with
  | [] => []
  | (w, model) :: rest =>
      let '(m', r) := getToken w model m in
      r :: selections rest m'
  end.

(** How often the credential with refresh token [rt] was returned. *)
Definition times_selected (rt : string) (rs : list (option token)) : nat :=
  length (filter (fun r => refresh_token <$> r = Some rt) rs).

(** A credential the selector accepts as it is: not expired, with a project
    identifier, not disabled for the model, below the hourly limit. *)
Definition healthy (w : world) (model : option string) (m : manager)
           (t : token) : Prop :=
  isExpired w t = false /\
  opt_truthy (projectId t) = true /\
  isModelDisabled (Some t) (effectiveModelName model) = false /\
  isWithinHourlyLimit w m t = true.

(** Round-robin fairness of a list of results for the credentials of a
    pool: no credential is returned more than once more than another. *)
Definition fair (pool : list token) (rs : list (option token)) : Prop :=
  forall a b, a ∈ pool -> b ∈ pool ->
              (times_selected (refresh_token a) rs
               <= times_selected (refresh_token b) rs + 1)%nat.

End TokenManager.

(** ** The cooldown registry ([model_cooldown_manager.js]) *)

Module ModelCooldown.

(** The table [MODEL_GROUPS], in the order it is written. *)
Definition MODEL_GROUPS : list (string * list string) :=
  [ ("Claude/GPT",
     ["claude-sonnet-4-5-thinking"; "claude-opus-4-5-thinking";
      "claude-sonnet-4-5"; "gpt-oss-120b-medium"]);
    ("Tab补全", ["chat_23310"; "chat_20706"]);
    ("香蕉绘图", ["gemini-2.5-flash-image"]);
    ("香蕉Pro", ["gemini-3-pro-image"]);
    ("Gemini其他",
     ["gemini-3-pro-high"; "rev19-uic3-1p"; "gemini-2.5-flash";
      "gemini-3-pro-low"; "gemini-2.5-flash-thinking"; "gemini-2.5-pro";
      "gemini-2.5-flash-lite"]) ].

(** [getModelGroup(model)]: the first group listing the model. *)
Fixpoint group_of (table : list (string * list string)) (model : string)
  : option string :=
  match table with
  | [] => None
  | (group, models) :: rest =>
      if bool_decide (model ∈ models) then Some group
      else group_of rest model
  end.

Definition getModelGroup (model : string) : option string :=
  group_of MODEL_GROUPS model.

(** [getModelsInGroup(group)], for a group name of the table. *)
Fixpoint models_of (table : list (string * list string)) (group : string)
  : list string :=
  match table with
  | [] => []
  | (g, models) :: rest =>
      if bool_decide (g = group) then models else models_of rest group
  end.

Definition getModelsInGroup (group : string) : list string :=
  models_of MODEL_GROUPS group.

(** The value stored in [cooldownMap].  [resetTime] is the parsed
    [resetTimestamp]; both are the same instant here. *)
Record info := Info {
  projectId : string;
  model : string;
  resetTimestamp : Z;
  reason : string;
  createdAt : Z
}.

(** A pending [setTimeout]: the instant it is due and the pair its callback
    passes to [removeCooldown]. *)
Record timer := Timer {
  dueAt : Z;
  timerProject : string;
  timerModel : string
}.

(** The registry: both maps and the records last written to
    [model_cooldowns.json] (in the order of the map, which is not
    tracked). *)
Record registry := Registry {
  cooldownMap : gmap string info;
  timerMap : gmap string timer;
  saved : list info
}.

Definition empty_registry : registry := Registry ∅ ∅ [].

(** [buildKey(projectId, model)] *)
Definition buildKey (projectId model : string) : string :=
  projectId +:+ ":" +:+ model.

(** [saveToFile()] *)
Definition saveToFile (r : registry) : registry :=
  Registry (cooldownMap r) (timerMap r) (snd <$> map_to_list (cooldownMap r)).

(** The longest delay [setTimeout] takes (Node's [TIMEOUT_MAX]). *)
Definition TIMEOUT_MAX : Z := 2147483647.

(** The instant the callback of [setTimeout(callback, delayMs)], called at
    [now] with a positive [delayMs], is due: a delay above [TIMEOUT_MAX] is
    replaced by 1. *)
Definition timeout_due (now delayMs : Z) : Z :=
  now + (if TIMEOUT_MAX <? delayMs then 1 else delayMs).

(** [setCooldownInternal(projectId, model, resetTimestamp, reason,
    shouldSave)] at instant [now]. *)
Definition setCooldownInternal (now : Z) (r : registry)
           (projectId model : string) (resetTimestamp : Z) (reason : string)
           (shouldSave : bool) : registry :=
  let key := buildKey projectId model in
  let delayMs := resetTimestamp - now in
  let timers := delete key (timerMap r) in
  let cooldowns :=
    <[key := Info projectId model resetTimestamp reason now]> (cooldownMap r) in
  if 0 <? delayMs then
    let r' := Registry cooldowns
                       (<[key := Timer (timeout_due now delayMs) projectId model]>
                          timers)
                       (saved r) in
    if shouldSave then saveToFile r' else r'
  else
    Registry (delete key cooldowns) timers (saved r).

(** [removeCooldown(projectId, model)] *)
Definition removeCooldown (r : registry) (projectId model : string) : registry :=
  let key := buildKey projectId model in
  saveToFile (Registry (delete key (cooldownMap r))
                       (delete key (timerMap r)) (saved r)).

(** A timer of the registry coming due: its callback runs. *)
Definition fire (r : registry) (key : string) : registry :=
  match timerMap r !! key with
  | Some t => removeCooldown r (timerProject t) (timerModel t)
  | None => r
  end.

(** [isOnCooldown(projectId, model)] at instant [now]. *)
Definition isOnCooldown (now : Z) (r : registry) (projectId model : string)
  : registry * bool :=
  match cooldownMap r !! buildKey projectId model with
  | None => (r, false)
  | Some i =>
      if resetTimestamp i <=? now
      then (removeCooldown r projectId model, false)
      else (r, true)
  end.

(** [clearAll()] *)
Definition clearAll (r : registry) : registry :=
  saveToFile (Registry ∅ ∅ (saved r)).

(** The loop of [setCooldown] that totals the group: [(totalRemaining,
    count)].  [q] is the object [getModelsWithQuotas] resolves to: per
    model, an entry whose [remaining] fraction, a double, may be missing. *)
Definition group_total (q : gmap string (option spec_float))
           (groupModels : list string) : spec_float * nat :=
  foldl (fun acc m =>
           match q !! m with
           | Some entry =>
               (JsNumber.add (fst acc)
                             (JsNumber.or_zero (default JsNumber.zero entry)),
                S (snd acc))
           | None => acc
           end) (JsNumber.zero, O) groupModels.

(** [avgRemaining] *)
Definition avgRemaining (q : gmap string (option spec_float))
           (groupModels : list string) : spec_float :=
  let '(total, count) := group_total q groupModels in
  match count with
  | O => JsNumber.zero
  | _ => JsNumber.div total (JsNumber.of_Z (Z.of_nat count))
  end.

(** [avgRemaining > 0.01] *)
Definition above_one_percent (avg : spec_float) : bool :=
  JsNumber.gt avg (JsNumber.decimal 1 2).

(** The loop of [setCooldown] over the models of the group. *)
Definition cool_group (now : Z) (r : registry) (projectId : string)
           (groupModels : list string) (resetTimestamp : Z) (reason : string)
  : registry :=
  foldl (fun acc m =>
           setCooldownInternal now acc projectId m resetTimestamp reason false)
        r groupModels.

(** [setCooldown(projectId, model, resetTimestamp, reason, token)] at
    instant [now].  [has_token] tells whether a credential was passed;
    [reply] is what [getModelsWithQuotas(token)] resolves to, [None] when
    the query throws. *)
Definition setCooldown (now : Z)
           (reply : option (gmap string (option spec_float)))
           (r : registry) (projectId model : string) (resetTimestamp : Z)
           (reason : string) (has_token : bool) : registry :=
  match getModelGroup model, has_token with
  | Some group, true =>
      match reply with
      | Some q =>
          let groupModels := getModelsInGroup group in
          if above_one_percent (avgRemaining q groupModels)
          then setCooldownInternal now r projectId model resetTimestamp reason true
          else saveToFile
                 (cool_group now r projectId groupModels resetTimestamp reason)
      | None =>
          setCooldownInternal now r projectId model resetTimestamp reason true
      end
  | _, _ =>
      setCooldownInternal now r projectId model resetTimestamp reason true
  end.

(** The key a credential contributes: a missing [projectId] is rendered
    [undefined] by the template string of [buildKey]. *)
Definition project_key (p : option string) : string :=
  default "undefined" p.

(** [getAvailableTokenForModel(model, excludeProjectIds)]: the loop over
    [tokenManager.tokens], from position [i] on. *)
Fixpoint available_from (w : TokenManager.world) (model : string)
         (exclude : list (option string)) (pending : list TokenManager.token)
         (i : nat) (r : registry) (m : TokenManager.manager)
  : registry * TokenManager.manager * option TokenManager.token :=
  match pending with
  | [] => (r, m, None)
  | t :: rest =>
      if bool_decide (TokenManager.enable t = Some false)
      then available_from w model exclude rest (S i) r m
      else if bool_decide (TokenManager.projectId t ∈ exclude)
      then available_from w model exclude rest (S i) r m
      else
        let '(r', cooling) :=
          isOnCooldown (TokenManager.now w) r
                       (project_key (TokenManager.projectId t)) model in
        if cooling then available_from w model exclude rest (S i) r' m
        else if TokenManager.isExpired w t then
          match TokenManager.refreshToken w m i t with
          | inl (m', t') => (r', m', Some t')
          | inr _ => available_from w model exclude rest (S i) r' m
          end
        else (r', m, Some t)
  end.

Definition getAvailableTokenForModel (w : TokenManager.world) (model : string)
           (exclude : list (option string)) (r : registry)
           (m : TokenManager.manager)
  : registry * TokenManager.manager * option TokenManager.token :=
  available_from w model exclude (TokenManager.tokens m) 0 r m.

(** What happens to a running registry: a query, a selection, another
    [setCooldown], or the clock reaching an instant at which the timer kept
    under [key], if it is due, runs its callback. *)
Inductive action :=
| Query (now : Z) (projectId model : string)
| Select (w : TokenManager.world) (model : string)
         (exclude : list (option string)) (m : TokenManager.manager)
| Put (now : Z) (reply : option (gmap string (option spec_float)))
      (projectId model : string) (resetTimestamp : Z) (reason : string)
      (has_token : bool)
| Due (now : Z) (key : string).

Definition act (r : registry) (a : action) : registry :=
  match a with
  | Query now p m => (isOnCooldown now r p m).1
  | Select w model exclude m =>
      (getAvailableTokenForModel w model exclude r m).1.1
  | Put now reply p m ts reason has_token =>
      setCooldown now reply r p m ts reason has_token
  | Due now key =>
      match timerMap r !! key with
      | Some t => if dueAt t <=? now then fire r key else r
      | None => r
      end
  end.

(** The instant an action happens at. *)
Definition instant (a : action) : Z :=
  match a with
  | Query now _ _ => now
  | Select w _ _ _ => TokenManager.now w
  | Put now _ _ _ _ _ _ => now
  | Due now _ => now
  end.

(** An action that happens before [ts] and, when it is a [setCooldown],
    sets a deadline that is not earlier than [ts] and whose delay
    [setTimeout] takes as it is. *)
Definition before (ts : Z) (a : action) : Prop :=
  instant a < ts /\
  match a with
  | Put now _ _ _ ts' _ _ => ts <= ts' /\ ts' - now <= TIMEOUT_MAX
  | _ => True
  end.

(** Every timer is kept under the key of the pair it will remove. *)
Definition timers_keyed (r : registry) : Prop :=
  forall k t, timerMap r !! k = Some t ->
              buildKey (timerProject t) (timerModel t) = k.

(** The pair under [k] is recorded with deadline [ts], with its timer. *)
Definition armed (r : registry) (k : string) (ts : Z) : Prop :=
  (exists i, cooldownMap r !! k = Some i /\ resetTimestamp i = ts) /\
  (exists t, timerMap r !! k = Some t /\ dueAt t = ts).

(** The pair under [k] is recorded with a deadline not before [ts]. *)
Definition armed_until (r : registry) (k : string) (ts : Z) : Prop :=
  exists ts', ts <= ts' /\ armed r k ts'.

(** The models of a list that are on cooldown for a project. *)
Definition cooling_models (now : Z) (r : registry) (projectId : string)
           (models : list string) : list string :=
  List.filter (fun m => (isOnCooldown now r projectId m).2) models.

End ModelCooldown.

(** ** JSON values *)

Module Json.

(** A JSON value.  Numbers are integers here, of a magnitude below 2^53,
    which a double holds exactly and [String] renders with all their
    digits.  An object is the list of its own properties in enumeration
    order; the keys of one object are distinct. *)
#[local] Set Warnings "-register-all".
Inductive json :=
| JNull
| JBool (b : bool)
| JNum (n : Z)
| JStr (s : string)
| JArr (items : list json)
| JObj (fields : list (string * json)).

(** [obj[key]] for an own property. *)
Fixpoint assoc (key : string) (fields : list (string * json)) : option json :=
  match fields with
  | [] => None
  | (k, v) :: rest => if bool_decide (k = key) then Some v else assoc key rest
  end.

Definition get (key : string) (j : json) : option json :=
  match j with
  | JObj fields => assoc key fields
  | _ => None
  end.

(** [key in obj] for own properties. *)
Definition has_key (key : string) (fields : list (string * json)) : bool :=
  bool_decide (key ∈ fields.*1).

(** [delete obj[key]] *)
Definition remove_key (key : string) (fields : list (string * json))
  : list (string * json) :=
  filter (fun kv => kv.1 <> key) fields.

(** Truthiness of a value; [undefined] is rendered [JNull]. *)
Definition truthy (j : json) : bool :=
  match j with
  | JNull => false
  | JBool b => b
  | JNum n => negb (n =? 0)
  | JStr s => JsString.truthy s
  | JArr _ | JObj _ => true
  end.

(** [typeof j === 'object'] *)
Definition is_object_type (j : json) : bool :=
  match j with
  | JNull | JArr _ | JObj _ => true
  | _ => false
  end.

Definition decimal (n : Z) : string := NilZero.string_of_int (Z.to_int n).

(** [String(j)], as a template literal renders a value. *)
Fixpoint toString (j : json) : string :=
  match j with
  | JNull => "null"
  | JBool true => "true"
  | JBool false => "false"
  | JNum n => decimal n
  | JStr s => s
  | JArr items =>
      JsString.join ","
        (map (fun x => match x with JNull => "" | _ => toString x end) items)
  | JObj _ => "[object Object]"
  end.

(** [Object.keys(j)] for an object or an array. *)
Definition keys (j : json) : list string :=
  match j with
  | JObj fields => fields.*1
  | JArr items => map (fun i => decimal (Z.of_nat i)) (seq 0 (length items))
  | _ => []
  end.

(** [JSON.stringify(j)] without indentation, on the values above: the
    instance of the built-in used in the examples. *)
Definition hex_digit (n : nat) : ascii :=
  ascii_of_nat (if (n <? 10)%nat then 48 + n else 87 + n).

Definition escape_unit (c : ascii) : string :=
  let n := nat_of_ascii c in
  let backslash := String (ascii_of_nat 92) "" in
  match n with
  | 34%nat => backslash +:+ String c ""
  | 92%nat => backslash +:+ backslash
  | 8%nat => backslash +:+ "b"
  | 12%nat => backslash +:+ "f"
  | 10%nat => backslash +:+ "n"
  | 13%nat => backslash +:+ "r"
  | 9%nat => backslash +:+ "t"
  | _ =>
      if (n <? 32)%nat
      then backslash +:+ "u00"
             +:+ String (hex_digit (n / 16)) (String (hex_digit (n mod 16)) "")
      else String c ""
  end.

Fixpoint escape (s : string) : string :=
  match s with
  | EmptyString => ""
  | String c rest => escape_unit c +:+ escape rest
  end.

Definition quote (s : string) : string :=
  String (ascii_of_nat 34) (escape s +:+ String (ascii_of_nat 34) "").

Fixpoint stringify (j : json) : string :=
  match j with
  | JNull => "null"
  | JBool true => "true"
  | JBool false => "false"
  | JNum n => decimal n
  | JStr s => quote s
  | JArr items => "[" +:+ JsString.join "," (map stringify items) +:+ "]"
  | JObj fields =>
      "{" +:+ JsString.join ","
                ((fix members (l : list (string * json)) : list string :=
                    match l with
                    | [] => []
                    | (k, v) :: rest =>
                        (quote k +:+ ":" +:+ stringify v) :: members rest
                    end) fields)
          +:+ "}"
  end.

End Json.

(** ** Tool schema cleaning ([cleanJsonSchema]) *)

Module SchemaCleaner.
Import Json.

(** The object [validationFields]: facet name and the text recorded for
    it. *)
Definition validationFields : list (string * string) :=
  [ ("minLength", "minLength"); ("maxLength", "maxLength");
    ("minimum", "minimum"); ("maximum", "maximum");
    ("minItems", "minItems"); ("maxItems", "maxItems");
    ("minProperties", "minProperties"); ("maxProperties", "maxProperties");
    ("pattern", "pattern"); ("format", "format");
    ("multipleOf", "multipleOf") ].

(** The set [fieldsToRemove], in insertion order. *)
Definition fieldsToRemove : list string :=
  [ "$schema"; "additionalProperties"; "uniqueItems";
    "exclusiveMinimum"; "exclusiveMaximum" ].

(** Names every plain object answers [in] for, through its prototype. *)
Definition Object_prototype_keys : list string :=
  [ "constructor"; "__defineGetter__"; "__defineSetter__"; "hasOwnProperty";
    "__lookupGetter__"; "__lookupSetter__"; "isPrototypeOf";
    "propertyIsEnumerable"; "toString"; "valueOf"; "__proto__";
    "toLocaleString" ].

(** [key in validationFields] *)
Definition in_validationFields (key : string) : bool :=
  bool_decide (key ∈ validationFields.*1)
  || bool_decide (key ∈ Object_prototype_keys).

(** [collectValidations(obj)]: the notes collected and the object once the
    fields are deleted from it. *)
Definition collectValidations (obj : list (string * json))
  : list string * list (string * json) :=
  let facets :=
    foldl (fun (acc : list string * list (string * json)) fv =>
             if has_key fv.1 acc.2
             then (acc.1 ++ [fv.1 +:+ ": " +:+ fv.2], remove_key fv.1 acc.2)
             else acc)
          ([], obj) validationFields in
  foldl (fun (acc : list string * list (string * json)) field =>
           if has_key field acc.2 then
             let notes :=
               match bool_decide (field = "additionalProperties"),
                     assoc field acc.2 with
               | true, Some (JBool false) =>
                   acc.1 ++ ["no additional properties"]
               | _, _ => acc.1
               end in
             (notes, remove_key field acc.2)
           else acc)
        facets fieldsToRemove.

(** [cleaned[key] = value] for a key the object holds. *)
Definition replace_key (key : string) (value : json)
           (fields : list (string * json)) : list (string * json) :=
  map (fun kv => if bool_decide (kv.1 = key) then (key, value) else kv) fields.

(** The treatment of [cleaned.required] at the end of [cleanObject]. *)
Definition prune_required (cleaned : list (string * json))
  : list (string * json) :=
  match assoc "required" cleaned with
  | Some (JArr required) =>
      let required' :=
        match assoc "properties" cleaned with
        | Some props =>
            if truthy props && is_object_type props then
              List.filter (fun prop =>
                             match prop with
                             | JStr s => bool_decide (s ∈ keys props)
                             | _ => false
                             end) required
            else required
        | None => required
        end in
      match required' with
      | [] => remove_key "required" cleaned
      | _ => replace_key "required" (JArr required') cleaned
      end
  | _ => cleaned
  end.

(** The text written over a root [description]. *)
Definition annotate (value : json) (validations : list string) : string :=
  JsString.trim
    ((if truthy value then toString value else "")
       +:+ " (" +:+ JsString.join ", " validations +:+ ")").

(** [cleanObject(obj, path)]; [root] is [path === '']. The loop over
    [Object.entries(obj)] runs over the properties that
    [collectValidations] left in [obj]. *)
Fixpoint cleanObject (root : bool) (j : json) : json :=
  match j with
  | JArr items => JArr (map (cleanObject root) items)
  | JObj fields =>
      let validations := (collectValidations fields).1 in
      let obj := (collectValidations fields).2 in
      let cleaned :=
        (fix entries (l : list (string * json)) : list (string * json) :=
           match l with
           | [] => []
           | (key, value) :: rest =>
               if negb (has_key key obj) then entries rest
               else if bool_decide (key ∈ fieldsToRemove) then entries rest
               else if in_validationFields key then entries rest
               else if bool_decide (key = "description")
                       && negb (bool_decide (validations = [])) && root
               then (key, JStr (annotate value validations)) :: entries rest
               else (key, cleanObject false value) :: entries rest
           end) fields in
      JObj (prune_required cleaned)
  | _ => j
  end.

(** [cleanJsonSchema(schema)] *)
Definition cleanJsonSchema (schema : json) : json :=
  if negb (truthy schema) || negb (is_object_type schema) then schema
  else cleanObject true schema.

(** A key [cleanObject] does not copy. *)
Definition removed_key (key : string) : bool :=
  bool_decide (key ∈ fieldsToRemove) || in_validationFields key.

(** The notes an object gives rise to, in the words of the specification:
    [name: value] for each validation facet among its own keys, in the
    order of the table, then [no additional properties] when its
    [additionalProperties] is [false]. *)
Definition stripped_notes (fields : list (string * json)) : list string :=
  ((fun fv => fv.1 +:+ ": " +:+ fv.2)
     <$> List.filter (fun fv => has_key fv.1 fields) validationFields)
  ++ match assoc "additionalProperties" fields with
     | Some (JBool false) => ["no additional properties"]
     | _ => []
     end.

(** A schema whose root has a description and facets, with a nested
    description. *)
Definition described_schema : json :=
  JObj [ ("description", JStr "d");
         ("minLength", JNum 3);
         ("additionalProperties", JBool false);
         ("x", JObj [("description", JStr "e"); ("format", JStr "f")]) ].

(** The schema of the fifth scenario. *)
Definition scenario_schema : json :=
  JObj [ ("type", JStr "object");
         ("properties",
          JObj [("x", JObj [("type", JStr "string"); ("minLength", JNum 3)])]);
         ("required", JArr [JStr "x"; JStr "y"]);
         ("additionalProperties", JBool false);
         ("$schema", JStr "...") ].

End SchemaCleaner.
(** ** The request translator (Claude Messages -> Gemini) *)

Module Translator.
Import Json.

(** Content blocks of a message, typed as the Messages API types them.  A
    missing optional string ([signature], [media_type]) is the empty
    string: the source only tests such fields for truthiness. *)
Inductive image_source :=
| SourceBase64 (media_type data : string)
| SourceUrl
| SourceOther.

Inductive block :=
| BText (text : string)
| BImage (source : image_source)
| BThinking (thinking signature : string)
| BRedactedThinking
| BToolUse (id name : string) (input : json)
| BToolResult (tool_use_id : string) (content : json) (is_error : bool)
| BUnknown (type : string)
| BNonObject.

(** [message.content]: a string, an array of blocks, or anything else, of
    which only [String(content)] is used. *)
Inductive content :=
| CString (s : string)
| CBlocks (blocks : list block)
| COther (rendered : string).

(** A message; a missing [role] is the empty string. *)
Record message := Message { role : string; body : content }.

(** Gemini parts. *)
Inductive response :=
| RError (s : string)
| RResult (s : string).

Inductive payload :=
| PText (text : string) (thought : bool)
| PInlineData (mimeType data : string)
| PFunctionCall (id name : string) (args : json)
| PFunctionResponse (id name : string) (r : response).

Record part := Part { payload_of : payload; thoughtSignature : option string }.

Inductive grole := RoleModel | RoleUser.

Record gcontent := GContent { grole_of : grole; parts : list part }.

Global Instance grole_eq_dec : EqDecision grole.
Proof. solve_decision. Defined.

Definition plain (p : payload) : part := Part p None.

(** [parts[i].functionCall] is set. *)
Definition is_call (p : part) : bool :=
  match payload_of p with PFunctionCall _ _ _ => true | _ => false end.

(** [parts[i].text && !parts[i].thought] *)
Definition is_plain_text (p : part) : bool :=
  match payload_of p with
  | PText t false => JsString.truthy t
  | _ => false
  end.

(** [parts[i].thought] *)
Definition is_thought (p : part) : bool :=
  match payload_of p with PText _ true => true | _ => false end.

Definition sign (signature : string) (p : part) : part :=
  Part (payload_of p) (Some signature).

(** Sign the first part satisfying [test]; [None] when there is none. *)
Fixpoint sign_first (test : part -> bool) (signature : string)
         (l : list part) : option (list part) :=
  match l with
  | [] => None
  | p :: rest =>
      if test p then Some (sign signature p :: rest)
      else cons p <$> sign_first test signature rest
  end.

(** Sign the last part satisfying [test]. *)
Definition sign_last (test : part -> bool) (signature : string)
           (l : list part) : option (list part) :=
  @rev part <$> sign_first test signature (rev l).

(** [applySignatureToParts(parts, signature)] *)
Definition applySignatureToParts (l : list part) (signature : string)
  : list part :=
  match sign_first is_call signature l with
  | Some l' => l'
  | None =>
      match sign_last is_plain_text signature l with
      | Some l' => l'
      | None =>
          match sign_last is_thought signature l with
          | Some l' => l'
          | None => l
          end
      end
  end.

Section WithStringify.

(** The built-in [JSON.stringify]. *)
Variable JSON_stringify : json -> string.

(** The text of a [tool_result] content. *)
Definition tool_result_text (c : json) : string :=
  match c with
  | JStr s => s
  | JArr items =>
      JsString.join (String (ascii_of_nat 10) "")
        (map (fun item =>
                match get "text" item with
                | Some v => if truthy v then toString v else ""
                | None => ""
                end)
             (List.filter
                (fun item =>
                   match get "type" item with
                   | Some (JStr "text") => true
                   | _ => false
                   end) items))
  | JObj _ => JSON_stringify c
  | _ => ""
  end.

(** One turn of the first phase of [convertClaudeContentToGeminiParts]:
    the parts pushed for a block. *)
Definition block_parts (b : block) : list part :=
  match b with
  | BText t => if JsString.truthy t then [plain (PText t false)] else []
  | BImage (SourceBase64 media data) =>
      [plain (PInlineData
                (if JsString.truthy media then media else "image/png") data)]
  | BImage _ => []
  | BThinking t _ => if JsString.truthy t then [plain (PText t true)] else []
  | BRedactedThinking => [plain (PText "[思考内容已隐藏]" true)]
  | BToolUse id name input =>
      [plain (PFunctionCall id name (if truthy input then input else JObj []))]
  | BToolResult id c is_error =>
      let s := tool_result_text c in
      [plain (PFunctionResponse id "" (if is_error then RError s else RResult s))]
  | BUnknown _ | BNonObject => []
  end.

(** The variable [thinkingSignature] once the loop has run: the first
    non-empty signature of a thinking block, or the empty string. *)
Fixpoint first_signature (blocks : list block) : string :=
  match blocks with
  | [] => ""
  | BThinking _ sg :: rest =>
      if JsString.truthy sg then sg else first_signature rest
  | _ :: rest => first_signature rest
  end.

(** [convertClaudeContentToGeminiParts(content)] *)
Definition convertClaudeContentToGeminiParts (c : content) : list part :=
  match c with
  | CString s => [plain (PText s false)]
  | COther rendered => [plain (PText rendered false)]
  | CBlocks blocks =>
      let built := concat (map block_parts blocks) in
      let sg := first_signature blocks in
      if JsString.truthy sg then applySignatureToParts built sg else built
  end.

(** The back-scan that names a [functionResponse]: over the contents built
    so far, last first. *)
Fixpoint resolve_name (id name : string) (earlier : list gcontent) : string :=
  match earlier with
  | [] => name
  | c :: rest =>
      match grole_of c with
      | RoleModel =>
          let name' :=
            match List.find
                    (fun p => match payload_of p with
                              | PFunctionCall cid _ _ => bool_decide (cid = id)
                              | _ => false
                              end) (parts c) with
            | Some (Part (PFunctionCall _ cname _) _) => cname
            | _ => name
            end in
          if JsString.truthy name' then name' else resolve_name id name' rest
      | RoleUser => resolve_name id name rest
      end
  end.

Definition name_response (contents : list gcontent) (p : part) : part :=
  match payload_of p with
  | PFunctionResponse id name r =>
      if JsString.truthy name then p
      else Part (PFunctionResponse id (resolve_name id name (rev contents)) r)
                (thoughtSignature p)
  | _ => p
  end.

(** [contents.push] or the merge into the last content of the same
    role. *)
Definition push_content (contents : list gcontent) (r : grole)
           (ps : list part) : list gcontent :=
  match rev contents with
  | last :: before =>
      if bool_decide (grole_of last = r)
      then rev before ++ [GContent r (parts last ++ ps)]
      else contents ++ [GContent r ps]
  | [] => [GContent r ps]
  end.

(** One turn of the first loop of
    [convertClaudeMessagesToGeminiContents].  The registration of
    thinking texts in the process-wide signature cache is not part of
    the value built and is left out. *)
Definition add_message (contents : list gcontent) (msg : message)
  : list gcontent :=
  if negb (JsString.truthy (role msg)) then contents
  else
    let r := if bool_decide (role msg = "assistant")
             then RoleModel else RoleUser in
    let ps := convertClaudeContentToGeminiParts (body msg) in
    let ps' := match r with
               | RoleUser => map (name_response contents) ps
               | RoleModel => ps
               end in
    push_content contents r ps'.

(** The flag [enableThinking] of
    [convertClaudeMessagesToGeminiContents]. *)
Definition history_enableThinking (modelName : string) : bool :=
  JsString.endsWith modelName "-thinking"
  || bool_decide (modelName = "gemini-2.5-pro")
  || JsString.startsWith modelName "gemini-3-pro-"
  || bool_decide (modelName = "rev19-uic3-1p")
  || bool_decide (modelName = "gpt-oss-120b-medium")
  || JsString.includes modelName "claude".

(** Some assistant message holds a thinking block without signature. *)
Definition unsigned_thinking (messages : list message) : bool :=
  existsb (fun msg =>
             bool_decide (role msg = "assistant")
             && match body msg with
                | CBlocks blocks =>
                    existsb (fun b => match b with
                                      | BThinking _ sg => negb (JsString.truthy sg)
                                      | _ => false
                                      end) blocks
                | _ => false
                end) messages.

(** The treatment of the last [model] content: the contents, last first,
    and whether thinking must be switched off. *)
Fixpoint check_last_model (reversed : list gcontent)
  : list gcontent * bool :=
  match reversed with
  | [] => ([], false)
  | c :: rest =>
      match grole_of c with
      | RoleModel =>
          match parts c with
          | [] => (reversed, false)
          | first :: _ =>
              if negb (existsb is_thought (parts c)) then (reversed, true)
              else if negb (is_thought first) then
                (GContent RoleModel
                   (List.filter is_thought (parts c)
                      ++ List.filter (fun p => negb (is_thought p)) (parts c))
                   :: rest, false)
              else (reversed, false)
          end
      | RoleUser =>
          let '(rest', off) := check_last_model rest in (c :: rest', off)
      end
  end.

(** [convertClaudeMessagesToGeminiContents(claudeMessages, modelName)]:
    [(contents, shouldDisableThinking)]. *)
Definition convertClaudeMessagesToGeminiContents
           (messages : list message) (modelName : string)
  : list gcontent * bool :=
  let contents := foldl add_message [] messages in
  if history_enableThinking modelName then
    if unsigned_thinking messages then (contents, true)
    else
      let '(reversed, off) := check_last_model (rev contents) in
      (rev reversed, off)
  else (contents, false).

(** The [tools] of a request: an array, a string, or a value that is
    falsy or has no [length] (missing, [null], a number, a boolean, an
    object without that key). *)
Inductive tools_value :=
| ToolsArray (items : list json)
| ToolsString (s : string)
| ToolsOther.

(** [convertClaudeToolsToGeminiTools(claudeTools)]: one
    [functionDeclarations] entry per tool. *)
Record functionDeclaration := FunctionDeclaration {
  fd_name : option json;
  fd_description : option json;
  parameters : json
}.

(** The entry of one tool; [None] when reading [tool.name] throws, which
    it does of [null] and [undefined]. *)
Definition declaration (tool : json) : option functionDeclaration :=
  match tool with
  | JNull => None
  | _ =>
      Some (FunctionDeclaration
              (get "name" tool) (get "description" tool)
              (SchemaCleaner.cleanJsonSchema
                 (match get "input_schema" tool with
                  | Some sc => if truthy sc then sc else JObj []
                  | None => JObj []
                  end)))
  end.

(** [None] when it throws. *)
Definition convertClaudeToolsToGeminiTools (claudeTools : tools_value)
  : option (list functionDeclaration) :=
  match claudeTools with
  | ToolsArray tools => mapM declaration tools
  | _ => Some []
  end.

(** The part of [config] the translator reads. *)
Record config := Config {
  systemInstruction : string;
  default_top_p : Q;
  default_top_k : Q;
  default_temperature : Q;
  default_max_tokens : Z
}.

(** The request body of the client.  [model] and [system] are falsy when
    missing; [messages] is [None] when not an array. *)
Record claudeRequest := ClaudeRequest {
  model : string;
  messages : option (list message);
  system : json;
  tools : tools_value;
  max_tokens : option Z;
  temperature : option Q;
  top_p : option Q;
  top_k : option Q;
  stop_sequences : option (list string)
}.

Record thinkingConfig := ThinkingConfig {
  includeThoughts : bool;
  thinkingBudget : Z
}.

Record generationConfig := GenerationConfig {
  topP : option Q;
  topK : Q;
  gc_temperature : Q;
  candidateCount : Z;
  maxOutputTokens : Z;
  stopSequences : list string;
  thinkingConfig_of : thinkingConfig
}.

(** The flag [enableThinking] of [generateGenerationConfig]. *)
Definition enableThinking (modelName : string) (forceDisableThinking : bool)
  : bool :=
  negb forceDisableThinking
  && (JsString.endsWith modelName "-thinking"
      || bool_decide (modelName = "gemini-2.5-pro")
      || JsString.startsWith modelName "gemini-3-pro-"
      || bool_decide (modelName = "rev19-uic3-1p")
      || bool_decide (modelName = "gpt-oss-120b-medium")).

Definition default_stop_sequences : list string :=
  [ "<|user|>"; "<|bot|>"; "<|context_request|>"; "<|endoftext|>";
    "<|end_of_turn|>" ].

(** [generateGenerationConfig(claudeRequest, modelName,
    forceDisableThinking)] *)
Definition generateGenerationConfig (cfg : config) (req : claudeRequest)
           (modelName : string) (forceDisableThinking : bool)
  : generationConfig :=
  let enabled := enableThinking modelName forceDisableThinking in
  GenerationConfig
    (if enabled && JsString.includes modelName "claude" then None
     else Some (default (default_top_p cfg) (top_p req)))
    (default (default_top_k cfg) (top_k req))
    (default (default_temperature cfg) (temperature req))
    1
    (default (default_max_tokens cfg) (max_tokens req))
    (default default_stop_sequences (stop_sequences req))
    (ThinkingConfig enabled (if enabled then 1024 else 0)).

(** The text of the client's [system], when it is truthy. *)
Definition system_text (sys : json) : string :=
  match sys with
  | JArr items =>
      JsString.join (String (ascii_of_nat 10) "")
        (map (fun b =>
                match b with
                | JStr s => s
                | _ =>
                    match get "type" b, get "text" b with
                    | Some (JStr "text"), Some v =>
                        if truthy v then toString v else ""
                    | _, _ => ""
                    end
                end) items)
  | JStr s => s
  | _ => ""
  end.

Record request := Request {
  contents : list gcontent;
  systemInstruction_text : string;
  request_tools : option (list functionDeclaration);
  toolConfig_mode : option string;
  generationConfig_of : generationConfig;
  request_sessionId : option string
}.

Record geminiRequest := GeminiRequest {
  project : option string;
  requestId : string;
  request_of : request;
  request_model : string;
  userAgent : string
}.

(** The loop that deletes [thoughtSignature] from every part. *)
Definition strip_signatures (cs : list gcontent) : list gcontent :=
  map (fun c => GContent (grole_of c) (map (fun p => plain (payload_of p)) (parts c)))
      cs.

(** [convertClaudeToGeminiRequest(claudeRequest, token)]; [None] when it
    throws.  [generated] is the identifier [generateRequestId] draws. *)
Definition convertClaudeToGeminiRequest (cfg : config) (generated : string)
           (req : claudeRequest) (token : TokenManager.token)
  : option geminiRequest :=
  match messages req with
  | None | Some [] => None
  | Some msgs =>
      let finalMaxTokens := default 64000 (max_tokens req) in
      let req' :=
        ClaudeRequest (model req) (messages req) (system req) (tools req)
                      (Some finalMaxTokens) (temperature req) (top_p req)
                      (top_k req) (stop_sequences req) in
      let actualModelName :=
        if JsString.truthy (model req) then model req
        else "gemini-2.0-flash-exp" in
      let '(cs, shouldDisableThinking) :=
        convertClaudeMessagesToGeminiContents msgs actualModelName in
      let cs' :=
        if JsString.includes actualModelName "claude"
        then strip_signatures cs else cs in
      let systemText :=
        if truthy (system req) then system_text (system req) else "" in
      match convertClaudeToolsToGeminiTools (tools req) with
      | None => None
      | Some geminiTools =>
          let has_tools := negb (bool_decide (geminiTools = [])) in
          Some (GeminiRequest
                  (TokenManager.projectId token)
                  generated
                  (Request cs'
                           (if JsString.truthy systemText then systemText
                            else systemInstruction cfg)
                           (if has_tools then Some geminiTools else None)
                           (if has_tools then Some "VALIDATED" else None)
                           (generateGenerationConfig cfg req' actualModelName
                                                     shouldDisableThinking)
                           (TokenManager.sessionId token))
                  actualModelName
                  "antigravity")
      end
  end.

(** The parts produced for one assistant turn sent alone to model
    [modelName]: what [convertClaudeToGeminiRequest] leaves in
    [request.contents]. *)
Definition turn_parts (modelName : string) (blocks : list block) : list part :=
  let '(cs, _) :=
    convertClaudeMessagesToGeminiContents
      [Message "assistant" (CBlocks blocks)] modelName in
  concat (map parts
              (if JsString.includes modelName "claude"
               then strip_signatures cs else cs)).

End WithStringify.

(** [part.thoughtSignature] is set. *)
Definition carries_signature (p : part) : bool :=
  match thoughtSignature p with Some _ => true | None => false end.

(** The number of parts that carry a signature. *)
Definition signed_count (l : list part) : nat :=
  length (List.filter carries_signature l).

(** A part [applySignatureToParts] can sign. *)
Definition signable (p : part) : bool :=
  is_call p || is_plain_text p || is_thought p.

Definition none_of (test : part -> bool) (l : list part) : Prop :=
  Forall (fun p => test p = false) l.

(** [produced] is [built] with one part signed, chosen in the order of the
    specification: the first [functionCall] part; else the last text part
    that is not a thought; else the last thought part. *)
Definition placed_by_priority (built produced : list part)
           (signature : string) : Prop :=
  exists pre p post,
    built = pre ++ p :: post /\
    produced = pre ++ sign signature p :: post /\
    ((is_call p = true /\ none_of is_call pre) \/
     (none_of is_call built /\ is_plain_text p = true /\
      none_of is_plain_text post) \/
     (none_of is_call built /\ none_of is_plain_text built /\
      is_thought p = true /\ none_of is_thought post)).

End Translator.

(** ** The token estimator *)

Module Estimator.
Import Json Translator.

Section WithStringify.

Variable JSON_stringify : json -> string.

(** [estimateTokensFromText(text)] *)
Definition estimateTokensFromText (text : json) : Z :=
  if negb (truthy text) then 0
  else
    let normalized :=
      match text with JStr s => s | _ => JSON_stringify text end in
    Z.max 1 (Qceiling (Z.of_nat (String.length normalized) # 4)).

(** The estimate in the words of the specification:
    [max(1, ceil(length(text)/4))]. *)
Definition estimate_spec (text : string) : Z :=
  Z.max 1 (Qceiling (inject_Z (Z.of_nat (String.length text)) / 4)).

Definition dquote : string := String (ascii_of_nat 34) "".
Definition newline : string := String (ascii_of_nat 10) "".

(** The text [extractTextFromClaudeMessages] gives for a block. *)
Definition block_text (b : block) : string :=
  match b with
  | BText t => t
  | BThinking t _ => t
  | BToolUse _ name input =>
      "<invoke name=" +:+ dquote +:+ name +:+ dquote +:+ ">"
        +:+ JSON_stringify (if truthy input then input else JObj [])
        +:+ "</invoke>"
  | BToolResult id c _ =>
      "<tool_result id=" +:+ dquote +:+ id +:+ dquote +:+ ">"
        +:+ (match c with JNull => "" | _ => toString c end)
        +:+ "</tool_result>"
  | _ => ""
  end.

(** [extractTextFromClaudeMessages(messages)] *)
Definition extractTextFromClaudeMessages (msgs : list message) : string :=
  JsString.join newline
    (map (fun msg =>
            match body msg with
            | CString s => s
            | CBlocks blocks => JsString.join "" (map block_text blocks)
            | COther _ => ""
            end) msgs).

(** The text [countClaudeTokens] adds for a truthy [system]. *)
Definition count_system_text (sys : json) : string :=
  match sys with
  | JArr items =>
      JsString.join newline
        (map (fun b =>
                match b with
                | JStr s => s
                | _ => match get "text" b with
                       | Some v => if truthy v then toString v else ""
                       | None => ""
                       end
                end) items)
  | _ => toString sys
  end.

Record tokenCount := TokenCount {
  input_tokens : Z;
  token_count : Z;
  tokens : Z
}.

(** [countClaudeTokens(request)]; [None] when it throws. *)
Definition countClaudeTokens (req : claudeRequest) : option tokenCount :=
  match messages req with
  | None => None
  | Some msgs =>
      let t0 := extractTextFromClaudeMessages msgs in
      let t1 :=
        if truthy (system req)
        then t0 +:+ newline +:+ count_system_text (system req) else t0 in
      let t2 :=
        match tools req with
        | ToolsArray (tool :: more) =>
            t1 +:+ newline +:+ JSON_stringify (JArr (tool :: more))
        | ToolsString (String c rest) =>
            t1 +:+ newline +:+ JSON_stringify (JStr (String c rest))
        | _ => t1
        end in
      let inputTokens := estimateTokensFromText (JStr t2) in
      Some (TokenCount inputTokens inputTokens inputTokens)
  end.

End WithStringify.

End Estimator.

(** ** The SSE emitter ([ClaudeSseEmitter]) *)

Module SseEmitter.
Import Json.

Inductive block_type :=
| text_block
| thinking_block
| tool_use_block (id name : string).

Inductive delta :=
| text_delta (text : string)
| thinking_delta (thinking : string)
| input_json_delta (partial_json : string).

(** What [writeSSE] and [res.end] put on the response, by event name. *)
Inductive event :=
| message_start (id model : string) (input_tokens : Z)
| content_block_start (index : nat) (content_block : block_type)
| content_block_delta (index : nat) (d : delta)
| content_block_stop (index : nat)
| message_delta (input_tokens output_tokens : Z)
| message_stop
| response_end.

(** A tool call handed to [sendToolCalls]; a missing [id] or name is the
    empty string, [arguments] that are [undefined] are [None]. *)
Record toolCall := ToolCall {
  call_id : string;
  function_name : string;
  arguments : option json
}.

(** The [usage] handed to [finish]. *)
Record usage := Usage {
  completion_tokens : option Z;
  output_tokens : option Z;
  prompt_tokens : option Z;
  usage_input_tokens : option Z
}.

(** The emitter, with the events written to [res] so far, oldest first. *)
Record emitter := Emitter {
  res : list event;
  requestId : string;
  model : string;
  inputTokens : Z;
  nextIndex : nat;
  textBlockIndex : option nat;
  thinkingBlockIndex : option nat;
  finished : bool;
  totalOutputTokens : Z
}.

(** [writeSSE(this.res, event, data)] *)
Definition writeSSE (e : emitter) (ev : event) : emitter :=
  Emitter (res e ++ [ev]) (requestId e) (model e) (inputTokens e)
          (nextIndex e) (textBlockIndex e) (thinkingBlockIndex e)
          (finished e) (totalOutputTokens e).

Definition set_blocks (e : emitter) (next : nat) (text thinking : option nat)
  : emitter :=
  Emitter (res e) (requestId e) (model e) (inputTokens e) next text thinking
          (finished e) (totalOutputTokens e).

Definition add_tokens (e : emitter) (n : Z) : emitter :=
  Emitter (res e) (requestId e) (model e) (inputTokens e) (nextIndex e)
          (textBlockIndex e) (thinkingBlockIndex e) (finished e)
          (totalOutputTokens e + n).

Definition set_finished (e : emitter) : emitter :=
  Emitter (res e) (requestId e) (model e) (inputTokens e) (nextIndex e)
          (textBlockIndex e) (thinkingBlockIndex e) true
          (totalOutputTokens e).

Section WithBuiltins.

(** [JSON.stringify], and the identifiers [generateRequestId] draws, by
    the index of the block they are drawn for. *)
Variable JSON_stringify : json -> string.
Variable generateRequestId : nat -> string.

(** [new ClaudeSseEmitter(res, requestId, { model, inputTokens })] on a
    fresh response. *)
Definition create (requestId model : string) (inputTokens : Z) : emitter :=
  Emitter []
          (if JsString.truthy requestId then requestId
           else generateRequestId 0)
          (if JsString.truthy model then model else "claude-proxy")
          inputTokens 0 None None false 0.

(** [start()] *)
Definition start (e : emitter) : emitter :=
  writeSSE e
    (message_start ("msg_" +:+ requestId e)
                   (if JsString.truthy (model e) then model e
                    else "claude-proxy")
                   (inputTokens e)).

(** [ensureTextBlock()] *)
Definition ensureTextBlock (e : emitter) : emitter :=
  match textBlockIndex e with
  | Some _ => e
  | None =>
      writeSSE
        (set_blocks e (S (nextIndex e)) (Some (nextIndex e))
                    (thinkingBlockIndex e))
        (content_block_start (nextIndex e) text_block)
  end.

(** [ensureThinkingBlock()] *)
Definition ensureThinkingBlock (e : emitter) : emitter :=
  match thinkingBlockIndex e with
  | Some _ => e
  | None =>
      writeSSE
        (set_blocks e (S (nextIndex e)) (textBlockIndex e)
                    (Some (nextIndex e)))
        (content_block_start (nextIndex e) thinking_block)
  end.

(** [closeTextBlock()] *)
Definition closeTextBlock (e : emitter) : emitter :=
  match textBlockIndex e with
  | None => e
  | Some index =>
      writeSSE (set_blocks e (nextIndex e) None (thinkingBlockIndex e))
               (content_block_stop index)
  end.

(** [closeThinkingBlock()] *)
Definition closeThinkingBlock (e : emitter) : emitter :=
  match thinkingBlockIndex e with
  | None => e
  | Some index =>
      writeSSE (set_blocks e (nextIndex e) (textBlockIndex e) None)
               (content_block_stop index)
  end.

(** [sendText(text)] *)
Definition sendText (e : emitter) (text : string) : emitter :=
  if negb (JsString.truthy text) then e
  else
    let e1 := ensureTextBlock (closeThinkingBlock e) in
    let e2 :=
      add_tokens e1 (Estimator.estimateTokensFromText JSON_stringify (JStr text)) in
    match textBlockIndex e2 with
    | Some index => writeSSE e2 (content_block_delta index (text_delta text))
    | None => e2
    end.

(** [sendThinking(thinking)] *)
Definition sendThinking (e : emitter) (thinking : string) : emitter :=
  if negb (JsString.truthy thinking) then e
  else
    let e1 := ensureThinkingBlock (closeTextBlock e) in
    let e2 :=
      add_tokens e1
        (Estimator.estimateTokensFromText JSON_stringify (JStr thinking)) in
    match thinkingBlockIndex e2 with
    | Some index =>
        writeSSE e2 (content_block_delta index (thinking_delta thinking))
    | None => e2
    end.

(** One turn of the [forEach] of [sendToolCalls]. *)
Definition send_one_call (e : emitter) (call : toolCall) : emitter :=
  let index := nextIndex e in
  let e1 := set_blocks e (S index) (textBlockIndex e) (thinkingBlockIndex e) in
  let inputJson :=
    match arguments call with
    | None | Some JNull => "{}"
    | Some (JStr s) => s
    | Some args => JSON_stringify args
    end in
  let e2 :=
    add_tokens e1
      (Estimator.estimateTokensFromText JSON_stringify (JStr inputJson)) in
  let e3 :=
    writeSSE e2
      (content_block_start index
         (tool_use_block
            (if JsString.truthy (call_id call) then call_id call
             else "toolu_" +:+ generateRequestId index)
            (if JsString.truthy (function_name call) then function_name call
             else "tool"))) in
  let e4 :=
    writeSSE e3 (content_block_delta index (input_json_delta inputJson)) in
  writeSSE e4 (content_block_stop index).

(** [sendToolCalls] is an [async] function with two [await]s: a call runs
    it up to the first, and the rest runs later in two more stretches, each
    when the job queue reaches it.  What is left of a call that is
    suspended: *)
Inductive suspended :=
| AfterCloseText (toolCalls : list toolCall)
| AfterCloseThinking (toolCalls : list toolCall).

(** The stretch that runs when [sendToolCalls(toolCalls)] is called: up to
    [await this.closeTextBlock()], whose body has run. *)
Definition sendToolCalls_called (e : emitter) (toolCalls : list toolCall)
  : emitter * option suspended :=
  match toolCalls with
  | [] => (e, None)
  | _ => (closeTextBlock e, Some (AfterCloseText toolCalls))
  end.

(** The stretch that runs when a suspended call is resumed: up to
    [await this.closeThinkingBlock()], or the loop over the calls. *)
Definition resume (e : emitter) (s : suspended) : emitter * option suspended :=
  match s with
  | AfterCloseText toolCalls =>
      (closeThinkingBlock e, Some (AfterCloseThinking toolCalls))
  | AfterCloseThinking toolCalls => (foldl send_one_call e toolCalls, None)
  end.

(** [await sendToolCalls(toolCalls)] with nothing else touching the emitter
    until it settles: the three stretches in a row. *)
Definition sendToolCalls (e : emitter) (toolCalls : list toolCall) : emitter :=
  match toolCalls with
  | [] => e
  | _ => foldl send_one_call (closeThinkingBlock (closeTextBlock e)) toolCalls
  end.

(** [finish(usage)] *)
Definition finish (e : emitter) (u : option usage) : emitter :=
  if finished e then e
  else
    let e1 := closeThinkingBlock (closeTextBlock (set_finished e)) in
    let outputTokens :=
      match u ≫= completion_tokens with
      | Some n => n
      | None => default (totalOutputTokens e1) (u ≫= output_tokens)
      end in
    let inputTokens' :=
      match u ≫= prompt_tokens with
      | Some n => n
      | None => default (inputTokens e1) (u ≫= usage_input_tokens)
      end in
    let e2 := writeSSE e1 (message_delta inputTokens' outputTokens) in
    let e3 := writeSSE e2 message_stop in
    writeSSE e3 response_end.

(** The calls made on an emitter. *)
Inductive call :=
| Start
| SendText (text : string)
| SendThinking (thinking : string)
| SendToolCalls (toolCalls : list toolCall)
| Finish (u : option usage).

(** A call carried out to its end before the next is made: [sendToolCalls]
    is awaited. *)
Definition perform (e : emitter) (c : call) : emitter :=
  match c with
  | Start => start e
  | SendText t => sendText e t
  | SendThinking t => sendThinking e t
  | SendToolCalls l => sendToolCalls e l
  | Finish u => finish e u
  end.

(** A list of calls, each awaited. *)
Definition run (e : emitter) (cs : list call) : emitter := foldl perform e cs.

(** What a caller that does not await does: it makes a call and goes on
    ([Call]), and now and then lets the job queue run the next stretch of
    the oldest suspended [sendToolCalls] ([Resume]). *)
Inductive move :=
| Call (c : call)
| Resume.

(** The emitter and the queue of suspended calls, oldest first, after a
    move. *)
Definition play_move (st : emitter * list suspended) (mv : move)
  : emitter * list suspended :=
  let '(e, queue) := st in
  match mv with
  | Call (SendToolCalls l) =>
      let '(e', s) := sendToolCalls_called e l in
      (e', queue ++ option_list s)
  | Call c => (perform e c, queue)
  | Resume =>
      match queue with
      | [] => (e, [])
      | s :: rest =>
          let '(e', s') := resume e s in
          (e', rest ++ option_list s')
      end
  end.

Definition play (e : emitter) (moves : list move) : emitter * list suspended :=
  foldl play_move (e, []) moves.

(** The moves of a caller that awaits every call. *)
Definition awaited (c : call) : list move :=
  match c with
  | SendToolCalls _ => [Call c; Resume; Resume]
  | _ => [Call c]
  end.

End WithBuiltins.

Definition is_finish (c : call) : bool :=
  match c with Finish _ => true | _ => false end.

(** Indices of the [content_block_start] events of a trace. *)
Definition starts (tr : list event) : list nat :=
  omap (fun ev => match ev with content_block_start i _ => Some i | _ => None end) tr.

(** Indices of the [content_block_stop] events of a trace. *)
Definition stops (tr : list event) : list nat :=
  omap (fun ev => match ev with content_block_stop i => Some i | _ => None end) tr.

(** How often [i] occurs in [l]. *)
Definition occurrences (i : nat) (l : list nat) : nat :=
  length (filter (fun j => j = i) l).

(** The blocks open after a trace: started and not stopped since, latest
    first. *)
Definition open_step (open : list nat) (ev : event) : list nat :=
  match ev with
  | content_block_start i _ => i :: open
  | content_block_stop i => filter (fun j => j <> i) open
  | _ => open
  end.

Definition open_after (tr : list event) : list nat := foldl open_step [] tr.

(** The block an emitter holds open. *)
Definition open_of (e : emitter) : option nat :=
  match textBlockIndex e with
  | Some i => Some i
  | None => thinkingBlockIndex e
  end.

(** A trace in which blocks are opened and closed in turn: [o] is the one
    block open at its end, if any, and [n] bounds the indices used. *)
Record trace_ok (tr : list event) (o : option nat) (n : nat) : Prop :=
  TraceOk {
    ok_open : open_after tr = option_list o;
    ok_fresh : forall i, i ∈ starts tr -> (i < n)%nat;
    ok_once : forall i, (occurrences i (starts tr) <= 1)%nat;
    ok_balance :
      forall i, occurrences i (starts tr)
                = (occurrences i (stops tr) + occurrences i (option_list o))%nat;
    ok_single :
      forall p, p `prefix_of` tr -> (length (open_after p) <= 1)%nat
  }.

(** The invariant of an emitter. *)
Definition emitter_ok (e : emitter) : Prop :=
  (textBlockIndex e = None \/ thinkingBlockIndex e = None) /\
  trace_ok (res e) (open_of e) (nextIndex e).

(** The emitter after a list of calls on a fresh response. *)
Definition session (JSON_stringify : json -> string)
           (generateRequestId : nat -> string) (requestId model : string)
           (inputTokens : Z) (cs : list call) : emitter :=
  run JSON_stringify generateRequestId
      (create generateRequestId requestId model inputTokens) cs.

(** No call of the list is [finish]. *)
Definition no_finish (cs : list call) : Prop :=
  Forall (fun c => is_finish c = false) cs.

End SseEmitter.

(** ** Concrete pools and requests used in examples *)

Module Scenarios.
Import TokenManager.

(** Two credentials refreshed at instant 1000000 for an hour. *)
Definition credA : token :=
  Token "refresh-A" "access-A" (Some 3600) (Some 1000000) (Some "A") None
        (Some []) (Some "session-A").

Definition credB : token :=
  Token "refresh-B" "access-B" (Some 3600) (Some 1000000) (Some "B") None
        (Some []) (Some "session-B").

(** The pool [[A, B]] in memory and on disk, limit 20 per hour, with a
    quota monitor injected. *)
Definition pool : manager :=
  Manager [credA; credB] 0 20
          (Some [strip_session credA; strip_session credB]) (Some []).

(** The world at instant [now] when the ledger holds [usedA] uses of
    project [A] in the last hour and none of any other. *)
Definition world_at (now usedA : Z) : world :=
  World now
        (fun p _ => if bool_decide (p = Some "A") then usedA else 0)
        (fun _ => RefreshError None)
        (fun _ => FetchThrows)
        false
        "generated-project".

(** Three requests for one model, a second apart; the ledger grows by one
    use of [A] after each. *)
Definition three_requests : list (world * option string) :=
  [ (world_at 2000000 0, Some "gemini-2.5-pro");
    (world_at 2001000 1, Some "gemini-2.5-pro");
    (world_at 2002000 2, Some "gemini-2.5-pro") ].

(** A registry holding a live record for [("A", "gemini-2.5-pro")], due at
    instant 60000. *)
Definition live_registry : ModelCooldown.registry :=
  ModelCooldown.setCooldownInternal
    0 ModelCooldown.empty_registry "A" "gemini-2.5-pro" 60000
    "RESOURCE_EXHAUSTED" true.

(** Quotas reporting nothing left for any model of the group of
    [gemini-2.5-pro]. *)
Definition exhausted_quotas : gmap string (option spec_float) :=
  list_to_map
    ((fun m => (m, Some JsNumber.zero))
       <$> ModelCooldown.getModelsInGroup "Gemini其他").

(** Quotas of the group [Claude/GPT] whose fractions 0.008, 0.01, 0.01 and
    0.012 average to one percent on paper. *)
Definition one_percent_quotas : gmap string (option spec_float) :=
  list_to_map
    [ ("claude-sonnet-4-5-thinking", Some (JsNumber.decimal 8 3));
      ("claude-opus-4-5-thinking", Some (JsNumber.decimal 1 2));
      ("claude-sonnet-4-5", Some (JsNumber.decimal 1 2));
      ("gpt-oss-120b-medium", Some (JsNumber.decimal 12 3)) ].

(** A cooldown whose deadline lies further ahead than [setTimeout] can
    wait: at instant 2000000, for [("A", "gemini-2.5-pro")], until
    2^31 milliseconds later. *)
Definition far_put : ModelCooldown.registry :=
  ModelCooldown.setCooldown
    2000000 None ModelCooldown.empty_registry
    "A" "gemini-2.5-pro" (2000000 + 2147483648) "RESOURCE_EXHAUSTED" false.

(** The third scenario: at instant 2000000, on an empty registry, a
    cooldown of sixty seconds for [("A", "gemini-2.5-pro")] with a
    credential passed and the group exhausted. *)
Definition scenario_put : ModelCooldown.registry :=
  ModelCooldown.setCooldown
    2000000 (Some exhausted_quotas) ModelCooldown.empty_registry
    "A" "gemini-2.5-pro" 2060000 "RESOURCE_EXHAUSTED" true.


(** The translator's configuration with the defaults of [config.json]. *)
Definition config : Translator.config :=
  Translator.Config "" (85 # 100) 50 1 8096.

(** A request for [claude-sonnet-4-5] with one user message and nothing
    else. *)
Definition claude_request : Translator.claudeRequest :=
  Translator.ClaudeRequest
    "claude-sonnet-4-5"
    (Some [Translator.Message "user" (Translator.CString "hi")])
    Json.JNull Translator.ToolsOther None None None None None.

(** The assistant turn of the fourth scenario. *)
Definition signed_turn : list Translator.block :=
  [Translator.BThinking "t1" "S"; Translator.BText "hi"].

(** An assistant turn whose thinking block has a signature and no text,
    followed by an image. *)
Definition signature_only_turn : list Translator.block :=
  [ Translator.BThinking "" "S";
    Translator.BImage (Translator.SourceBase64 "image/png" "AAAA") ].

(** The calls of the sixth scenario, before [finish] and with it. *)
Definition scenario_sends : list SseEmitter.call :=
  [ SseEmitter.Start;
    SseEmitter.SendThinking "a";
    SseEmitter.SendText "b";
    SseEmitter.SendToolCalls
      [SseEmitter.ToolCall "t1" "f" (Some (Json.JStr "{}"))] ].

Definition scenario_usage : option SseEmitter.usage :=
  Some (SseEmitter.Usage None (Some 3) None (Some 10)).

Definition scenario_calls : list SseEmitter.call :=
  scenario_sends ++ [SseEmitter.Finish scenario_usage].

(** Identifiers for [generateRequestId], by block index. *)
Definition request_ids (n : nat) : string :=
  "req-" +:+ Json.decimal (Z.of_nat n).

(** Calls that go on after the response is finished. *)
Definition late_calls : list SseEmitter.call :=
  [ SseEmitter.Start;
    SseEmitter.Finish None;
    SseEmitter.SendText "a";
    SseEmitter.Finish None ].

(** A caller that does not await [sendToolCalls]: the text that follows
    is sent before the call is resumed. *)
Definition unawaited_moves : list SseEmitter.move :=
  [ SseEmitter.Call SseEmitter.Start;
    SseEmitter.Call (SseEmitter.SendText "a");
    SseEmitter.Call
      (SseEmitter.SendToolCalls
         [SseEmitter.ToolCall "t1" "f" (Some (Json.JStr "{}"))]);
    SseEmitter.Call (SseEmitter.SendText "b");
    SseEmitter.Resume;
    SseEmitter.Resume ].

End Scenarios.


(** ** More of the credential store ([token_manager.js]) *)

Module CredentialStore.
Import TokenManager.

(** The object [initialize] builds from an entry of the accounts file:
    [sessionId] is what [generateSessionId] draws for it. *)
Definition load_token (sessions : nat -> string) (i : nat) (t : token) : token :=
  Token (refresh_token t) (access_token t) (expires_in t) (timestamp t)
        (projectId t) (enable t) (Some (default [] (disabledModels t)))
        (Some (sessions i)).

(** [new TokenManager(filePath)]: the constructor with its call of
    [initialize()].  [maxUsagePerHour] is [config.credentials.maxUsagePerHour]
    when it is a finite number; [file] is the accounts file once
    [ensureDataFile] has run ([None] when its content does not parse to an
    array, in which case the list ends empty); [sessions] gives the
    identifiers drawn, by position. *)
Definition construct (maxUsagePerHour : option Z) (file : option (list token))
           (sessions : nat -> string) : manager :=
  Manager
    (match file with
     | Some tokenArray =>
         imap (load_token sessions)
              (filter (fun t => enable t <> Some false) tokenArray)
     | None => []
     end)
    0 (default 20 maxUsagePerHour) file None.

(** [setHourlyLimit(limit)]; [None] stands for a limit that is not a finite
    number. *)
Definition setHourlyLimit (m : manager) (limit : option Z) : manager :=
  match limit with
  | Some n => Manager (tokens m) (currentIndex m) n (file m) (quotaMonitor m)
  | None => m
  end.

(** [setQuotaMonitor(monitor)], for a monitor that has recorded no use. *)
Definition setQuotaMonitor (m : manager) : manager := set_monitor m (Some []).

(** [getTokenByProjectId(projectId)] *)
Definition getTokenByProjectId (w : world) (p : option string) (m : manager)
  : manager * option token :=
  match p, tokens m with
  | None, _ | _, [] => (m, None)
  | Some p, _ =>
      if negb (JsString.truthy p) then (m, None)
      else
        match list_find (fun t => projectId t = Some p /\ enable t <> Some false)
                        (tokens m) with
        | None => (m, None)
        | Some (i, t) =>
            if isExpired w t then
              match refreshToken w m i t with
              | inl (m', t') => (markUsed m' t', Some t')
              | inr code =>
                  if bool_decide (code = Some 403 \/ code = Some 400)
                  then (disableToken m i t, None)
                  else (m, None)
              end
            else (markUsed m t, Some t)
        end
  end.

(** [disableCurrentToken(token)] *)
Definition disableCurrentToken (m : manager) (t : token) : manager :=
  match list_find (fun x => access_token x = access_token t) (tokens m) with
  | Some (i, found) => disableToken m i found
  | None => m
  end.

(** What [saveToFile] leaves in the file for an entry that [initialize]
    read: a disabled entry as it was, an enabled one with [disabledModels]
    defaulted to the empty list and without [sessionId]. *)
Definition saved_entry (d : token) : token :=
  if bool_decide (enable d = Some false) then d
  else Token (refresh_token d) (access_token d) (expires_in d) (timestamp d)
             (projectId d) (enable d) (Some (default [] (disabledModels d)))
             None.

(** The object [disableToken] leaves in place of [t]: [t.enable = false]. *)
Definition disabled_copy (t : token) : token :=
  Token (refresh_token t) (access_token t) (expires_in t) (timestamp t)
        (projectId t) (Some false) (disabledModels t) (sessionId t).

(** What a credential keeps through [getToken]: its [refresh_token] and
    its [disabledModels]. *)
Definition ident (t : token) : string * option (list string) :=
  (refresh_token t, disabledModels t).

(** The manager a loop turn of [getToken] ends with. *)
Definition after_turn (r : manager * option token + manager) : manager :=
  match r with
  | inl (m, _) => m
  | inr m => m
  end.

(** The index points into the list, or is 0 when the list is empty. *)
Definition index_ok (m : manager) : Prop :=
  (currentIndex m < Nat.max (length (tokens m)) 1)%nat.

(** A credential that [getToken] passes over without touching it: disabled
    for the model, or usable but at its hourly limit. *)
Definition passed_over (w : world) (model : option string) (m : manager)
           (t : token) : Prop :=
  isModelDisabled (Some t) (effectiveModelName model) = true \/
  (isExpired w t = false /\ opt_truthy (projectId t) = true /\
   isWithinHourlyLimit w m t = false).

(** The managers a series of selections goes through, and its results. *)
Fixpoint selections_from (calls : list (world * option string)) (m : manager)
  : manager * list (option token) :=
  match calls with
  | [] => (m, [])
  | (w, model) :: rest =>
      let '(m', r) := getToken w model m in
      let '(m'', rs) := selections_from rest m' in
      (m'', r :: rs)
  end.

End CredentialStore.

(** ** The quota monitor ([quota_monitor.js]) *)

Module QuotaMonitor.
Import TokenManager.

Definition checkInterval : Z := 30 * 60 * 1000.
Definition maxSkipMs : Z := 5 * 60 * 60 * 1000.

(** [quotaThreshold = 0.05].  Fractions are exact rationals here; the
    source computes with doubles. *)
Definition quotaThreshold : Q := 5 # 100.

(** [quotaResult.models]: the entries in the order of [Object.entries],
    each with its [remaining] when it has one. *)
Definition quotas : Type := list (string * option Q).

Record cacheEntry : Type := CacheEntry {
  models : quotas;
  lastCheck : Z;
  lastUsed : Z
}.

(** What [quotaManager.getQuotas] resolves to: it throws, or gives a result
    without [models], or gives the models. *)
Inductive quota_reply : Type :=
| QuotaThrows
| QuotaNone
| QuotaModels (ms : quotas).

(** The monitor with what it works on: its cache, the accounts file
    ([None] when it cannot be read or parsed) and the [tokens] of the token
    manager it was given. *)
Record monitor : Type := Monitor {
  quotaCache : gmap string cacheEntry;
  accounts : option (list token);
  tokens : list token;
  isChecking : bool
}.

(** [markTokenUsed(credentialKey)] at instant [now] *)
Definition markTokenUsed (now : Z) (q : monitor) (credentialKey : option string)
  : monitor :=
  match credentialKey with
  | Some k =>
      if JsString.truthy k then
        let cacheEntry := default (CacheEntry [] 0 0) (quotaCache q !! k) in
        Monitor (<[k := CacheEntry (models cacheEntry) (lastCheck cacheEntry) now]>
                   (quotaCache q))
                (accounts q) (tokens q) (isChecking q)
      else q
  | None => q
  end.

(** [shouldSkipCheck(credentialKey)] at instant [now] *)
Definition shouldSkipCheck (now : Z) (q : monitor) (credentialKey : string) : bool :=
  match quotaCache q !! credentialKey with
  | None => false
  | Some cacheEntry =>
      let hasBeenUsedRecently :=
        (0 <? lastUsed cacheEntry) && (now - lastUsed cacheEntry <? checkInterval) in
      if hasBeenUsedRecently then false
      else if lastCheck cacheEntry =? 0 then false
      else now - lastCheck cacheEntry <? maxSkipMs
  end.

(** [account.projectId || account.refresh_token] *)
Definition credentialKey (account : token) : string :=
  match projectId account with
  | Some p => if JsString.truthy p then p else refresh_token account
  | None => refresh_token account
  end.

(** [remaining <= this.quotaThreshold], with [modelInfo.remaining || 0] *)
Definition low (info : option Q) : bool :=
  Qle_bool (default 0%Q info) quotaThreshold.

(** [disabledModels.indexOf(modelName)] *)
Fixpoint indexOf (modelName : string) (l : list string) : option nat :=
  match l with
  | [] => None
  | x :: l' =>
      if bool_decide (x = modelName) then Some O
      else S <$> indexOf modelName l'
  end.

(** One turn of the loop of [checkQuotaForAccount] over the models: the
    list and [hasChanges] before and after.  [splice(index, 1)] takes the
    element at [index] out, the last one for [index = -1]. *)
Definition adjust (acc : list string * bool) (entry : string * option Q)
  : list string * bool :=
  let '(disabledModels, hasChanges) := acc in
  let '(modelName, modelInfo) := entry in
  if low modelInfo && negb (bool_decide (modelName ∈ disabledModels))
  then (disabledModels ++ [modelName], true)
  else if negb (low modelInfo) && bool_decide (modelName ∈ disabledModels)
  then match indexOf modelName disabledModels with
       | Some index => (delete index disabledModels, true)
       | None => (removelast disabledModels, true)
       end
  else (disabledModels, hasChanges).

Definition set_disabledModels (disabledModels : list string) (t : token) : token :=
  Token (refresh_token t) (access_token t) (expires_in t) (timestamp t)
        (projectId t) (enable t) (Some disabledModels) (sessionId t).

(** [updateAccountDisabledModels(refreshToken, disabledModels)] *)
Definition updateAccountDisabledModels (q : monitor) (refreshToken : string)
           (disabledModels : list string) : monitor :=
  match accounts q with
  | None => q
  | Some accs =>
      match findIndex refreshToken accs with
      | None => q
      | Some accountIndex =>
          Monitor (quotaCache q)
                  (Some (alter (set_disabledModels disabledModels) accountIndex accs))
                  (match findIndex refreshToken (tokens q) with
                   | Some i => alter (set_disabledModels disabledModels) i (tokens q)
                   | None => tokens q
                   end)
                  (isChecking q)
      end
  end.

(** [checkQuotaForAccount(account)] at instant [now], when the quota query
    for the account answers [reply]. *)
Definition checkQuotaForAccount (now : Z) (reply : quota_reply) (q : monitor)
           (account : token) : monitor :=
  match reply with
  | QuotaThrows | QuotaNone => q
  | QuotaModels ms =>
      let key := credentialKey account in
      let used := default 0 (lastUsed <$> quotaCache q !! key) in
      let q1 := Monitor (<[key := CacheEntry ms now used]> (quotaCache q))
                        (accounts q) (tokens q) (isChecking q) in
      let '(disabledModels, hasChanges) :=
        foldl adjust (default [] (disabledModels account), false) ms in
      if hasChanges
      then updateAccountDisabledModels q1 (refresh_token account) disabledModels
      else q1
  end.

(** What happens while [checkAllQuotas] handles the account at one position
    of [enabledAccounts]: the instant of [shouldSkipCheck], the instant of
    the check, and the answer of the quota query. *)
Record visit : Type := Visit {
  skip_at : Z;
  check_at : Z;
  reply : quota_reply
}.

(** The loop of [checkAllQuotas] from position [i].  An account that is
    passed over ends the round: both branches that pass over call
    [log.debug], which the logger does not have, and the error is caught
    outside the loop. *)
Fixpoint check_from (visits : nat -> visit) (i : nat)
         (enabledAccounts : list token) (q : monitor) : monitor :=
  match enabledAccounts with
  | [] => q
  | account :: rest =>
      let v := visits i in
      if negb (JsString.truthy (credentialKey account)) then q
      else if shouldSkipCheck (skip_at v) q (credentialKey account) then q
      else check_from visits (S i) rest
                      (checkQuotaForAccount (check_at v) (reply v) q account)
  end.

(** [checkAllQuotas()], run to its end before anything else happens. *)
Definition checkAllQuotas (visits : nat -> visit) (q : monitor) : monitor :=
  if isChecking q then q
  else
    match accounts q with
    | None | Some [] => q
    | Some accs =>
        check_from visits 0
          (List.filter (fun acc => negb (bool_decide (enable acc = Some false))
                                   && JsString.truthy (refresh_token acc))
                       accs)
          q
    end.

(** [getQuotaFromCache(projectId)] *)
Definition getQuotaFromCache (q : monitor) (projectId : string) : option cacheEntry :=
  quotaCache q !! projectId.

(** [quotaInfo.models[modelName]]: the entry's [remaining], for a name the
    object has; a name it only inherits from [Object.prototype] gives a
    value without [remaining]. *)
Definition model_quota (ms : quotas) (modelName : string) : option (option Q) :=
  match list_find (fun e => e.1 = modelName) ms with
  | Some (_, e) => Some e.2
  | None =>
      if bool_decide (modelName ∈ SchemaCleaner.Object_prototype_keys)
      then Some None else None
  end.

(** [isModelAvailable(projectId, modelName)] *)
Definition isModelAvailable (q : monitor) (projectId modelName : string) : bool :=
  match quotaCache q !! projectId with
  | None => true
  | Some quotaInfo =>
      match model_quota (models quotaInfo) modelName with
      | None => true
      | Some remaining => negb (low remaining)
      end
  end.

(** The fields of a credential other than [disabledModels]. *)
Definition but_disabledModels (t : token) : token := set_disabledModels [] t.

End QuotaMonitor.

(** ** The cooldown registry across a restart ([model_cooldown_manager.js]) *)

Module CooldownAdmin.
Import ModelCooldown.

(** [new ModelCooldownManager()] in a new process: empty maps over the file
    the last process left. *)
Definition restart (r : registry) : registry := Registry ∅ ∅ (saved r).

(** One turn of the loop of [initialize]. *)
Definition restore (now : Z) (r : registry) (record : info) : registry :=
  if resetTimestamp record <=? now then r
  else setCooldownInternal now r (projectId record) (model record)
                           (resetTimestamp record) (reason record) false.

(** [initialize()], the whole of it at instant [now]: the records of the
    file are [data.cooldowns]. *)
Definition initialize (now : Z) (r : registry) : registry :=
  let data := saved r in
  let r' := foldl (restore now) r data in
  if existsb (fun record => resetTimestamp record <=? now) data
  then saveToFile r' else r'.

(** What [getCooldownInfo] returns. *)
Record cooldownInfo := CooldownInfo {
  infoProjectId : string;
  infoModel : string;
  infoResetTimestamp : Z;
  remainingMs : Z;
  infoReason : string
}.

(** [getCooldownInfo(projectId, model)] at instant [now]. *)
Definition getCooldownInfo (now : Z) (r : registry) (projectId model : string)
  : registry * option cooldownInfo :=
  match cooldownMap r !! buildKey projectId model with
  | None => (r, None)
  | Some i =>
      if resetTimestamp i <=? now
      then (removeCooldown r projectId model, None)
      else (r, Some (CooldownInfo (ModelCooldown.projectId i) (ModelCooldown.model i)
                                  (resetTimestamp i) (resetTimestamp i - now)
                                  (reason i)))
  end.

(** The key a record is stored under. *)
Definition key_of (i : info) : string :=
  buildKey (ModelCooldown.projectId i) (ModelCooldown.model i).

(** Every record is kept under the key of its own pair. *)
Definition records_keyed (r : registry) : Prop :=
  forall k i, cooldownMap r !! k = Some i -> key_of i = k.

(** The file holds the records of the map. *)
Definition in_sync (r : registry) : Prop :=
  saved r = (map_to_list (cooldownMap r)).*2.

(** An action that sets no cooldown and starts no selection: a query or
    a timer coming due. *)
Definition passive (a : action) : bool :=
  match a with
  | Query _ _ _ | Due _ _ => true
  | _ => false
  end.

(** Registry [r'] has its timers due at the deadlines of their records,
    and the records that are live at [now'] in it are those of [r]. *)
Definition settled_until (now' : Z) (r r' : registry) : Prop :=
  timers_keyed r' /\
  (forall k t, timerMap r' !! k = Some t ->
               exists i, cooldownMap r' !! k = Some i /\
                         dueAt t = resetTimestamp i) /\
  forall k, (exists i', cooldownMap r' !! k = Some i' /\ now' < resetTimestamp i')
            <-> (exists i, cooldownMap r !! k = Some i /\ now' < resetTimestamp i).

(** The record [initialize] stores for a record of the file. *)
Definition restored (now : Z) (i : info) : info :=
  Info (ModelCooldown.projectId i) (ModelCooldown.model i) (resetTimestamp i)
       (reason i) now.

End CooldownAdmin.

(** ** The shape of a cleaned schema ([cleanJsonSchema]) *)

Module SchemaShape.
Import Json SchemaCleaner.

(** A key the loop of [cleanObject] lets through. *)
Definition kept_key (key : string) : bool :=
  negb (bool_decide (key ∈ fieldsToRemove)) && negb (in_validationFields key).

(** [required], when it is an array, is not empty, and names only keys of
    [properties] when that is an object. *)
Definition required_ok (fields : list (string * json)) : bool :=
  match assoc "required" fields with
  | Some (JArr required) =>
      negb (bool_decide (required = []))
      && match assoc "properties" fields with
         | Some props =>
             if truthy props && is_object_type props then
               forallb (fun prop =>
                          match prop with
                          | JStr s => bool_decide (s ∈ keys props)
                          | _ => false
                          end) required
             else true
         | None => true
         end
  | _ => true
  end.

(** Every object of the value, at any depth, has only kept keys and a
    [required] in order. *)
Fixpoint cleaned (j : json) : bool :=
  match j with
  | JArr items => forallb cleaned items
  | JObj fields =>
      forallb (fun kv => match kv with
                         | (key, value) => kept_key key && cleaned value
                         end) fields
      && required_ok fields
  | _ => true
  end.

(** An entry of a cleaned object. *)
Definition entry_ok (kv : string * json) : bool :=
  match kv with (key, value) => kept_key key && cleaned value end.

(** The list [required] is cut down to. *)
Definition pruned (cleaned : list (string * json)) (required : list json)
  : list json :=
  match assoc "properties" cleaned with
  | Some props =>
      if truthy props && is_object_type props then
        List.filter (fun prop =>
                       match prop with
                       | JStr s => bool_decide (s ∈ keys props)
                       | _ => false
                       end) required
      else required
  | None => required
  end.

(** The loop of [cleanObject] over [Object.entries(obj)], on its own. *)
Fixpoint entries (root : bool) (validations : list string)
         (obj l : list (string * json)) : list (string * json) :=
  match l with
  | [] => []
  | (key, value) :: rest =>
      if negb (has_key key obj) then entries root validations obj rest
      else if bool_decide (key ∈ fieldsToRemove)
      then entries root validations obj rest
      else if in_validationFields key then entries root validations obj rest
      else if bool_decide (key = "description")
              && negb (bool_decide (validations = [])) && root
      then (key, JStr (annotate value validations))
             :: entries root validations obj rest
      else (key, cleanObject false value) :: entries root validations obj rest
  end.

(** A tool schema with facets at two levels, a property named as a facet
    and a [required] that names it. *)
Definition nested_schema : json :=
  JObj [ ("description", JStr "args");
         ("type", JStr "object");
         ("maxProperties", JNum 4);
         ("properties",
          JObj [ ("pattern", JObj [("type", JStr "string")]);
                 ("tags", JObj [ ("type", JStr "array");
                                 ("uniqueItems", JBool true);
                                 ("items", JObj [ ("type", JStr "string");
                                                  ("format", JStr "uri") ]) ]) ]);
         ("required", JArr [JStr "pattern"; JStr "tags"]) ].

End SchemaShape.

(** ** The shape of a translated request ([convertClaudeToGeminiRequest]) *)

Module TranslatorShape.
Import Json Translator.


(** The last content of role [model]. *)
Definition last_model (cs : list gcontent) : option gcontent :=
  List.find (fun c => bool_decide (grole_of c = RoleModel)) (rev cs).

(** The content has no part, or its first part is a thought. *)
Definition thought_first (c : gcontent) : bool :=
  match parts c with
  | [] => true
  | p :: _ => is_thought p
  end.

(** A [functionCall] part with this [id] and [name]. *)
Definition calls (id name : string) (p : part) : Prop :=
  exists args, payload_of p = PFunctionCall id name args.


(** A request to a thinking model whose assistant turn has its signed
    thinking block after the text. *)
Definition late_thinking_request : claudeRequest :=
  ClaudeRequest
    "gemini-2.5-pro"
    (Some [ Message "user" (CString "hi");
            Message "assistant" (CBlocks [BText "answer"; BThinking "why" "S"]);
            Message "assistant" (CBlocks [BToolUse "call-1" "lookup" JNull]);
            Message "user" (CBlocks [BToolResult "call-1" (JStr "42") false]) ])
    JNull
    (ToolsArray [JObj [ ("name", JStr "lookup");
                        ("input_schema", SchemaShape.nested_schema) ]])
    None None None None None.

(** What the request above leaves as its model content. *)
Definition late_thinking_model_turn : gcontent :=
  GContent RoleModel
    [ plain (PText "why" true);
      Part (PText "answer" false) (Some "S");
      plain (PFunctionCall "call-1" "lookup" (JObj [])) ].

End TranslatorShape.

(** ** The shape of an event stream ([ClaudeSseEmitter]) *)

Module StreamShape.
Import Json SseEmitter.

Inductive kind := KText | KThinking | KToolUse.

Global Instance kind_eq_dec : EqDecision kind.
Proof. solve_decision. Defined.

Definition kind_of (b : block_type) : kind :=
  match b with
  | text_block => KText
  | thinking_block => KThinking
  | tool_use_block _ _ => KToolUse
  end.

Definition delta_kind (d : delta) : kind :=
  match d with
  | text_delta _ => KText
  | thinking_delta _ => KThinking
  | input_json_delta _ => KToolUse
  end.

(** A reader of the stream: the index the next block must have and the
    block that is open, with its kind; [None] once an event was out of
    place. *)
Definition reader : Type := option (nat * option (nat * kind)).

(** The reader after one more event: a block starts with the next index
    while none is open, a delta goes to the open block and is of its kind,
    a stop closes the open block. *)
Definition read (st : reader) (ev : event) : reader :=
  match st with
  | None => None
  | Some (next, open) =>
      match ev, open with
      | content_block_start i b, None =>
          if bool_decide (i = next) then Some (S next, Some (i, kind_of b))
          else None
      | content_block_start _ _, Some _ => None
      | content_block_delta i d, Some (j, k) =>
          if bool_decide (i = j) && bool_decide (delta_kind d = k) then st
          else None
      | content_block_delta _ _, None => None
      | content_block_stop i, Some (j, _) =>
          if bool_decide (i = j) then Some (next, None) else None
      | content_block_stop _, None => None
      | _, _ => st
      end
  end.

Definition read_all (tr : list event) : reader := foldl read (Some (O, None)) tr.

(** What the reader must hold after the events of an emitter. *)
Definition reader_of (e : emitter) : reader :=
  Some (nextIndex e,
        match textBlockIndex e, thinkingBlockIndex e with
        | Some i, _ => Some (i, KText)
        | None, Some j => Some (j, KThinking)
        | None, None => None
        end).

Section WithStringify.
Variable JSON_stringify : json -> string.

(** The estimate of what a delta carries. *)
Definition delta_tokens (d : delta) : Z :=
  Estimator.estimateTokensFromText
    JSON_stringify
    (JStr match d with
          | text_delta t => t
          | thinking_delta t => t
          | input_json_delta t => t
          end).

(** The sum of the estimates of the deltas of a trace. *)
Definition trace_tokens (tr : list event) : Z :=
  foldr (fun ev acc => match ev with
                       | content_block_delta _ d => delta_tokens d + acc
                       | _ => acc
                       end) 0 tr.

(** The invariant of an emitter: at most one of the two block fields is
    set, the events written so far read well and leave the reader where
    the emitter is, and the running total is the sum over the deltas
    written. *)
Definition in_step (e : emitter) : Prop :=
  (textBlockIndex e = None \/ thinkingBlockIndex e = None) /\
  read_all (res e) = reader_of e /\
  totalOutputTokens e = trace_tokens (res e).

End WithStringify.

End StreamShape.

(** ** The configuration store ([data/config.json]) *)

Module ConfigStore.

(** A configuration value, as JSON holds it: a number (a rational here), a
    string, a boolean, or another value ([VJson JNull] is [null]; no value
    is [undefined]). *)
Inductive value :=
| VNum (q : Q)
| VStr (s : string)
| VBool (b : bool)
| VJson (j : Json.json).

Definition DEFAULT_DATA_CONFIG : gmap string value :=
  list_to_map
    [ ("PORT", VNum 8045);
      ("HOST", VStr "0.0.0.0");
      ("API_URL",
       VStr "https://daily-cloudcode-pa.sandbox.googleapis.com/v1internal:streamGenerateContent?alt=sse");
      ("API_MODELS_URL",
       VStr "https://daily-cloudcode-pa.sandbox.googleapis.com/v1internal:fetchAvailableModels");
      ("API_NO_STREAM_URL",
       VStr "https://daily-cloudcode-pa.sandbox.googleapis.com/v1internal:generateContent");
      ("API_HOST", VStr "daily-cloudcode-pa.sandbox.googleapis.com");
      ("API_USER_AGENT", VStr "antigravity/1.11.3 windows/amd64");
      ("DEFAULT_TEMPERATURE", VNum 1);
      ("DEFAULT_TOP_P", VNum (85 # 100));
      ("DEFAULT_TOP_K", VNum 50);
      ("DEFAULT_MAX_TOKENS", VNum 8096);
      ("MAX_REQUEST_SIZE", VStr "50mb");
      ("USE_NATIVE_AXIOS", VBool false);
      ("TIMEOUT", VNum 180000);
      ("MAX_IMAGES", VNum 10);
      ("IMAGE_BASE_URL", VStr "");
      ("CREDENTIAL_MAX_USAGE_PER_HOUR", VNum 20);
      ("RETRY_STATUS_CODES", VStr "429,500");
      ("RETRY_MAX_ATTEMPTS", VNum 3);
      ("SYSTEM_INSTRUCTION", VStr "");
      ("PROXY", VStr "") ].

Definition DOCKER_ONLY_KEYS : list string :=
  [ "PANEL_USER"; "PANEL_PASSWORD"; "API_KEY" ].

(** [data/config.json]: not there, there but not parseable, or holding an
    object. *)
Inductive file :=
| Missing
| Unreadable
| Stored (config : gmap string value).

(** [loadDataConfig()]: the file afterwards and the configuration
    returned.  [{ ...a, ...b }] is the union in which [b] wins. *)
Definition loadDataConfig (f : file) : file * gmap string value :=
  match f with
  | Missing => (Stored DEFAULT_DATA_CONFIG, DEFAULT_DATA_CONFIG)
  | Unreadable => (Unreadable, DEFAULT_DATA_CONFIG)
  | Stored config => (f, config ∪ DEFAULT_DATA_CONFIG)
  end.

(** [saveDataConfig(config)], when the file can be written. *)
Definition saveDataConfig (f : file) (config : gmap string value) : file * gmap string value :=
  let mergedConfig := config ∪ (loadDataConfig f).2 in
  (Stored mergedConfig, mergedConfig).

(** [getEffectiveConfig()] under the environment [env]. *)
Definition getEffectiveConfig (env : gmap string string) (f : file)
  : file * gmap string value :=
  let '(f', dataConfig) := loadDataConfig f in
  (f',
   foldl (fun effectiveConfig key =>
            match env !! key with
            | Some v => <[key := VStr v]> effectiveConfig
            | None => delete key effectiveConfig
            end)
         dataConfig DOCKER_ONLY_KEYS).

(** [isDockerOnlyKey(key)] *)
Definition isDockerOnlyKey (key : string) : bool :=
  bool_decide (key ∈ DOCKER_ONLY_KEYS).

End ConfigStore.

(** ** The logger ([truncateBase64]) *)

Module Logger.
Import Json.

(** A character of the class [[A-Za-z0-9+/=]]. *)
Definition base64_char (c : ascii) : bool :=
  let n := nat_of_ascii c in
  ((65 <=? n) && (n <=? 90) || (97 <=? n) && (n <=? 122)
   || (48 <=? n) && (n <=? 57) || (n =? 43) || (n =? 47) || (n =? 61))%nat.

Fixpoint all_base64 (s : string) : bool :=
  match s with
  | EmptyString => true
  | String c rest => base64_char c && all_base64 rest
  end.

(** [/^[A-Za-z0-9+/=]{200,}$/.test(obj)] *)
Definition base64Regex_test (s : string) : bool :=
  (200 <=? String.length s)%nat && all_base64 s.

(** The text put in place of a base64 string. *)
Definition truncated (maxLength : nat) (s : string) : string :=
  substring 0 maxLength s
    +:+ "...[已截断, 共 " +:+ decimal (Z.of_nat (String.length s)) +:+ " 字符]".

(** [truncateBase64(obj, maxLength)].  An own key [__proto__] is lost in
    the copy of an object: the assignment [result[key] = ...] sets the
    prototype instead of a property. *)
Fixpoint truncateBase64 (maxLength : nat) (obj : json) : json :=
  match obj with
  | JStr s => if base64Regex_test s then JStr (truncated maxLength s) else obj
  | JArr items => JArr (map (truncateBase64 maxLength) items)
  | JObj fields =>
      JObj ((fix copy (l : list (string * json)) : list (string * json) :=
               match l with
               | [] => []
               | (key, value) :: rest =>
                   if bool_decide (key = "__proto__") then copy rest
                   else (key, truncateBase64 maxLength value) :: copy rest
               end) fields)
  | _ => obj
  end.

(** The loop over the keys of an object, on its own. *)
Fixpoint copy (maxLength : nat) (l : list (string * json))
  : list (string * json) :=
  match l with
  | [] => []
  | (key, value) :: rest =>
      if bool_decide (key = "__proto__") then copy maxLength rest
      else (key, truncateBase64 maxLength value) :: copy maxLength rest
  end.

(** No string of the value is a run of 200 or more base64 characters, and
    no object of it has an own key [__proto__]. *)
Fixpoint loggable (j : json) : bool :=
  match j with
  | JStr s => negb (base64Regex_test s)
  | JArr items => forallb loggable items
  | JObj fields =>
      forallb (fun kv => match kv with
                         | (key, value) =>
                             negb (bool_decide (key = "__proto__"))
                             && loggable value
                         end) fields
  | _ => true
  end.

End Logger.

(** ** More scenarios *)

Module MoreScenarios.
Import TokenManager.

(** The quota monitor over the pool of [Scenarios]: the same file and list,
    nothing cached yet. *)
Definition monitor0 : QuotaMonitor.monitor :=
  QuotaMonitor.Monitor ∅ (file Scenarios.pool) (tokens Scenarios.pool) false.

(** A quota report: 2% left of one model, half of another, and a model
    with no [remaining]. *)
Definition report : QuotaMonitor.quotas :=
  [ ("gemini-2.5-pro", Some (2 # 100)%Q);
    ("gemini-2.5-flash", Some (1 # 2)%Q);
    ("claude-sonnet-4-5", None) ].

(** The entry of credential [A] in the file. *)
Definition accountA : token := strip_session Scenarios.credA.

(** The pool of [Scenarios] once the monitor has checked [A] against the
    report. *)
Definition checked_pool : manager :=
  set_tokens Scenarios.pool
    (QuotaMonitor.tokens
       (QuotaMonitor.checkQuotaForAccount
          2000000 (QuotaMonitor.QuotaModels report) monitor0 accountA)).

(** The pool of [Scenarios] when [A] has one model disabled. *)
Definition blocked_pool : manager :=
  set_tokens Scenarios.pool
    [ QuotaMonitor.set_disabledModels ["gemini-2.5-pro"] Scenarios.credA;
      Scenarios.credB ].

End MoreScenarios.

(** * Properties *)

(** ** JavaScript string primitives *)

Module JsStringFacts.
Import JsString.

Lemma append_cons x (a b : string) : String x a +:+ b = String x (a +:+ b).
Proof. reflexivity. Qed.

Lemma append_assoc (a b c : string) : (a +:+ b) +:+ c = a +:+ (b +:+ c).
Proof. induction a as [|x a IH]; [done|]. rewrite !append_cons. by f_equal. Qed.

Lemma append_empty_r (a : string) : a +:+ "" = a.
Proof. induction a as [|x a IH]; [done|]. rewrite append_cons. by f_equal. Qed.

Lemma prefix_spec p s :
  String.prefix p s = true <-> exists b, s = p +:+ b.
Proof.
  revert s. induction p as [|c p IH]; intros s.
  - simpl. split; [by exists s|by destruct s].
  - destruct s as [|d s]; simpl; [split; [done|by intros [b ?]]|].
    destruct (ascii_dec c d) as [->|Hne].
    + rewrite IH. split; intros [b Hb]; exists b.
      * by rewrite append_cons, Hb.
      * rewrite append_cons in Hb. by injection Hb.
    + split; [done|]. intros [b Hb]. rewrite append_cons in Hb.
      injection Hb as ? ?. congruence.
Qed.

Lemma rev_app_spec s1 s2 : String.rev_app s1 s2 = String.rev s1 +:+ s2.
Proof.
  unfold String.rev. revert s2. induction s1 as [|c s1 IH]; intros s2; [done|].
  simpl. rewrite (IH (String c "")), IH.
  by rewrite append_assoc.
Qed.

Lemma rev_cons c s : String.rev (String c s) = String.rev s +:+ String c "".
Proof. unfold String.rev at 1. simpl. apply rev_app_spec. Qed.

Lemma rev_append a b : String.rev (a +:+ b) = String.rev b +:+ String.rev a.
Proof.
  induction a as [|c a IH].
  - by rewrite append_empty_r.
  - rewrite append_cons, !rev_cons, IH. by rewrite append_assoc.
Qed.

Lemma rev_rev s : String.rev (String.rev s) = s.
Proof.
  induction s as [|c s IH]; [done|].
  by rewrite rev_cons, rev_append, IH.
Qed.

(** [startsWith], [endsWith] and [includes] say what their names say. *)
Lemma startsWith_spec s p : startsWith s p = true <-> exists b, s = p +:+ b.
Proof. apply prefix_spec. Qed.

Lemma endsWith_spec s p : endsWith s p = true <-> exists a, s = a +:+ p.
Proof.
  unfold endsWith. rewrite prefix_spec. split.
  - intros [b Hb]. exists (String.rev b).
    by rewrite <- (rev_rev s), Hb, rev_append, rev_rev.
  - intros [a ->]. exists (String.rev a). apply rev_append.
Qed.

Lemma includes_spec s p :
  includes s p = true <-> exists a b, s = a +:+ p +:+ b.
Proof.
  induction s as [|c s IH].
  - change (includes "" p) with (String.prefix p "" || false).
    rewrite orb_false_r, prefix_spec. split.
    + intros [b Hb]. by exists "", b.
    + intros (a & b & Hab). destruct a; [by exists b|done].
  - change (includes (String c s) p)
      with (String.prefix p (String c s) || includes s p).
    rewrite orb_true_iff, prefix_spec, IH. split.
    + intros [[b Hb]|(a & b & ->)]; [by exists "", b|by exists (String c a), b].
    + intros (a & b & Hab). destruct a as [|d a]; [left; by exists b|].
      right. rewrite append_cons in Hab. injection Hab as _ ->. by exists a, b.
Qed.

Example trim_example :
  trim (String (ascii_of_nat 9) " gemini-2.5-pro  ") = "gemini-2.5-pro".
Proof. reflexivity. Qed.

End JsStringFacts.

(** ** The credential store and selector *)

Module TokenManagerFacts.
Import TokenManager.

(** *** Persistence *)

Lemma findIndex_Some rt l i :
  findIndex rt l = Some i ->
  exists t, l !! i = Some t /\ refresh_token t = rt.
Proof.
  revert i. induction l as [|a l IH]; intros i; simpl; [done|].
  case_bool_decide as Ha.
  - intros [= <-]. exists a. done.
  - destruct (findIndex rt l) as [j|] eqn:Hj; simpl; [|done].
    intros [= <-]. destruct (IH j eq_refl) as (t & Ht & Hrt).
    exists t. done.
Qed.

Lemma findIndex_None rt l :
  findIndex rt l = None -> rt ∉ refresh_token <$> l.
Proof.
  induction l as [|a l IH]; simpl; [intros _; apply not_elem_of_nil|].
  case_bool_decide as Ha; [done|].
  destruct (findIndex rt l) eqn:Hj; simpl; [done|].
  intros _. rewrite not_elem_of_cons. split; [congruence|by apply IH].
Qed.

Lemma strip_session_refresh t :
  refresh_token (strip_session t) = refresh_token t.
Proof. done. Qed.

Lemma save_one_refresh disk t :
  refresh_token <$> save_one disk t = refresh_token <$> disk.
Proof.
  unfold save_one. destruct (findIndex _ disk) as [i|] eqn:Hi; [|done].
  apply findIndex_Some in Hi as (t0 & Ht0 & Hrt).
  rewrite list_fmap_insert, strip_session_refresh, <- Hrt.
  apply list_insert_id. by rewrite list_lookup_fmap, Ht0.
Qed.

Lemma merge_tokens_refresh mem disk :
  refresh_token <$> merge_tokens mem disk = refresh_token <$> disk.
Proof.
  unfold merge_tokens. revert disk.
  induction mem as [|a mem IH]; intros disk; simpl; [done|].
  by rewrite IH, save_one_refresh.
Qed.

Lemma save_one_entry disk t i t' :
  save_one disk t !! i = Some t' ->
  disk !! i = Some t' \/
  (t' = strip_session t /\ refresh_token <$> disk !! i = Some (refresh_token t)).
Proof.
  unfold save_one. destruct (findIndex _ disk) as [j|] eqn:Hj; [|by left].
  apply findIndex_Some in Hj as (t0 & Ht0 & Hrt).
  destruct (decide (i = j)) as [->|Hne].
  - rewrite list_lookup_insert_eq by (by eapply lookup_lt_Some).
    intros [= <-]. right. by rewrite Ht0, <- Hrt.
  - rewrite list_lookup_insert_ne by done. by left.
Qed.

Lemma merge_tokens_entry mem disk i t' :
  merge_tokens mem disk !! i = Some t' ->
  disk !! i = Some t' \/
  exists t, t ∈ mem /\ t' = strip_session t /\
            refresh_token <$> disk !! i = Some (refresh_token t).
Proof.
  unfold merge_tokens. revert disk.
  induction mem as [|a mem IH]; intros disk; simpl; [by left|].
  intros H. apply IH in H as [H|(t & Hin & -> & Hrt)].
  - apply save_one_entry in H as [H|[-> Hrt]]; [by left|].
    right. exists a. split; [apply list_elem_of_here|done].
  - right. exists t. split; [by apply list_elem_of_further|].
    split; [done|].
    rewrite <- Hrt, <- !list_lookup_fmap. by rewrite save_one_refresh.
Qed.

(** C10.  [saveToFile] rewrites the array it read with some entries
    replaced and none added or removed: the write leaves the sequence of
    [refresh_token]s on disk as it was; an entry of the written array is
    the entry read at that position or the stripped form (no [sessionId])
    of an in-memory credential with that entry's [refresh_token]; and an
    in-memory credential whose [refresh_token] is not on disk is not in
    the written array. *)
Theorem saveToFile_never_inserts (m : manager) :
  file (saveToFile m) = merge_tokens (tokens m) <$> file m /\
  forall disk,
    refresh_token <$> merge_tokens (tokens m) disk = refresh_token <$> disk /\
    (forall i t',
        merge_tokens (tokens m) disk !! i = Some t' ->
        disk !! i = Some t' \/
        exists t, t ∈ tokens m /\ t' = strip_session t /\
                  sessionId t' = None /\
                  refresh_token <$> disk !! i = Some (refresh_token t)) /\
    (forall t, t ∈ tokens m ->
               refresh_token t ∉ refresh_token <$> disk ->
               refresh_token t ∉ refresh_token <$> merge_tokens (tokens m) disk).
Proof.
  split.
  - unfold saveToFile. destruct (file m) eqn:E; simpl; [done|by rewrite E].
  - intros disk. split; [apply merge_tokens_refresh|]. split.
    + intros i t' H. apply merge_tokens_entry in H as [H|(t & ? & -> & ?)];
        [by left|]. right. by exists t.
    + intros t _ Hnot. by rewrite merge_tokens_refresh.
Qed.

(** *** Selection *)

Lemma isWithinHourlyLimit_markUsed w m t t' :
  isWithinHourlyLimit w (markUsed m t') t = isWithinHourlyLimit w m t.
Proof.
  unfold markUsed.
  destruct (quotaMonitor m), (projectId t') as [p|]; try done.
  by destruct (JsString.truthy p).
Qed.

Lemma markUsed_tokens m t : tokens (markUsed m t) = tokens m.
Proof.
  unfold markUsed.
  destruct (quotaMonitor m), (projectId t) as [p|]; try done.
  by destruct (JsString.truthy p).
Qed.

Lemma markUsed_currentIndex m t : currentIndex (markUsed m t) = currentIndex m.
Proof.
  unfold markUsed.
  destruct (quotaMonitor m), (projectId t) as [p|]; try done.
  by destruct (JsString.truthy p).
Qed.

Lemma healthy_markUsed w model m t t' :
  healthy w model m t -> healthy w model (markUsed m t') t.
Proof.
  intros (? & ? & ? & ?). repeat split; try done.
  by rewrite isWithinHourlyLimit_markUsed.
Qed.

(** A healthy credential under the index is returned at once; the manager
    only records the use. *)
Lemma getToken_healthy w model m t :
  tokens m !! currentIndex m = Some t ->
  healthy w model m t ->
  getToken w model m = (markUsed m t, Some t).
Proof.
  intros Hlook (Hexp & Hpid & Hdis & Hlim).
  unfold getToken.
  destruct (tokens m) as [|t0 l] eqn:Htok; [by rewrite lookup_nil in Hlook|].
  rewrite <- Htok in Hlook. simpl length. simpl getToken_loop.
  unfold getToken_turn. rewrite Hlook, Hdis, Hexp, Hpid.
  unfold select_tail. by rewrite Hlim.
Qed.

Lemma times_selected_cons rt r rs :
  times_selected rt (r :: rs) =
  ((if bool_decide (refresh_token <$> r = Some rt) then 1 else 0)
     + times_selected rt rs)%nat.
Proof.
  unfold times_selected. rewrite filter_cons.
  case_bool_decide as H; destruct (decide _); done.
Qed.

(** The first two scenarios: an empty pool gives no credential; with [A]
    at its hourly limit two selections in a row both return [B]. *)
Example empty_pool_selects_none :
  (getToken (Scenarios.world_at 2000000 0) (Some "gemini-2.5-pro")
            (Manager [] 0 20 (Some []) None)).2 = None.
Proof. reflexivity. Qed.

Example capped_credential_is_skipped :
  selections [ (Scenarios.world_at 2000000 20, Some "gemini-2.5-pro");
               (Scenarios.world_at 2001000 20, Some "gemini-2.5-pro") ]
             Scenarios.pool
  = [Some Scenarios.credB; Some Scenarios.credB].
Proof. by vm_compute. Qed.

(** C1 (as the selector behaves).  While the credential under
    [currentIndex] is healthy for each request, every selection returns
    that credential and leaves the index where it is: after [n] selections
    it has been returned [n] times and every other credential never. *)
Theorem getToken_sticky (calls : list (world * option string))
        (m : manager) (t : token) :
  tokens m !! currentIndex m = Some t ->
  (forall w model, (w, model) ∈ calls -> healthy w model m t) ->
  selections calls m = (fun _ => Some t) <$> calls /\
  times_selected (refresh_token t) (selections calls m) = length calls /\
  (forall rt, rt <> refresh_token t ->
              times_selected rt (selections calls m) = 0%nat).
Proof.
  revert m. induction calls as [|[w model] calls IH]; intros m Hlook Hh.
  - done.
  - assert (healthy w model m t) as Hw by (apply Hh, list_elem_of_here).
    simpl selections. rewrite (getToken_healthy w model m t Hlook Hw).
    destruct (IH (markUsed m t)) as (Hs & Hn & Ho).
    { by rewrite markUsed_tokens, markUsed_currentIndex. }
    { intros w' model' Hin. apply healthy_markUsed, Hh.
      by apply list_elem_of_further. }
    split; [by rewrite Hs|]. split.
    + rewrite times_selected_cons, Hn. simpl.
      by rewrite bool_decide_eq_true_2.
    + intros rt Hrt. rewrite times_selected_cons, (Ho rt Hrt). simpl.
      rewrite bool_decide_eq_false_2; [done|]. congruence.
Qed.

Lemma three_requests_healthy :
  forall w model t,
    (w, model) ∈ Scenarios.three_requests -> t ∈ tokens Scenarios.pool ->
    healthy w model Scenarios.pool t.
Proof.
  intros w model t Hc Ht.
  apply list_elem_of_In in Hc, Ht. simpl in Hc, Ht.
  destruct Hc as [[= <- <-]|[[= <- <-]|[[= <- <-]|[]]]];
    destruct Ht as [<-|[<-|[]]]; by vm_compute.
Qed.

(** C1, as stated, fails: on the pool [[A, B]] with both credentials
    healthy at each of three requests, [A] is returned three times and
    [B] never. *)
Lemma round_robin_counterexample :
  (forall w model t,
      (w, model) ∈ Scenarios.three_requests -> t ∈ tokens Scenarios.pool ->
      healthy w model Scenarios.pool t) /\
  selections Scenarios.three_requests Scenarios.pool
  = [Some Scenarios.credA; Some Scenarios.credA; Some Scenarios.credA] /\
  ~ fair (tokens Scenarios.pool)
         (selections Scenarios.three_requests Scenarios.pool).
Proof.
  split; [apply three_requests_healthy|]. split; [by vm_compute|].
  intros Hfair.
  specialize (Hfair Scenarios.credA Scenarios.credB).
  assert (times_selected (refresh_token Scenarios.credA)
            (selections Scenarios.three_requests Scenarios.pool) = 3%nat)
    as Ha by (by vm_compute).
  assert (times_selected (refresh_token Scenarios.credB)
            (selections Scenarios.three_requests Scenarios.pool) = 0%nat)
    as Hb by (by vm_compute).
  rewrite Ha, Hb in Hfair.
  assert (3 <= 0 + 1)%nat; [|lia].
  apply Hfair; simpl; set_solver.
Qed.

(** The pool of the example is one the theorem applies to. *)
Lemma getToken_sticky_witness :
  selections Scenarios.three_requests Scenarios.pool
  = (fun _ => Some Scenarios.credA) <$> Scenarios.three_requests /\
  times_selected (refresh_token Scenarios.credA)
                 (selections Scenarios.three_requests Scenarios.pool)
  = length Scenarios.three_requests /\
  (forall rt, rt <> refresh_token Scenarios.credA ->
              times_selected rt
                (selections Scenarios.three_requests Scenarios.pool) = 0%nat).
Proof.
  apply (getToken_sticky Scenarios.three_requests Scenarios.pool Scenarios.credA).
  - reflexivity.
  - intros w model Hin. apply three_requests_healthy; [done|].
    simpl. apply list_elem_of_here.
Defined.

End TokenManagerFacts.

(** ** The cooldown registry *)

Module ModelCooldownFacts.
Import ModelCooldown.

Lemma setCooldownInternal_expired now r p m ts reason save :
  ts <= now ->
  setCooldownInternal now r p m ts reason save
  = Registry (delete (buildKey p m) (cooldownMap r))
             (delete (buildKey p m) (timerMap r)) (saved r).
Proof.
  intros Hle. unfold setCooldownInternal.
  rewrite (proj2 (Z.ltb_ge 0 (ts - now))) by lia.
  by rewrite delete_insert_eq.
Qed.

Lemma setCooldownInternal_lookup now r p m ts reason save k :
  now < ts ->
  cooldownMap (setCooldownInternal now r p m ts reason save) !! k
  = if decide (buildKey p m = k) then Some (Info p m ts reason now)
    else cooldownMap r !! k.
Proof.
  intros Hlt. unfold setCooldownInternal.
  rewrite (proj2 (Z.ltb_lt 0 (ts - now))) by lia.
  destruct save; simpl; apply lookup_insert.
Qed.

Lemma setCooldownInternal_other now r p m ts reason save k :
  k <> buildKey p m ->
  cooldownMap (setCooldownInternal now r p m ts reason save) !! k
  = cooldownMap r !! k.
Proof.
  intros Hne. unfold setCooldownInternal.
  destruct (0 <? ts - now); [destruct save|]; simpl.
  - by rewrite lookup_insert_ne.
  - by rewrite lookup_insert_ne.
  - by rewrite lookup_delete_ne, lookup_insert_ne.
Qed.

Lemma isOnCooldown_absent now r p m :
  cooldownMap r !! buildKey p m = None -> isOnCooldown now r p m = (r, false).
Proof. intros H. unfold isOnCooldown. by rewrite H. Qed.

Lemma isOnCooldown_live now r p m i :
  cooldownMap r !! buildKey p m = Some i -> now < resetTimestamp i ->
  isOnCooldown now r p m = (r, true).
Proof.
  intros H Hlt. unfold isOnCooldown. rewrite H.
  by rewrite (proj2 (Z.leb_gt _ _)) by lia.
Qed.

(** A query leaves every live record in place. *)
Lemma isOnCooldown_keeps now r p m k i :
  cooldownMap r !! k = Some i -> now < resetTimestamp i ->
  cooldownMap (isOnCooldown now r p m).1 !! k = Some i.
Proof.
  intros H Hlt. unfold isOnCooldown.
  destruct (cooldownMap r !! buildKey p m) as [i'|] eqn:Hk; [|done].
  destruct (resetTimestamp i' <=? now) eqn:Hexp; [|done].
  simpl. rewrite lookup_delete_ne; [done|].
  intros <-. rewrite Hk in H. injection H as ->.
  apply Z.leb_le in Hexp. lia.
Qed.

(** C9.  [setCooldownInternal] called with a deadline that is not in the
    future leaves no record and no timer for the pair, whatever the
    registry held for it before, and [isOnCooldown] then answers false. *)
Theorem expired_deadline_cancels (now : Z) (r : registry) (p m : string)
        (ts : Z) (reason : string) (save : bool) :
  ts <= now ->
  cooldownMap (setCooldownInternal now r p m ts reason save) !! buildKey p m
  = None /\
  timerMap (setCooldownInternal now r p m ts reason save) !! buildKey p m
  = None /\
  forall later,
    (isOnCooldown later (setCooldownInternal now r p m ts reason save) p m).2
    = false.
Proof.
  intros Hle. rewrite setCooldownInternal_expired by done. simpl.
  split; [apply lookup_delete_eq|]. split; [apply lookup_delete_eq|].
  intros later. rewrite isOnCooldown_absent; [done|]. apply lookup_delete_eq.
Qed.

Lemma expired_deadline_cancels_witness :
  (isOnCooldown 100 Scenarios.live_registry "A" "gemini-2.5-pro").2 = true /\
  50 <= 100 /\
  cooldownMap (setCooldownInternal 100 Scenarios.live_registry "A" "gemini-2.5-pro" 50
                                   "RESOURCE_EXHAUSTED" true)
    !! buildKey "A" "gemini-2.5-pro" = None.
Proof.
  split; [by vm_compute|]. split; [lia|].
  apply (expired_deadline_cancels 100 Scenarios.live_registry "A" "gemini-2.5-pro" 50
                                  "RESOURCE_EXHAUSTED" true).
  lia.
Defined.

(** *** Records and timers written by [setCooldown] *)

Lemma group_member model g :
  getModelGroup model = Some g -> model ∈ getModelsInGroup g.
Proof.
  unfold getModelGroup, MODEL_GROUPS. simpl.
  repeat (case_bool_decide;
          [intros [= <-]; match goal with H : _ ∈ _ |- _ => exact H end|]).
  done.
Qed.

Lemma setCooldownInternal_timer now r p m ts reason save k :
  now < ts ->
  timerMap (setCooldownInternal now r p m ts reason save) !! k
  = if decide (buildKey p m = k)
    then Some (Timer (timeout_due now (ts - now)) p m)
    else timerMap r !! k.
Proof.
  intros Hlt. unfold setCooldownInternal.
  rewrite (proj2 (Z.ltb_lt 0 (ts - now))) by lia.
  destruct save; simpl; rewrite lookup_insert; case_decide; try done;
    by rewrite lookup_delete_ne.
Qed.

Lemma setCooldownInternal_timers_keyed now r p m ts reason save :
  timers_keyed r -> timers_keyed (setCooldownInternal now r p m ts reason save).
Proof.
  intros Hwf k t. destruct (Z.lt_ge_cases now ts) as [Hlt|Hge].
  - rewrite setCooldownInternal_timer by done.
    case_decide as Hk; [by intros [= <-]|apply Hwf].
  - rewrite setCooldownInternal_expired by done. simpl.
    rewrite lookup_delete. case_decide; [done|apply Hwf].
Qed.

(** A delay [setTimeout] takes as it is ends at the deadline. *)
Lemma timeout_due_near now ts :
  now < ts -> ts - now <= TIMEOUT_MAX -> timeout_due now (ts - now) = ts.
Proof.
  intros Hlt Hnear. unfold timeout_due.
  rewrite (proj2 (Z.ltb_ge _ _)) by done. lia.
Qed.

(** A longer one ends a millisecond after the call. *)
Lemma timeout_due_far now ts :
  TIMEOUT_MAX < ts - now -> timeout_due now (ts - now) = now + 1.
Proof.
  intros Hfar. unfold timeout_due. by rewrite (proj2 (Z.ltb_lt _ _)).
Qed.

Lemma setCooldownInternal_armed now r p m ts reason save :
  now < ts -> ts - now <= TIMEOUT_MAX ->
  armed (setCooldownInternal now r p m ts reason save) (buildKey p m) ts.
Proof.
  intros Hlt Hnear. split.
  - eexists. rewrite setCooldownInternal_lookup, decide_True by done. done.
  - eexists. rewrite setCooldownInternal_timer, decide_True by done.
    split; [done|]. by apply timeout_due_near.
Qed.

Lemma setCooldownInternal_keeps_armed now r p m ts reason save k :
  now < ts -> ts - now <= TIMEOUT_MAX -> armed r k ts ->
  armed (setCooldownInternal now r p m ts reason save) k ts.
Proof.
  intros Hlt Hnear Harmed. destruct (decide (buildKey p m = k)) as [<-|Hne].
  - by apply setCooldownInternal_armed.
  - destruct Harmed as [(i & Hi & Hts) (t & Ht & Hdue)].
    split.
    + exists i. by rewrite setCooldownInternal_lookup, decide_False.
    + exists t. by rewrite setCooldownInternal_timer, decide_False.
Qed.

Lemma cool_group_timers_keyed now r p models ts reason :
  timers_keyed r -> timers_keyed (cool_group now r p models ts reason).
Proof.
  unfold cool_group. revert r.
  induction models as [|x models IH]; intros r Hwf; simpl; [done|].
  by apply IH, setCooldownInternal_timers_keyed.
Qed.

Lemma cool_group_keeps_armed now r p models ts reason k :
  now < ts -> ts - now <= TIMEOUT_MAX -> armed r k ts ->
  armed (cool_group now r p models ts reason) k ts.
Proof.
  intros Hlt Hnear. unfold cool_group. revert r.
  induction models as [|x models IH]; intros r Harmed; simpl; [done|].
  by apply IH, setCooldownInternal_keeps_armed.
Qed.

Lemma cool_group_armed now r p models ts reason m :
  now < ts -> ts - now <= TIMEOUT_MAX -> m ∈ models ->
  armed (cool_group now r p models ts reason) (buildKey p m) ts.
Proof.
  intros Hlt Hnear. revert r.
  induction models as [|x models IH]; intros r Hin; [by apply elem_of_nil in Hin|].
  apply elem_of_cons in Hin as [->|Hin].
  - apply (cool_group_keeps_armed now _ p models), setCooldownInternal_armed;
      done.
  - by apply IH.
Qed.

Lemma saveToFile_armed r k ts : armed r k ts -> armed (saveToFile r) k ts.
Proof. done. Qed.

(** What [setCooldown] does, by cases. *)
Lemma setCooldown_cases now reply r p m ts reason has_token :
  setCooldown now reply r p m ts reason has_token
  = setCooldownInternal now r p m ts reason true \/
  exists g, getModelGroup m = Some g /\
            setCooldown now reply r p m ts reason has_token
            = saveToFile (cool_group now r p (getModelsInGroup g) ts reason).
Proof.
  unfold setCooldown.
  destruct (getModelGroup m) as [g|] eqn:Hg; [|by left].
  destruct has_token; [|by left].
  destruct reply as [q|]; [|by left].
  destruct (above_one_percent _); [by left|].
  right. by exists g.
Qed.

Lemma setCooldown_armed now reply r p m ts reason has_token :
  now < ts -> ts - now <= TIMEOUT_MAX ->
  armed (setCooldown now reply r p m ts reason has_token) (buildKey p m) ts.
Proof.
  intros Hlt Hnear.
  destruct (setCooldown_cases now reply r p m ts reason has_token)
    as [->|(g & Hg & ->)].
  - by apply setCooldownInternal_armed.
  - apply saveToFile_armed, cool_group_armed; [done|done|by apply group_member].
Qed.

Lemma setCooldown_timers_keyed now reply r p m ts reason has_token :
  timers_keyed r ->
  timers_keyed (setCooldown now reply r p m ts reason has_token).
Proof.
  intros Hwf.
  destruct (setCooldown_cases now reply r p m ts reason has_token)
    as [->|(g & Hg & ->)].
  - by apply setCooldownInternal_timers_keyed.
  - by apply (cool_group_timers_keyed now r p (getModelsInGroup g) ts reason).
Qed.

(** *** What queries, selections and timers leave in place *)

Lemma removeCooldown_timers_keyed r p m :
  timers_keyed r -> timers_keyed (removeCooldown r p m).
Proof.
  intros Hwf k t. simpl. rewrite lookup_delete.
  case_decide; [done|apply Hwf].
Qed.

Lemma removeCooldown_keeps_armed r p m k ts :
  k <> buildKey p m -> armed r k ts -> armed (removeCooldown r p m) k ts.
Proof.
  intros Hne [(i & Hi & Hts) (t & Ht & Hdue)]. split.
  - exists i. simpl. by rewrite lookup_delete_ne.
  - exists t. simpl. by rewrite lookup_delete_ne.
Qed.

Lemma isOnCooldown_timers_keyed now r p m :
  timers_keyed r -> timers_keyed (isOnCooldown now r p m).1.
Proof.
  intros Hwf. unfold isOnCooldown.
  destruct (cooldownMap r !! buildKey p m) as [i|]; [|done].
  destruct (resetTimestamp i <=? now); [|done].
  by apply removeCooldown_timers_keyed.
Qed.

Lemma isOnCooldown_keeps_armed now r p m k ts :
  now < ts -> armed r k ts -> armed (isOnCooldown now r p m).1 k ts.
Proof.
  intros Hlt Harmed. unfold isOnCooldown.
  destruct (cooldownMap r !! buildKey p m) as [i|] eqn:Hk; [|done].
  destruct (resetTimestamp i <=? now) eqn:Hexp; [|done].
  apply removeCooldown_keeps_armed; [|done].
  intros ->. destruct Harmed as [(i' & Hi' & Hts) _].
  rewrite Hk in Hi'. injection Hi' as ->.
  apply Z.leb_le in Hexp. lia.
Qed.

Lemma isOnCooldown_armed now r p m ts :
  now < ts -> armed r (buildKey p m) ts -> isOnCooldown now r p m = (r, true).
Proof.
  intros Hlt [(i & Hi & Hts) _]. apply (isOnCooldown_live now r p m i); [done|lia].
Qed.

(** [getAvailableTokenForModel] never returns a credential of a project
    whose pair with the model is armed with a later deadline, and leaves
    the pair armed. *)
Lemma available_from_armed w model exclude pending i r mgr k ts :
  TokenManager.now w < ts -> timers_keyed r -> armed r k ts ->
  timers_keyed (available_from w model exclude pending i r mgr).1.1 /\
  armed (available_from w model exclude pending i r mgr).1.1 k ts /\
  forall tok,
    (available_from w model exclude pending i r mgr).2 = Some tok ->
    buildKey (project_key (TokenManager.projectId tok)) model <> k.
Proof.
  intros Hlt. revert i r.
  induction pending as [|t rest IH]; intros i r Hwf Harmed; simpl; [done|].
  case_bool_decide; [by apply IH|].
  case_bool_decide; [by apply IH|].
  pose proof (isOnCooldown_timers_keyed
                (TokenManager.now w) r
                (project_key (TokenManager.projectId t)) model Hwf) as Hwf'.
  pose proof (isOnCooldown_keeps_armed
                (TokenManager.now w) r
                (project_key (TokenManager.projectId t)) model k ts Hlt Harmed)
    as Harmed'.
  destruct (isOnCooldown _ r _ model) as [r' cooling] eqn:Hq. simpl in *.
  destruct cooling; [by apply IH|].
  assert (buildKey (project_key (TokenManager.projectId t)) model <> k) as Hne.
  { intros <-. rewrite (isOnCooldown_armed _ r _ model ts Hlt Harmed) in Hq.
    done. }
  destruct (TokenManager.isExpired w t).
  - unfold TokenManager.refreshToken.
    destruct (TokenManager.refresh_reply w t); simpl; [|by apply IH].
    split; [done|]. split; [done|]. by intros tok [= <-].
  - simpl. split; [done|]. split; [done|]. by intros tok [= <-].
Qed.

Lemma setCooldownInternal_rearms now r p m ts2 reason save k ts1 :
  now < ts2 -> ts2 - now <= TIMEOUT_MAX -> armed r k ts1 ->
  armed (setCooldownInternal now r p m ts2 reason save) k ts1 \/
  armed (setCooldownInternal now r p m ts2 reason save) k ts2.
Proof.
  intros Hlt Hnear Harmed. destruct (decide (buildKey p m = k)) as [<-|Hne].
  - right. by apply setCooldownInternal_armed.
  - left. destruct Harmed as [(i & Hi & Hts) (t & Ht & Hdue)]. split.
    + exists i. by rewrite setCooldownInternal_lookup, decide_False.
    + exists t. by rewrite setCooldownInternal_timer, decide_False.
Qed.

Lemma cool_group_rearms now r p models ts2 reason k ts1 :
  now < ts2 -> ts2 - now <= TIMEOUT_MAX -> armed r k ts1 \/ armed r k ts2 ->
  armed (cool_group now r p models ts2 reason) k ts1 \/
  armed (cool_group now r p models ts2 reason) k ts2.
Proof.
  intros Hlt Hnear. unfold cool_group. revert r.
  induction models as [|x models IH]; intros r Harmed; simpl; [done|].
  apply IH. destruct Harmed as [Harmed|Harmed].
  - by apply setCooldownInternal_rearms.
  - right. by apply setCooldownInternal_keeps_armed.
Qed.

Lemma setCooldown_rearms now reply r p m ts2 reason has_token k ts1 :
  now < ts2 -> ts2 - now <= TIMEOUT_MAX -> armed r k ts1 ->
  armed (setCooldown now reply r p m ts2 reason has_token) k ts1 \/
  armed (setCooldown now reply r p m ts2 reason has_token) k ts2.
Proof.
  intros Hlt Hnear Harmed.
  destruct (setCooldown_cases now reply r p m ts2 reason has_token)
    as [->|(g & Hg & ->)].
  - by apply setCooldownInternal_rearms.
  - destruct (cool_group_rearms now r p (getModelsInGroup g) ts2 reason k ts1)
      as [H|H]; [done|done|by left|by left|by right].
Qed.

Lemma act_keeps_armed r a k ts :
  before ts a -> timers_keyed r -> armed_until r k ts ->
  timers_keyed (act r a) /\ armed_until (act r a) k ts.
Proof.
  intros [Hlt Hput] Hwf (ts' & Hts' & Harmed).
  destruct a as [now p m|w model exclude mgr|now reply p m ts2 reason tok|now key];
    simpl in *.
  - split; [by apply isOnCooldown_timers_keyed|].
    exists ts'. split; [done|]. apply isOnCooldown_keeps_armed; [lia|done].
  - destruct (available_from_armed
                w model exclude (TokenManager.tokens mgr) 0 r mgr k ts')
      as (? & ? & _); [lia|done|done|].
    split; [done|]. by exists ts'.
  - split; [by apply setCooldown_timers_keyed|].
    destruct Hput as [Hput Hnear].
    destruct (setCooldown_rearms now reply r p m ts2 reason tok k ts')
      as [H|H]; [lia|done|done| |].
    + by exists ts'.
    + by exists ts2.
  - destruct (timerMap r !! key) as [t|] eqn:Ht; [|split; [done|by exists ts']].
    destruct (dueAt t <=? now) eqn:Hdue; [|split; [done|by exists ts']].
    unfold fire. rewrite Ht.
    split; [by apply removeCooldown_timers_keyed|].
    exists ts'. split; [done|].
    apply removeCooldown_keeps_armed; [|done].
    rewrite (Hwf key t Ht). intros ->.
    destruct Harmed as [_ (t' & Ht' & Hdue')].
    rewrite Ht in Ht'. injection Ht' as ->.
    apply Z.leb_le in Hdue. lia.
Qed.

Lemma acts_keep_armed r between k ts :
  Forall (before ts) between ->
  timers_keyed r -> armed_until r k ts ->
  timers_keyed (foldl act r between) /\ armed_until (foldl act r between) k ts.
Proof.
  intros Hall. revert r.
  induction Hall as [|a between Ha _ IH]; intros r Hwf Harmed; simpl; [done|].
  destruct (act_keeps_armed r a k ts Ha Hwf Harmed). by apply IH.
Qed.


(** *** Cooldown and selection *)




(** A deadline further ahead than [setTimeout] can wait is not kept: the
    timer of the record is due a millisecond after the call, its callback
    removes the record, and the pair is off cooldown from then on. *)
Lemma far_deadline_forgotten :
  (isOnCooldown 2000000 Scenarios.far_put "A" "gemini-2.5-pro").2 = true /\
  dueAt <$> timerMap Scenarios.far_put !! buildKey "A" "gemini-2.5-pro"
  = Some 2000001 /\
  (isOnCooldown 2000002
     (act Scenarios.far_put (Due 2000001 (buildKey "A" "gemini-2.5-pro")))
     "A" "gemini-2.5-pro").2 = false.
Proof. by vm_compute. Qed.

(** *** Group-wide cooldown *)

Lemma above_one_percent_zero : above_one_percent JsNumber.zero = false.
Proof. reflexivity. Qed.

Lemma cooling_models_all now r p models :
  (forall m, m ∈ models -> (isOnCooldown now r p m).2 = true) ->
  cooling_models now r p models = models.
Proof.
  unfold cooling_models. induction models as [|x models IH]; intros H; [done|].
  simpl. rewrite (H x) by apply list_elem_of_here.
  f_equal. apply IH. intros m Hm. by apply H, list_elem_of_further.
Qed.

(** C5 (with the group as the table has it, and the average as the code
    computes it, in doubles).  When a credential is passed, the model
    belongs to group [g] and the quota query answers: when the average of
    the remaining fractions exceeds the double 0.01, [setCooldown] records
    the single pair and touches no other key; otherwise it records every
    model of the group with the same deadline, and with a deadline in the
    future and at most [TIMEOUT_MAX] milliseconds ahead each of them is
    then on cooldown with its timer due at the deadline.  The group of
    [gemini-2.5-pro] is [Gemini其他], which has seven models; with an
    average that does not exceed 0.01, as 0 does not, all seven are on
    cooldown for project [A] after the call. *)
Theorem setCooldown_group (now : Z) (q : gmap string (option spec_float))
        (r : registry) (p m g : string) (ts : Z) (reason : string) :
  getModelGroup m = Some g ->
  (above_one_percent (avgRemaining q (getModelsInGroup g)) = true ->
   setCooldown now (Some q) r p m ts reason true
   = setCooldownInternal now r p m ts reason true /\
   forall k, k <> buildKey p m ->
             cooldownMap (setCooldown now (Some q) r p m ts reason true) !! k
             = cooldownMap r !! k) /\
  (above_one_percent (avgRemaining q (getModelsInGroup g)) = false ->
   setCooldown now (Some q) r p m ts reason true
   = saveToFile (cool_group now r p (getModelsInGroup g) ts reason) /\
   (now < ts -> ts - now <= TIMEOUT_MAX ->
    forall m', m' ∈ getModelsInGroup g ->
               armed (setCooldown now (Some q) r p m ts reason true)
                     (buildKey p m') ts /\
               (isOnCooldown now (setCooldown now (Some q) r p m ts reason true)
                             p m').2 = true)) /\
  (getModelGroup "gemini-2.5-pro" = Some "Gemini其他" /\
   getModelsInGroup "Gemini其他"
   = ["gemini-3-pro-high"; "rev19-uic3-1p"; "gemini-2.5-flash";
      "gemini-3-pro-low"; "gemini-2.5-flash-thinking"; "gemini-2.5-pro";
      "gemini-2.5-flash-lite"] /\
   above_one_percent JsNumber.zero = false /\
   forall now0 r0 q0,
     above_one_percent (avgRemaining q0 (getModelsInGroup "Gemini其他")) = false ->
     cooling_models
       now0
       (setCooldown now0 (Some q0) r0 "A" "gemini-2.5-pro" (now0 + 60000)
                    "RESOURCE_EXHAUSTED" true)
       "A" (getModelsInGroup "Gemini其他")
     = getModelsInGroup "Gemini其他").
Proof.
  intros Hg.
  assert (forall now1 q1 r1 p1 m1 g1 ts1 reason1,
             getModelGroup m1 = Some g1 ->
             above_one_percent (avgRemaining q1 (getModelsInGroup g1)) = false ->
             now1 < ts1 -> ts1 - now1 <= TIMEOUT_MAX ->
             forall m', m' ∈ getModelsInGroup g1 ->
               armed (setCooldown now1 (Some q1) r1 p1 m1 ts1 reason1 true)
                     (buildKey p1 m') ts1 /\
               (isOnCooldown now1
                  (setCooldown now1 (Some q1) r1 p1 m1 ts1 reason1 true)
                  p1 m').2 = true) as Hgroup.
  { intros now1 q1 r1 p1 m1 g1 ts1 reason1 Hg1 Hlow Hlt Hnear m' Hm'.
    assert (armed (setCooldown now1 (Some q1) r1 p1 m1 ts1 reason1 true)
                  (buildKey p1 m') ts1) as Harmed.
    { unfold setCooldown. rewrite Hg1, Hlow.
      by apply saveToFile_armed, cool_group_armed. }
    split; [done|]. by rewrite (isOnCooldown_armed _ _ p1 m' ts1 Hlt Harmed). }
  split; [|split; [|split; [done|split; [done|split; [done|]]]]].
  - intros Hhigh. unfold setCooldown. rewrite Hg, Hhigh.
    split; [done|]. intros k Hk. by apply setCooldownInternal_other.
  - intros Hlow. split.
    + unfold setCooldown. by rewrite Hg, Hlow.
    + intros Hlt Hnear. by apply (Hgroup now q r p m g ts reason).
  - intros now0 r0 q0 Hlow. apply cooling_models_all. intros m' Hm'.
    apply (Hgroup now0 q0 r0 "A" "gemini-2.5-pro" "Gemini其他"
                  (now0 + 60000) "RESOURCE_EXHAUSTED");
      [done|done|lia|unfold TIMEOUT_MAX; lia|done].
Qed.

Lemma setCooldown_group_witness :
  getModelGroup "gemini-2.5-pro" = Some "Gemini其他" /\
  armed Scenarios.scenario_put (buildKey "A" "gemini-3-pro-low") 2060000.
Proof.
  split; [reflexivity|].
  destruct (setCooldown_group
              2000000 Scenarios.exhausted_quotas empty_registry
              "A" "gemini-2.5-pro" "Gemini其他" 2060000 "RESOURCE_EXHAUSTED")
    as (_ & Hlow & _); [reflexivity|].
  destruct Hlow as [_ Hall]; [by vm_compute|].
  apply Hall; [lia|unfold TIMEOUT_MAX; lia|]. vm_compute.
  repeat (apply list_elem_of_here || apply list_elem_of_further).
Defined.

(** C5, as stated, fails on the count: with the group exhausted, the
    average is 0 and the models on cooldown for [A] after the call are the
    seven of the group, not five. *)
Lemma five_models_counterexample :
  avgRemaining Scenarios.exhausted_quotas (getModelsInGroup "Gemini其他")
  = JsNumber.zero /\
  cooling_models 2000000 Scenarios.scenario_put "A"
                 (getModelsInGroup "Gemini其他")
  = ["gemini-3-pro-high"; "rev19-uic3-1p"; "gemini-2.5-flash";
     "gemini-3-pro-low"; "gemini-2.5-flash-thinking"; "gemini-2.5-pro";
     "gemini-2.5-flash-lite"] /\
  length (cooling_models 2000000 Scenarios.scenario_put "A"
                         (getModelsInGroup "Gemini其他")) <> 5%nat.
Proof.
  split; [by vm_compute|].
  assert (cooling_models 2000000 Scenarios.scenario_put "A"
                         (getModelsInGroup "Gemini其他")
          = getModelsInGroup "Gemini其他") as ->; [by vm_compute|].
  split; [done|]. simpl. lia.
Qed.

(** The average is the double the additions and the division round to: the
    fractions 0.008, 0.01, 0.01 and 0.012 of the group [Claude/GPT] average
    to the double next above 0.01, and only the pair is put on cooldown. *)
Lemma average_is_rounded :
  JsNumber.decimal 1 2 = S754_finite false 5764607523034235 (-59) /\
  avgRemaining Scenarios.one_percent_quotas (getModelsInGroup "Claude/GPT")
  = S754_finite false 5764607523034236 (-59) /\
  above_one_percent
    (avgRemaining Scenarios.one_percent_quotas (getModelsInGroup "Claude/GPT"))
  = true /\
  cooling_models
    2000000
    (setCooldown 2000000 (Some Scenarios.one_percent_quotas) empty_registry
                 "A" "claude-sonnet-4-5" 2060000 "RESOURCE_EXHAUSTED" true)
    "A" (getModelsInGroup "Claude/GPT")
  = ["claude-sonnet-4-5"].
Proof. by vm_compute. Qed.

End ModelCooldownFacts.

(** ** Tool schema cleaning *)

Module SchemaCleanerFacts.
Import Json SchemaCleaner SchemaShape.

Lemma cleanObject_obj root fields :
  cleanObject root (JObj fields)
  = JObj (prune_required
            (entries root (collectValidations fields).1
                     (collectValidations fields).2 fields)).
Proof.
  cbn [cleanObject]. f_equal. f_equal.
  generalize (collectValidations fields).1 (collectValidations fields).2.
  intros validations obj.
  induction fields as [|[key value] rest IH]; [done|].
  cbn [entries]. by rewrite IH.
Qed.

Lemma assoc_replace_key key value fields k :
  assoc k (replace_key key value fields)
  = if bool_decide (k = key) then (fun _ => value) <$> assoc key fields
    else assoc k fields.
Proof.
  unfold replace_key.
  induction fields as [|[k0 v0] rest IH]; [by case_bool_decide|].
  cbn [map assoc fst]. rewrite IH. clear IH.
  destruct (decide (k0 = key)) as [->|H0].
  - rewrite (bool_decide_eq_true_2 (key = key)) by done. cbn [assoc].
    destruct (decide (k = key)) as [->|H1].
    + by rewrite !(bool_decide_eq_true_2 (key = key)).
    + by rewrite !(bool_decide_eq_false_2 (key = k)),
                 (bool_decide_eq_false_2 (k = key)) by done.
  - rewrite (bool_decide_eq_false_2 (k0 = key)) by done. cbn [assoc].
    destruct (decide (k = key)) as [->|H1].
    + rewrite (bool_decide_eq_true_2 (key = key)) by done.
      by rewrite (bool_decide_eq_false_2 (k0 = key)) by done.
    + rewrite (bool_decide_eq_false_2 (k = key)) by done. done.
Qed.

Lemma assoc_remove_key key (fields : list (string * json)) :
  assoc key (remove_key key fields) = None.
Proof.
  unfold remove_key. induction fields as [|[k v] rest IH]; [done|].
  rewrite filter_cons. simpl. case_decide as Hk; [|done].
  simpl. by rewrite bool_decide_eq_false_2.
Qed.

Lemma prune_required_cases c :
  (exists required,
      assoc "required" c = Some (JArr required) /\
      ((pruned c required = [] /\ prune_required c = remove_key "required" c) \/
       (pruned c required <> [] /\
        prune_required c = replace_key "required" (JArr (pruned c required)) c))) \/
  ((forall required, assoc "required" c <> Some (JArr required)) /\
   prune_required c = c).
Proof.
  unfold prune_required, pruned.
  destruct (assoc "required" c) as [[| | | |required|]|] eqn:E;
    try (right; split; [congruence|done]).
  left. exists required. split; [done|].
  destruct (match assoc "properties" c with Some _ => _ | None => _ end);
    [by left|by right].
Qed.


(** *** Keys and deletions *)

Lemma has_key_cons key k (v : json) l :
  has_key key ((k, v) :: l) = bool_decide (k = key) || has_key key l.
Proof.
  unfold has_key. cbn [fmap list_fmap fst].
  destruct (decide (k = key)) as [->|Hk].
  - rewrite (bool_decide_eq_true_2 (key = key)) by done.
    apply bool_decide_eq_true_2, list_elem_of_here.
  - rewrite (bool_decide_eq_false_2 (k = key)) by done. cbn [orb].
    apply bool_decide_ext. rewrite elem_of_cons.
      intuition congruence.
Qed.

Lemma remove_key_cons key k (v : json) l :
  remove_key key ((k, v) :: l)
  = if bool_decide (k = key) then remove_key key l
    else (k, v) :: remove_key key l.
Proof.
  unfold remove_key. rewrite filter_cons. cbn [fst].
  case_decide; case_bool_decide; done.
Qed.

Lemma has_key_remove_key key key' (l : list (string * json)) :
  has_key key (remove_key key' l)
  = has_key key l && negb (bool_decide (key = key')).
Proof.
  induction l as [|[k v] l IH].
  - unfold remove_key, has_key. rewrite filter_nil. cbn.
    by rewrite (bool_decide_eq_false_2 (key ∈ [])) by apply not_elem_of_nil.
  - rewrite remove_key_cons, has_key_cons.
    destruct (decide (k = key')) as [->|Hk'].
    + rewrite (bool_decide_eq_true_2 (key' = key')) by done. rewrite IH.
      destruct (decide (key' = key)) as [->|Hk].
      * rewrite !(bool_decide_eq_true_2 (key = key)) by done.
        cbn. by rewrite andb_false_r.
      * by rewrite (bool_decide_eq_false_2 (key' = key)) by done.
    + rewrite (bool_decide_eq_false_2 (k = key')) by done.
      rewrite has_key_cons, IH.
      destruct (decide (k = key)) as [->|Hk].
      * rewrite (bool_decide_eq_true_2 (key = key)) by done.
        by rewrite (bool_decide_eq_false_2 (key = key')) by done.
      * by rewrite (bool_decide_eq_false_2 (k = key)) by done.
Qed.

Lemma assoc_remove_other key key' (l : list (string * json)) :
  key <> key' -> assoc key (remove_key key' l) = assoc key l.
Proof.
  intros Hne. induction l as [|[k v] l IH].
  - unfold remove_key. by rewrite filter_nil.
  - rewrite remove_key_cons. cbn [assoc].
    destruct (decide (k = key')) as [->|Hk'].
    + rewrite (bool_decide_eq_true_2 (key' = key')) by done.
      by rewrite (bool_decide_eq_false_2 (key' = key)) by done.
    + rewrite (bool_decide_eq_false_2 (k = key')) by done. cbn [assoc].
      by rewrite IH.
Qed.

Lemma remove_key_absent key (l : list (string * json)) :
  has_key key l = false -> remove_key key l = l.
Proof.
  induction l as [|[k v] l IH]; intros H.
  - unfold remove_key. by rewrite filter_nil.
  - rewrite has_key_cons in H. apply orb_false_iff in H as [Hk Hl].
    rewrite remove_key_cons, Hk. by rewrite IH.
Qed.

Lemma assoc_absent key (l : list (string * json)) :
  has_key key l = false -> assoc key l = None.
Proof.
  induction l as [|[k v] l IH]; intros H; [done|].
  rewrite has_key_cons in H. apply orb_false_iff in H as [Hk Hl].
  cbn [assoc]. rewrite Hk. by apply IH.
Qed.

Lemma assoc_present key (l : list (string * json)) value :
  assoc key l = Some value -> has_key key l = true.
Proof.
  intros H. destruct (has_key key l) eqn:E; [done|].
  by rewrite (assoc_absent key l E) in H.
Qed.

Lemma has_key_removed key keys (l : list (string * json)) :
  has_key key (foldl (fun acc k => remove_key k acc) l keys)
  = has_key key l && negb (bool_decide (key ∈ keys)).
Proof.
  revert l. induction keys as [|k keys IH]; intros l; cbn [foldl].
  - rewrite (bool_decide_eq_false_2 (key ∈ [])) by apply not_elem_of_nil.
    by rewrite andb_true_r.
  - rewrite IH, has_key_remove_key, <- andb_assoc. f_equal.
    destruct (decide (key = k)) as [->|Hk].
    + rewrite (bool_decide_eq_true_2 (k = k)) by done.
      symmetry. apply negb_false_iff, bool_decide_eq_true_2, list_elem_of_here.
    + rewrite (bool_decide_eq_false_2 (key = k)) by done. cbn [negb andb].
      f_equal. apply bool_decide_ext. rewrite elem_of_cons.
      intuition congruence.
Qed.

Lemma assoc_removed key keys (l : list (string * json)) :
  key ∉ keys ->
  assoc key (foldl (fun acc k => remove_key k acc) l keys) = assoc key l.
Proof.
  revert l. induction keys as [|k keys IH]; intros l Hk; [done|].
  cbn [foldl]. apply not_elem_of_cons in Hk as [Hne Hk].
  rewrite IH by done. by apply assoc_remove_other.
Qed.

(** *** What [collectValidations] collects and leaves *)

Lemma facets_collected (table : list (string * string)) :
  NoDup table.*1 ->
  forall notes obj,
    foldl (fun (acc : list string * list (string * json)) fv =>
             if has_key fv.1 acc.2
             then (acc.1 ++ [fv.1 +:+ ": " +:+ fv.2], remove_key fv.1 acc.2)
             else acc)
          (notes, obj) table
    = (notes ++ ((fun fv => fv.1 +:+ ": " +:+ fv.2)
                   <$> List.filter (fun fv => has_key fv.1 obj) table),
       foldl (fun acc k => remove_key k acc) obj table.*1).
Proof.
  induction table as [|fv table IH]; intros Hnd notes obj.
  - cbn. by rewrite app_nil_r.
  - rewrite fmap_cons in Hnd. apply NoDup_cons in Hnd as [Hfv Hnd].
    cbn [foldl fmap list_fmap List.filter fst snd].
    assert (List.filter (fun x => has_key x.1 (remove_key fv.1 obj)) table
            = List.filter (fun x => has_key x.1 obj) table) as Hsame.
    { apply filter_ext_in. intros x Hx. rewrite has_key_remove_key.
      rewrite (bool_decide_eq_false_2 (x.1 = fv.1)); [by rewrite andb_true_r|].
      intros Heq. apply Hfv. rewrite <- Heq.
      apply list_elem_of_fmap. exists x. split; [done|].
      by apply list_elem_of_In. }
    destruct (has_key fv.1 obj) eqn:E.
    + rewrite IH by done. cbn [fst snd]. rewrite Hsame.
      cbn [fmap list_fmap]. by rewrite <- app_assoc.
    + rewrite IH by done. cbn [fst snd].
      by rewrite (remove_key_absent fv.1 obj E).
Qed.

Lemma removals_collected (fields : list string) :
  NoDup fields ->
  forall notes obj,
    foldl (fun (acc : list string * list (string * json)) field =>
             if has_key field acc.2 then
               let notes :=
                 match bool_decide (field = "additionalProperties"),
                       assoc field acc.2 with
                 | true, Some (JBool false) =>
                     acc.1 ++ ["no additional properties"]
                 | _, _ => acc.1
                 end in
               (notes, remove_key field acc.2)
             else acc)
          (notes, obj) fields
    = (notes ++ (if bool_decide ("additionalProperties" ∈ fields)
                 then match assoc "additionalProperties" obj with
                      | Some (JBool false) => ["no additional properties"]
                      | _ => []
                      end
                 else []),
       foldl (fun acc k => remove_key k acc) obj fields).
Proof.
  induction fields as [|field fields IH]; intros Hnd notes obj.
  - cbn. by rewrite app_nil_r.
  - apply NoDup_cons in Hnd as [Hfield Hnd]. cbn [foldl fst snd].
    destruct (decide (field = "additionalProperties")) as [->|Hne].
    + rewrite (bool_decide_eq_true_2
                 ("additionalProperties" ∈ "additionalProperties" :: fields))
        by apply list_elem_of_here.
      rewrite (bool_decide_eq_true_2
                 ("additionalProperties" = "additionalProperties")) by done.
      destruct (has_key "additionalProperties" obj) eqn:E.
      * rewrite IH by done.
        rewrite (bool_decide_eq_false_2 ("additionalProperties" ∈ fields))
          by done.
        rewrite app_nil_r. f_equal.
        destruct (assoc "additionalProperties" obj) as [[|[|]| | | |]|];
          by rewrite ?app_nil_r.
      * rewrite IH by done.
        rewrite (bool_decide_eq_false_2 ("additionalProperties" ∈ fields))
          by done.
        rewrite (assoc_absent _ _ E), (remove_key_absent _ _ E). done.
    + rewrite (bool_decide_eq_false_2 (field = "additionalProperties"))
        by done.
      assert (bool_decide ("additionalProperties" ∈ field :: fields)
              = bool_decide ("additionalProperties" ∈ fields)) as ->.
      { apply bool_decide_ext. rewrite elem_of_cons.
      intuition congruence. }
      destruct (has_key field obj) eqn:E.
      * rewrite IH by done. cbn [fst snd].
        by rewrite assoc_remove_other by done.
      * rewrite IH by done. by rewrite (remove_key_absent _ _ E).
Qed.

Lemma collectValidations_spec fields :
  (collectValidations fields).1 = stripped_notes fields /\
  forall key,
    has_key key (collectValidations fields).2
    = has_key key fields
      && negb (bool_decide (key ∈ validationFields.*1))
      && negb (bool_decide (key ∈ fieldsToRemove)).
Proof.
  unfold collectValidations.
  rewrite (facets_collected validationFields); [|by apply (bool_decide_unpack _)].
  rewrite (removals_collected fieldsToRemove); [|by apply (bool_decide_unpack _)].
  cbn [fst snd]. split.
  - unfold stripped_notes. rewrite app_nil_l. f_equal.
    rewrite (bool_decide_eq_true_2 ("additionalProperties" ∈ fieldsToRemove))
      by (by apply (bool_decide_unpack _)).
    rewrite assoc_removed; [done|]. by apply (bool_decide_unpack _).
  - intros key. by rewrite !has_key_removed.
Qed.

(** *** What the loop of [cleanObject] leaves under a key *)

Lemma assoc_entries root validations obj l key :
  assoc key (entries root validations obj l)
  = if has_key key obj && negb (removed_key key) then
      (fun value =>
         if bool_decide (key = "description")
            && negb (bool_decide (validations = [])) && root
         then JStr (annotate value validations)
         else cleanObject false value) <$> assoc key l
    else None.
Proof.
  induction l as [|[k v] l IH].
  - cbn. by destruct (has_key key obj && negb (removed_key key)).
  - cbn [entries assoc].
    destruct (decide (k = key)) as [->|Hk].
    + rewrite (bool_decide_eq_true_2 (key = key)) by done.
      unfold removed_key in *.
      destruct (has_key key obj); cbn [negb andb]; [|by rewrite IH].
      destruct (bool_decide (key ∈ fieldsToRemove)); cbn [orb negb];
        [by rewrite IH|].
      destruct (in_validationFields key); cbn [negb]; [by rewrite IH|].
      destruct (bool_decide (key = "description")
                && negb (bool_decide (validations = [])) && root);
        cbn [assoc]; by rewrite (bool_decide_eq_true_2 (key = key)).
    + rewrite (bool_decide_eq_false_2 (k = key)) by done.
      destruct (negb (has_key k obj)); [done|].
      destruct (bool_decide (k ∈ fieldsToRemove)); [done|].
      destruct (in_validationFields k); [done|].
      destruct (bool_decide (k = "description")
                && negb (bool_decide (validations = [])) && root);
        cbn [assoc]; by rewrite (bool_decide_eq_false_2 (k = key)).
Qed.

Lemma assoc_prune_required key c :
  key <> "required" -> assoc key (prune_required c) = assoc key c.
Proof.
  intros Hne.
  destruct (prune_required_cases c)
    as [(required & Hreq & [[Hnil ->] | [Hnn ->]]) | [Hno ->]]; [| |done].
  - by apply assoc_remove_other.
  - rewrite assoc_replace_key.
    by rewrite (bool_decide_eq_false_2 (key = "required")).
Qed.

(** What [cleanObject] leaves under a key other than [required]. *)
Lemma get_cleanObject root fields key :
  key <> "required" ->
  get key (cleanObject root (JObj fields))
  = if removed_key key then None
    else (fun value =>
            if bool_decide (key = "description")
               && negb (bool_decide (stripped_notes fields = [])) && root
            then JStr (annotate value (stripped_notes fields))
            else cleanObject false value) <$> assoc key fields.
Proof.
  intros Hne. rewrite cleanObject_obj. cbn [get].
  rewrite assoc_prune_required by done. rewrite assoc_entries.
  destruct (collectValidations_spec fields) as [-> Hkeys]. rewrite Hkeys.
  destruct (removed_key key) eqn:Hr; cbn [negb]; [by rewrite andb_false_r|].
  rewrite andb_true_r.
  destruct (assoc key fields) as [value|] eqn:Ha.
  - rewrite (assoc_present key fields value Ha).
    unfold removed_key, in_validationFields in Hr.
    apply orb_false_iff in Hr as [Hr1 Hr2].
    apply orb_false_iff in Hr2 as [Hr2 _].
    by rewrite Hr1, Hr2.
  - by destruct (has_key key fields && _ && _).
Qed.

(** C4 (as the cleaner behaves).  The schema of the scenario is cleaned to
    [{type, properties: {x: {type}}, required: ["x"]}]: the facets are
    removed at every level and [required] is cut down to the keys of
    [properties], and no [description] is created.  In general, of an
    object cleaned at the root (the schema itself, or an item of a schema
    that is an array) the [description] is rewritten only when the object
    has one and has notes of its own, the notes being those of the
    specification for the keys of that object; an object without a
    [description] gets none; under every other key that is kept, except
    [required], stands the value cleaned as a nested one, whose
    [description] is never rewritten; and the items of an array are
    cleaned as the array is. *)
Theorem scenario_schema_cleaned :
  cleanJsonSchema scenario_schema
  = JObj [ ("type", JStr "object");
           ("properties", JObj [("x", JObj [("type", JStr "string")])]);
           ("required", JArr [JStr "x"]) ] /\
  cleanJsonSchema described_schema
  = JObj [ ("description",
            JStr "d (minLength: minLength, no additional properties)");
           ("x", JObj [("description", JStr "e")]) ] /\
  (forall fields,
      cleanJsonSchema (JObj fields) = cleanObject true (JObj fields) /\
      (collectValidations fields).1 = stripped_notes fields) /\
  (forall (root : bool) fields,
      get "description" (cleanObject root (JObj fields))
      = (fun value =>
           if root && negb (bool_decide (stripped_notes fields = []))
           then JStr (annotate value (stripped_notes fields))
           else cleanObject false value) <$> assoc "description" fields) /\
  (forall (root : bool) fields key,
      key <> "description" -> key <> "required" ->
      get key (cleanObject root (JObj fields))
      = if removed_key key then None
        else cleanObject false <$> assoc key fields) /\
  (forall (root : bool) items,
      cleanObject root (JArr items) = JArr (map (cleanObject root) items)) /\
  (forall items,
      cleanJsonSchema (JArr items) = JArr (map (cleanObject true) items)).
Proof.
  split_and!; try reflexivity.
  - intros fields. split; [done|]. apply collectValidations_spec.
  - intros root fields. rewrite get_cleanObject by done.
    cbn [removed_key]. change (removed_key "description") with false.
    cbn match. destruct (assoc "description" fields) as [value|]; [|done].
    cbn [fmap option_fmap option_map].
    rewrite (bool_decide_eq_true_2 ("description" = "description")) by done.
    cbn [andb]. by rewrite andb_comm.
  - intros root fields key Hd Hr. rewrite get_cleanObject by done.
    destruct (removed_key key); [done|].
    by rewrite (bool_decide_eq_false_2 (key = "description")).
Qed.

Lemma scenario_schema_cleaned_witness :
  get "properties" (cleanObject true scenario_schema)
  = Some (JObj [("x", JObj [("type", JStr "string")])]).
Proof.
  destruct scenario_schema_cleaned as (_ & _ & _ & _ & Hkey & _).
  unfold scenario_schema. by rewrite Hkey.
Defined.

(** C4, as stated, fails: the cleaned schema of the scenario has no
    [description]. *)
Lemma scenario_schema_counterexample :
  get "description" (cleanJsonSchema scenario_schema) = None /\
  cleanJsonSchema scenario_schema
  <> JObj [ ("type", JStr "object");
            ("properties", JObj [("x", JObj [("type", JStr "string")])]);
            ("required", JArr [JStr "x"]);
            ("description",
             JStr "(minLength: minLength, no additional properties)") ].
Proof.
  split; [reflexivity|].
  intros H. vm_compute in H. discriminate H.
Qed.

End SchemaCleanerFacts.

(** ** The token estimator *)

Module EstimatorFacts.
Import Json Translator Estimator.

Lemma quarter_ceiling (n : Z) :
  Qceiling (n # 4) = Qceiling (inject_Z n / 4).
Proof. apply Qceiling_comp. exact (Qmake_Qdiv n 4). Qed.

(** C8 (with the guard of the estimator).  For every non-empty text the
    estimate is [max(1, ceil(length/4))]; for the empty text it is 0; and
    whenever [countClaudeTokens] returns, which it does exactly when
    [messages] is an array, [token_count] and [tokens] equal
    [input_tokens]. *)
Theorem estimate_formula (JSON_stringify : json -> string) (text : string) :
  text <> "" ->
  estimateTokensFromText JSON_stringify (JStr text) = estimate_spec text /\
  estimateTokensFromText JSON_stringify (JStr "") = 0 /\
  forall req,
    match countClaudeTokens JSON_stringify req with
    | Some c =>
        messages req <> None /\
        token_count c = input_tokens c /\ tokens c = input_tokens c
    | None => messages req = None
    end.
Proof.
  intros Hne. split; [|split; [done|]].
  - unfold estimateTokensFromText, estimate_spec.
    destruct text; [done|]. simpl truthy. simpl negb. cbv iota.
    by rewrite quarter_ceiling.
  - intros req. unfold countClaudeTokens.
    by destruct (messages req).
Qed.

Lemma estimate_formula_witness :
  "hello" <> "" /\
  estimateTokensFromText Json.stringify (JStr "hello") = estimate_spec "hello".
Proof.
  split; [done|].
  by apply (estimate_formula Json.stringify "hello").
Defined.

(** C8, as stated, fails on the empty text: the estimator returns 0 where
    the formula gives 1. *)
Lemma empty_text_counterexample :
  estimateTokensFromText Json.stringify (JStr "") = 0 /\
  estimate_spec "" = 1 /\
  estimateTokensFromText Json.stringify (JStr "") <> estimate_spec "".
Proof. split; [done|]. split; [done|]. by vm_compute. Qed.

End EstimatorFacts.

(** ** The request translator *)

Module TranslatorFacts.
Import Json Translator.

(** *** Thinking configuration *)

(** C3 (with the list [generateGenerationConfig] tests).  The flag is true
    exactly when thinking is not forced off and the model name ends in
    [-thinking], is [gemini-2.5-pro], [rev19-uic3-1p] or
    [gpt-oss-120b-medium], or starts with [gemini-3-pro-]; the emitted
    [thinkingConfig] is [{true, 1024}] when it is true and [{false, 0}]
    otherwise.  A name that contains [claude] without ending in
    [-thinking], such as [claude-sonnet-4-5], gets [{false, 0}]. *)
Theorem thinkingConfig_enablement (cfg : config) (req : claudeRequest)
        (modelName : string) (forceDisableThinking : bool) :
  thinkingConfig_of
    (generateGenerationConfig cfg req modelName forceDisableThinking)
  = (if enableThinking modelName forceDisableThinking
     then ThinkingConfig true 1024 else ThinkingConfig false 0) /\
  (enableThinking modelName forceDisableThinking = true <->
   forceDisableThinking = false /\
   (JsString.endsWith modelName "-thinking" = true \/
    modelName = "gemini-2.5-pro" \/
    JsString.startsWith modelName "gemini-3-pro-" = true \/
    modelName = "rev19-uic3-1p" \/
    modelName = "gpt-oss-120b-medium")) /\
  (JsString.includes "claude-sonnet-4-5" "claude" = true /\
   JsString.endsWith "claude-sonnet-4-5" "-thinking" = false /\
   thinkingConfig_of
     (generateGenerationConfig cfg req "claude-sonnet-4-5" false)
   = ThinkingConfig false 0).
Proof.
  split; [|split; [|done]].
  - unfold generateGenerationConfig. simpl.
    by destruct (enableThinking modelName forceDisableThinking).
  - unfold enableThinking.
    rewrite andb_true_iff, negb_true_iff, !orb_true_iff, !bool_decide_eq_true.
    tauto.
Qed.

(** C3, as stated, fails for [claude-sonnet-4-5]: a request with a single
    user message forces nothing off, the name contains [claude], and the
    emitted [thinkingConfig] is [{false, 0}]. *)
Lemma claude_thinking_counterexample :
  JsString.includes "claude-sonnet-4-5" "claude" = true /\
  (convertClaudeMessagesToGeminiContents
     Json.stringify [Message "user" (CString "hi")] "claude-sonnet-4-5").2
  = false /\
  (fun g => thinkingConfig_of (generationConfig_of (request_of g)))
    <$> convertClaudeToGeminiRequest
          Json.stringify Scenarios.config "request-1"
          Scenarios.claude_request Scenarios.credA
  = Some (ThinkingConfig false 0) /\
  ThinkingConfig false 0 <> ThinkingConfig true 1024.
Proof. repeat split; try by vm_compute. Qed.

(** *** Placement of the thought signature *)

Lemma sign_first_Some test sg l l' :
  sign_first test sg l = Some l' ->
  exists pre p post,
    l = pre ++ p :: post /\ l' = pre ++ sign sg p :: post /\
    test p = true /\ none_of test pre.
Proof.
  revert l'. induction l as [|a l IH]; intros l'; simpl; [done|].
  destruct (test a) eqn:Ha.
  - intros [= <-]. exists [], a, l. repeat split; try done. constructor.
  - destruct (sign_first test sg l) as [l0|]; simpl; [|done].
    intros [= <-].
    destruct (IH l0 eq_refl) as (pre & p & post & -> & -> & Hp & Hpre).
    exists (a :: pre), p, post. repeat split; try done. by constructor.
Qed.

Lemma sign_first_None test sg l :
  sign_first test sg l = None -> none_of test l.
Proof.
  induction l as [|a l IH]; simpl; [constructor|].
  destruct (test a) eqn:Ha; [done|].
  destruct (sign_first test sg l); simpl; [done|].
  intros _. constructor; [done|by apply IH].
Qed.

Lemma none_of_rev test l : none_of test l -> none_of test (rev l).
Proof. apply List.Forall_rev. Qed.

Lemma sign_last_Some test sg l l' :
  sign_last test sg l = Some l' ->
  exists pre p post,
    l = pre ++ p :: post /\ l' = pre ++ sign sg p :: post /\
    test p = true /\ none_of test post.
Proof.
  unfold sign_last.
  destruct (sign_first test sg (rev l)) as [l0|] eqn:H0; simpl; [|done].
  intros [= <-].
  apply sign_first_Some in H0 as (pre & p & post & Hl & -> & Hp & Hpre).
  exists (rev post), p, (rev pre). repeat split; try done.
  - rewrite <- (rev_involutive l), Hl, rev_app_distr. simpl.
    by rewrite <- app_assoc.
  - rewrite rev_app_distr. simpl. by rewrite <- app_assoc.
  - by apply none_of_rev.
Qed.

Lemma sign_last_None test sg l :
  sign_last test sg l = None -> none_of test l.
Proof.
  unfold sign_last.
  destruct (sign_first test sg (rev l)) as [l0|] eqn:H0; simpl; [done|].
  intros _. rewrite <- (rev_involutive l).
  by apply none_of_rev, (sign_first_None test sg).
Qed.

Lemma none_signable l :
  none_of is_call l -> none_of is_plain_text l -> none_of is_thought l ->
  existsb signable l = false.
Proof.
  induction l as [|a l IH]; [done|].
  intros Hc Ht Hh. inversion Hc; inversion Ht; inversion Hh; subst.
  simpl. unfold signable at 1.
  rewrite IH by done. by repeat match goal with H : _ = false |- _ => rewrite H end.
Qed.

(** [applySignatureToParts] signs one part, by priority, when some part
    can be signed, and otherwise changes nothing. *)
Lemma applySignatureToParts_placed l sg :
  (existsb signable l = true -> placed_by_priority l (applySignatureToParts l sg) sg)
  /\ (existsb signable l = false -> applySignatureToParts l sg = l).
Proof.
  unfold applySignatureToParts.
  destruct (sign_first is_call sg l) as [l1|] eqn:H1.
  { apply sign_first_Some in H1 as (pre & p & post & -> & -> & Hp & Hpre).
    split.
    - intros _. exists pre, p, post. repeat split; try done. by left.
    - rewrite existsb_app. simpl. unfold signable at 2. rewrite Hp. simpl.
      by rewrite orb_true_r. }
  apply sign_first_None in H1.
  destruct (sign_last is_plain_text sg l) as [l2|] eqn:H2.
  { apply sign_last_Some in H2 as (pre & p & post & -> & -> & Hp & Hpost).
    split.
    - intros _. exists pre, p, post. repeat split; try done. right. by left.
    - rewrite existsb_app. simpl. unfold signable at 2. rewrite Hp. simpl.
      by rewrite !orb_true_r. }
  apply sign_last_None in H2.
  destruct (sign_last is_thought sg l) as [l3|] eqn:H3.
  { apply sign_last_Some in H3 as (pre & p & post & -> & -> & Hp & Hpost).
    split.
    - intros _. exists pre, p, post. repeat split; try done. right. by right.
    - rewrite existsb_app. simpl. unfold signable at 2. rewrite Hp. simpl.
      by rewrite !orb_true_r. }
  apply sign_last_None in H3.
  split; [|done]. by rewrite none_signable.
Qed.

Lemma signed_count_app l1 l2 :
  signed_count (l1 ++ l2) = (signed_count l1 + signed_count l2)%nat.
Proof. unfold signed_count. by rewrite List.filter_app, length_app. Qed.

Lemma signed_count_cons p l :
  signed_count (p :: l)
  = ((if carries_signature p then 1 else 0) + signed_count l)%nat.
Proof. unfold signed_count. simpl. by destruct (carries_signature p). Qed.

Lemma signed_count_plain l :
  Forall (fun p => thoughtSignature p = None) l -> signed_count l = 0%nat.
Proof.
  induction 1 as [|p l Hp _ IH]; [done|].
  rewrite signed_count_cons, IH. unfold carries_signature. by rewrite Hp.
Qed.

Lemma signed_count_reorder test l :
  signed_count (List.filter test l ++ List.filter (fun p => negb (test p)) l)
  = signed_count l.
Proof.
  rewrite signed_count_app.
  induction l as [|a l IH]; [done|].
  simpl. rewrite (signed_count_cons a l).
  destruct (test a); simpl; rewrite signed_count_cons; lia.
Qed.

Lemma block_parts_plain stringify b :
  Forall (fun p => thoughtSignature p = None) (block_parts stringify b).
Proof.
  destruct b as [t|src|t sg| |id name input|id c err|ty|]; simpl;
    try destruct src; try destruct (JsString.truthy t);
    repeat constructor.
Qed.

Lemma built_plain stringify blocks :
  Forall (fun p => thoughtSignature p = None)
         (concat (map (block_parts stringify) blocks)).
Proof.
  apply Forall_concat, Forall_forall. intros l Hl.
  apply list_elem_of_In, in_map_iff in Hl as (b & <- & _).
  apply block_parts_plain.
Qed.

Lemma placed_count built produced sg :
  Forall (fun p => thoughtSignature p = None) built ->
  placed_by_priority built produced sg -> signed_count produced = 1%nat.
Proof.
  intros Hplain (pre & p & post & -> & -> & _).
  apply Forall_app in Hplain as [Hpre Hpost].
  inversion Hpost; subst.
  rewrite signed_count_app, signed_count_cons.
  by rewrite !signed_count_plain.
Qed.

Lemma strip_signatures_plain cs :
  Forall (fun c => signed_count (parts c) = 0%nat) (strip_signatures cs).
Proof.
  unfold strip_signatures. apply Forall_forall. intros c Hc.
  apply list_elem_of_In, in_map_iff in Hc as (c0 & <- & _). simpl.
  apply signed_count_plain, Forall_forall. intros p Hp.
  by apply list_elem_of_In, in_map_iff in Hp as (p0 & <- & _).
Qed.

(** The contents of a turn sent alone: one [model] content holding the
    parts built for the turn, with the thoughts possibly moved to the
    front. *)
Lemma single_turn_contents stringify modelName blocks :
  exists ps',
    (convertClaudeMessagesToGeminiContents
       stringify [Message "assistant" (CBlocks blocks)] modelName).1
    = [GContent RoleModel ps'] /\
    signed_count ps'
    = signed_count (convertClaudeContentToGeminiParts stringify (CBlocks blocks)).
Proof.
  unfold convertClaudeMessagesToGeminiContents.
  change (foldl (add_message stringify) []
                [Message "assistant" (CBlocks blocks)])
    with [GContent RoleModel
                   (convertClaudeContentToGeminiParts stringify (CBlocks blocks))].
  generalize (convertClaudeContentToGeminiParts stringify (CBlocks blocks)).
  intros ps.
  destruct (history_enableThinking modelName); [|by exists ps].
  destruct (unsigned_thinking _); [by exists ps|].
  simpl. destruct ps as [|first rest]; [by exists []|].
  destruct (negb (existsb is_thought (first :: rest)));
    [by exists (first :: rest)|].
  destruct (negb (is_thought first)); [|by exists (first :: rest)].
  eexists. split; [reflexivity|].
  apply (signed_count_reorder is_thought (first :: rest)).
Qed.

Lemma turn_parts_count stringify modelName blocks :
  signed_count (turn_parts stringify modelName blocks)
  = if JsString.includes modelName "claude" then 0%nat
    else signed_count (convertClaudeContentToGeminiParts stringify (CBlocks blocks)).
Proof.
  unfold turn_parts.
  destruct (single_turn_contents stringify modelName blocks)
    as (ps' & Hcs & Hcount).
  destruct (convertClaudeMessagesToGeminiContents _ _ _) as [cs off].
  simpl in Hcs. subst cs.
  destruct (JsString.includes modelName "claude"); simpl; rewrite app_nil_r.
  - apply signed_count_plain, Forall_forall. intros p Hp.
    by apply list_elem_of_In, in_map_iff in Hp as (p0 & <- & _).
  - done.
Qed.

(** C6 (as the translator behaves).  For an assistant turn whose first
    non-empty thinking signature is [S]: when the parts built for the turn
    hold a [functionCall], a non-thought text or a thought, [S] is put on
    exactly one of them, the first [functionCall] part, else the last
    non-thought text part, else the last thought part; when they hold none
    of these, no part carries a signature.  For a Claude target no part of
    the request carries a signature.  For any other target, of the
    reasoning family or not, the signed part is kept. *)
Theorem signature_placement (JSON_stringify : json -> string)
        (blocks : list block) :
  first_signature blocks <> "" ->
  (existsb signable (concat (map (block_parts JSON_stringify) blocks)) = true ->
   placed_by_priority
     (concat (map (block_parts JSON_stringify) blocks))
     (convertClaudeContentToGeminiParts JSON_stringify (CBlocks blocks))
     (first_signature blocks) /\
   signed_count (convertClaudeContentToGeminiParts JSON_stringify (CBlocks blocks))
   = 1%nat) /\
  (existsb signable (concat (map (block_parts JSON_stringify) blocks)) = false ->
   signed_count (convertClaudeContentToGeminiParts JSON_stringify (CBlocks blocks))
   = 0%nat) /\
  (forall modelName,
      JsString.includes modelName "claude" = true ->
      signed_count (turn_parts JSON_stringify modelName blocks) = 0%nat) /\
  (forall modelName,
      JsString.includes modelName "claude" = false ->
      signed_count (turn_parts JSON_stringify modelName blocks)
      = signed_count
          (convertClaudeContentToGeminiParts JSON_stringify (CBlocks blocks))) /\
  (forall cfg generated req token g,
      convertClaudeToGeminiRequest JSON_stringify cfg generated req token
      = Some g ->
      JsString.includes (request_model g) "claude" = true ->
      Forall (fun c => signed_count (parts c) = 0%nat)
             (contents (request_of g))).
Proof.
  intros Hsig.
  assert (JsString.truthy (first_signature blocks) = true) as Htruthy.
  { by destruct (first_signature blocks). }
  pose proof (built_plain JSON_stringify blocks) as Hplain.
  destruct (applySignatureToParts_placed
              (concat (map (block_parts JSON_stringify) blocks))
              (first_signature blocks)) as [Hsome Hnone].
  unfold convertClaudeContentToGeminiParts. rewrite Htruthy.
  split; [|split; [|split; [|split]]].
  - intros Hex. split; [by apply Hsome|].
    eapply placed_count; [exact Hplain|by apply Hsome].
  - intros Hex. rewrite Hnone by done. by apply signed_count_plain.
  - intros modelName Hc. by rewrite turn_parts_count, Hc.
  - intros modelName Hc. rewrite turn_parts_count, Hc.
    unfold convertClaudeContentToGeminiParts. by rewrite Htruthy.
  - intros cfg generated req token g. unfold convertClaudeToGeminiRequest.
    destruct (messages req) as [[|msg msgs]|]; try done.
    destruct (convertClaudeMessagesToGeminiContents _ _ _) as [cs off].
    destruct (convertClaudeToolsToGeminiTools _) as [geminiTools|]; [|done].
    intros [= <-]. simpl. intros ->. apply strip_signatures_plain.
Qed.

Lemma signature_placement_witness :
  first_signature Scenarios.signed_turn <> "" /\
  signed_count
    (convertClaudeContentToGeminiParts
       Json.stringify (CBlocks Scenarios.signed_turn)) = 1%nat /\
  convertClaudeContentToGeminiParts
    Json.stringify (CBlocks Scenarios.signed_turn)
  = [plain (PText "t1" true); Part (PText "hi" false) (Some "S")].
Proof.
  split; [done|].
  destruct (signature_placement Json.stringify Scenarios.signed_turn)
    as (Hplaced & _); [done|].
  split; [|reflexivity]. apply Hplaced. reflexivity.
Defined.

(** C6, as stated, fails twice.  Sent to [gemini-2.5-flash], which is
    neither of the [gemini-3] family nor a Claude model, the turn of the
    fourth scenario keeps its signed part.  And a turn whose only thinking
    block has a signature and no text, followed by an image, produces no
    signed part at all, even for [gemini-3-pro-high]. *)
Lemma signature_counterexample :
  (first_signature Scenarios.signed_turn = "S" /\
   JsString.includes "gemini-2.5-flash" "gemini-3" = false /\
   JsString.includes "gemini-2.5-flash" "claude" = false /\
   turn_parts Json.stringify "gemini-2.5-flash" Scenarios.signed_turn
   = [plain (PText "t1" true); Part (PText "hi" false) (Some "S")]) /\
  (first_signature Scenarios.signature_only_turn = "S" /\
   JsString.includes "gemini-3-pro-high" "gemini-3" = true /\
   turn_parts Json.stringify "gemini-3-pro-high" Scenarios.signature_only_turn
   = [plain (PInlineData "image/png" "AAAA")] /\
   signed_count
     (turn_parts Json.stringify "gemini-3-pro-high"
                 Scenarios.signature_only_turn) = 0%nat).
Proof. repeat split; by vm_compute. Qed.

End TranslatorFacts.

(** ** The SSE emitter *)

Module SseEmitterFacts.
Import Json SseEmitter.

(** *** Traces *)

Lemma occurrences_app i l1 l2 :
  occurrences i (l1 ++ l2) = (occurrences i l1 + occurrences i l2)%nat.
Proof. unfold occurrences. by rewrite filter_app, length_app. Qed.

Lemma occurrences_nil i : occurrences i [] = 0%nat.
Proof. done. Qed.

Lemma occurrences_single i j :
  occurrences i [j] = if decide (j = i) then 1%nat else 0%nat.
Proof.
  unfold occurrences. rewrite filter_cons. by destruct (decide (j = i)).
Qed.

Lemma occurrences_absent i l : i ∉ l -> occurrences i l = 0%nat.
Proof.
  unfold occurrences. induction l as [|a l IH]; intros Hni; [done|].
  apply not_elem_of_cons in Hni as [Hne Hni].
  rewrite filter_cons. destruct (decide (a = i)); [congruence|by apply IH].
Qed.

Lemma occurrences_present i l : i ∈ l -> (1 <= occurrences i l)%nat.
Proof.
  unfold occurrences. induction l as [|a l IH]; intros Hin;
    [by apply elem_of_nil in Hin|].
  rewrite filter_cons. destruct (decide (a = i)); [simpl; lia|].
  apply elem_of_cons in Hin as [->|Hin]; [done|by apply IH].
Qed.

Lemma starts_snoc tr ev : starts (tr ++ [ev]) = starts tr ++ starts [ev].
Proof. apply omap_app. Qed.

Lemma stops_snoc tr ev : stops (tr ++ [ev]) = stops tr ++ stops [ev].
Proof. apply omap_app. Qed.

Lemma open_after_snoc tr ev :
  open_after (tr ++ [ev]) = open_step (open_after tr) ev.
Proof. unfold open_after. by rewrite foldl_app. Qed.

Lemma prefix_snoc_cases (p tr : list event) ev :
  p `prefix_of` tr ++ [ev] -> p = tr ++ [ev] \/ p `prefix_of` tr.
Proof.
  intros [k Hk]. destruct k as [|y k _] using rev_ind.
  - left. by rewrite app_nil_r in Hk.
  - right. rewrite app_assoc in Hk.
    apply app_inj_tail in Hk as [-> _]. by exists k.
Qed.

Lemma trace_ok_nil n : trace_ok [] None n.
Proof.
  split.
  - done.
  - intros i Hi. by apply elem_of_nil in Hi.
  - intros i. simpl. rewrite occurrences_nil. lia.
  - done.
  - intros p Hp. apply prefix_nil_inv in Hp as ->. simpl. lia.
Qed.

(** A block opened on a trace with none open. *)
Lemma trace_ok_start tr n k :
  trace_ok tr None n ->
  trace_ok (tr ++ [content_block_start n k]) (Some n) (S n).
Proof.
  intros [Hopen Hfresh Honce Hbal Hsingle].
  assert (occurrences n (starts tr) = 0%nat) as Hzero.
  { apply occurrences_absent. intros Hin. apply Hfresh in Hin. lia. }
  split.
  - by rewrite open_after_snoc, Hopen.
  - intros i. rewrite starts_snoc, elem_of_app. simpl.
    intros [Hi|Hi]; [apply Hfresh in Hi; lia|].
    apply list_elem_of_singleton in Hi as ->. lia.
  - intros i. rewrite starts_snoc, occurrences_app. simpl.
    rewrite occurrences_single. destruct (decide (n = i)) as [<-|];
      [lia|]. specialize (Honce i). lia.
  - intros i. rewrite starts_snoc, stops_snoc, !occurrences_app. simpl.
    pose proof (Hbal i) as Hb. simpl in Hb.
    rewrite occurrences_nil in *. lia.
  - intros p Hp. apply prefix_snoc_cases in Hp as [->|Hp]; [|by apply Hsingle].
    rewrite open_after_snoc, Hopen. simpl. lia.
Qed.

(** The open block closed. *)
Lemma trace_ok_stop tr i n :
  trace_ok tr (Some i) n ->
  trace_ok (tr ++ [content_block_stop i]) None n.
Proof.
  intros [Hopen Hfresh Honce Hbal Hsingle].
  split.
  - rewrite open_after_snoc, Hopen. simpl.
    rewrite filter_cons. by destruct (decide (i <> i)).
  - intros j. rewrite starts_snoc. simpl. rewrite app_nil_r. apply Hfresh.
  - intros j. rewrite starts_snoc. simpl. rewrite app_nil_r. apply Honce.
  - intros j. rewrite starts_snoc, stops_snoc, !occurrences_app. simpl.
    pose proof (Hbal j) as Hb. simpl in Hb.
    rewrite occurrences_nil in *. lia.
  - intros p Hp. apply prefix_snoc_cases in Hp as [->|Hp]; [|by apply Hsingle].
    rewrite open_after_snoc, Hopen. simpl.
    rewrite filter_cons. destruct (decide (i <> i)); [done|simpl; lia].
Qed.

(** An event that neither opens nor closes a block. *)
Lemma trace_ok_other tr o n ev :
  starts [ev] = [] -> stops [ev] = [] ->
  trace_ok tr o n -> trace_ok (tr ++ [ev]) o n.
Proof.
  intros Hs Ht [Hopen Hfresh Honce Hbal Hsingle].
  assert (open_step (open_after tr) ev = open_after tr) as Hstep.
  { by destruct ev. }
  split.
  - by rewrite open_after_snoc, Hstep.
  - intros j. rewrite starts_snoc, Hs, app_nil_r. apply Hfresh.
  - intros j. rewrite starts_snoc, Hs, app_nil_r. apply Honce.
  - intros j. rewrite starts_snoc, stops_snoc, Hs, Ht, !app_nil_r. apply Hbal.
  - intros p Hp. apply prefix_snoc_cases in Hp as [->|Hp]; [|by apply Hsingle].
    rewrite open_after_snoc, Hstep, Hopen. destruct o; simpl; lia.
Qed.

Lemma trace_ok_bound tr o n : trace_ok tr o n -> trace_ok tr o (S n).
Proof.
  intros [Hopen Hfresh Honce Hbal Hsingle]. split; try done.
  intros i Hi. apply Hfresh in Hi. lia.
Qed.

(** *** The operations keep the invariant *)

Ltac fields e :=
  destruct e as [tr rid mdl inp next text think fin total];
  unfold emitter_ok, open_of in *; simpl in *.

Lemma writeSSE_other_ok e ev :
  starts [ev] = [] -> stops [ev] = [] ->
  emitter_ok e -> emitter_ok (writeSSE e ev).
Proof.
  intros Hs Ht. fields e. intros [Hone Hok].
  split; [done|]. by apply trace_ok_other.
Qed.

Lemma add_tokens_ok e n : emitter_ok e -> emitter_ok (add_tokens e n).
Proof. by fields e. Qed.

Lemma closeTextBlock_ok e :
  emitter_ok e ->
  emitter_ok (closeTextBlock e) /\
  textBlockIndex (closeTextBlock e) = None /\
  thinkingBlockIndex (closeTextBlock e) = thinkingBlockIndex e /\
  finished (closeTextBlock e) = finished e.
Proof.
  unfold closeTextBlock. fields e. intros [Hone Hok].
  destruct text as [i|]; simpl; [|done].
  destruct Hone as [? | ->]; [done|].
  split; [|done]. split; [by left|]. by apply trace_ok_stop.
Qed.

Lemma closeThinkingBlock_ok e :
  emitter_ok e ->
  emitter_ok (closeThinkingBlock e) /\
  thinkingBlockIndex (closeThinkingBlock e) = None /\
  textBlockIndex (closeThinkingBlock e) = textBlockIndex e /\
  finished (closeThinkingBlock e) = finished e.
Proof.
  unfold closeThinkingBlock. fields e. intros [Hone Hok].
  destruct think as [i|]; simpl; [|done].
  destruct Hone as [-> | ?]; [|done].
  split; [|done]. split; [by right|]. by apply trace_ok_stop.
Qed.

Lemma ensureTextBlock_ok e :
  emitter_ok e -> thinkingBlockIndex e = None ->
  emitter_ok (ensureTextBlock e) /\
  is_Some (textBlockIndex (ensureTextBlock e)) /\
  finished (ensureTextBlock e) = finished e.
Proof.
  unfold ensureTextBlock. fields e. intros [Hone Hok] ->.
  destruct text as [i|]; simpl; [by eauto|].
  split; [|by eauto]. split; [by right|]. by apply trace_ok_start.
Qed.

Lemma ensureThinkingBlock_ok e :
  emitter_ok e -> textBlockIndex e = None ->
  emitter_ok (ensureThinkingBlock e) /\
  is_Some (thinkingBlockIndex (ensureThinkingBlock e)) /\
  finished (ensureThinkingBlock e) = finished e.
Proof.
  unfold ensureThinkingBlock. fields e. intros [Hone Hok] ->.
  destruct think as [i|]; simpl; [by eauto|].
  split; [|by eauto]. split; [by left|]. by apply trace_ok_start.
Qed.

Lemma sendText_ok stringify e text :
  emitter_ok e ->
  emitter_ok (sendText stringify e text) /\
  finished (sendText stringify e text) = finished e.
Proof.
  intros Hok. unfold sendText.
  destruct (negb (JsString.truthy text)); [done|].
  destruct (closeThinkingBlock_ok e Hok) as (Hok1 & Hthink & _ & Hfin1).
  destruct (ensureTextBlock_ok _ Hok1 Hthink) as (Hok2 & _ & Hfin2).
  pose proof (add_tokens_ok
                _ (Estimator.estimateTokensFromText stringify (JStr text)) Hok2)
    as Hok3.
  simpl textBlockIndex.
  destruct (textBlockIndex (ensureTextBlock (closeThinkingBlock e)));
    [|by rewrite <- Hfin1, <- Hfin2].
  split; [by apply writeSSE_other_ok|]. by rewrite <- Hfin1, <- Hfin2.
Qed.

Lemma sendThinking_ok stringify e thinking :
  emitter_ok e ->
  emitter_ok (sendThinking stringify e thinking) /\
  finished (sendThinking stringify e thinking) = finished e.
Proof.
  intros Hok. unfold sendThinking.
  destruct (negb (JsString.truthy thinking)); [done|].
  destruct (closeTextBlock_ok e Hok) as (Hok1 & Htext & _ & Hfin1).
  destruct (ensureThinkingBlock_ok _ Hok1 Htext) as (Hok2 & _ & Hfin2).
  pose proof (add_tokens_ok
                _ (Estimator.estimateTokensFromText stringify (JStr thinking))
                Hok2) as Hok3.
  simpl thinkingBlockIndex.
  destruct (thinkingBlockIndex (ensureThinkingBlock (closeTextBlock e)));
    [|by rewrite <- Hfin1, <- Hfin2].
  split; [by apply writeSSE_other_ok|]. by rewrite <- Hfin1, <- Hfin2.
Qed.

(** A tool call takes a fresh index and is opened and closed while no
    other block is open. *)
Lemma send_one_call_ok stringify gen e c :
  emitter_ok e -> textBlockIndex e = None -> thinkingBlockIndex e = None ->
  emitter_ok (send_one_call stringify gen e c) /\
  textBlockIndex (send_one_call stringify gen e c) = None /\
  thinkingBlockIndex (send_one_call stringify gen e c) = None /\
  finished (send_one_call stringify gen e c) = finished e.
Proof.
  unfold send_one_call. fields e. intros [_ Hok] -> ->. simpl.
  split; [|done]. split; [by left|].
  apply trace_ok_stop, trace_ok_other, trace_ok_start; done.
Qed.

Lemma sendToolCalls_ok stringify gen e l :
  emitter_ok e ->
  emitter_ok (sendToolCalls stringify gen e l) /\
  finished (sendToolCalls stringify gen e l) = finished e.
Proof.
  intros Hok. unfold sendToolCalls. destruct l as [|c l]; [done|].
  destruct (closeTextBlock_ok e Hok) as (Hok1 & Htext1 & Hthink1 & Hfin1).
  destruct (closeThinkingBlock_ok _ Hok1) as (Hok2 & Hthink2 & Htext2 & Hfin2).
  rewrite Htext1 in Htext2. rewrite <- Hfin1, <- Hfin2.
  generalize dependent (closeThinkingBlock (closeTextBlock e)).
  generalize (c :: l). clear.
  intros l. induction l as [|c l IH]; intros e0 Hok Hthink Htext; [done|].
  simpl.
  destruct (send_one_call_ok stringify gen e0 c Hok Htext Hthink)
    as (Hok' & Htext' & Hthink' & Hfin').
  rewrite <- Hfin'. by apply IH.
Qed.

Lemma start_ok e : emitter_ok e -> emitter_ok (start e) /\ finished (start e) = finished e.
Proof. intros Hok. split; [by apply writeSSE_other_ok|done]. Qed.

Lemma finish_ok e u :
  emitter_ok e ->
  emitter_ok (finish e u) /\
  finished (finish e u) = true /\
  (finished e = false -> open_of (finish e u) = None).
Proof.
  intros Hok. unfold finish. destruct (finished e) eqn:Hfin; [done|].
  assert (emitter_ok (set_finished e)) as Hok0 by (by fields e).
  destruct (closeTextBlock_ok _ Hok0) as (Hok1 & Htext1 & Hthink1 & Hfin1).
  destruct (closeThinkingBlock_ok _ Hok1) as (Hok2 & Hthink2 & Htext2 & Hfin2).
  rewrite Htext1 in Htext2.
  split; [|split].
  - repeat apply writeSSE_other_ok; done.
  - simpl. by rewrite Hfin2, Hfin1.
  - intros _. unfold open_of. simpl. by rewrite Htext2, Hthink2.
Qed.

Lemma perform_ok stringify gen e c :
  emitter_ok e -> emitter_ok (perform stringify gen e c).
Proof.
  intros Hok. destruct c; simpl.
  - by apply start_ok.
  - by apply sendText_ok.
  - by apply sendThinking_ok.
  - by apply sendToolCalls_ok.
  - by apply finish_ok.
Qed.

Lemma run_ok stringify gen e cs :
  emitter_ok e -> emitter_ok (run stringify gen e cs).
Proof.
  unfold run. revert e. induction cs as [|c cs IH]; intros e Hok; [done|].
  simpl. by apply IH, perform_ok.
Qed.

Lemma run_no_finish stringify gen e cs :
  emitter_ok e -> no_finish cs ->
  finished (run stringify gen e cs) = finished e.
Proof.
  unfold run. intros Hok Hno. revert e Hok.
  induction Hno as [|c cs Hc _ IH]; intros e Hok; [done|].
  simpl. rewrite IH by (by apply perform_ok).
  destruct c; simpl; try done.
  - by apply sendText_ok.
  - by apply sendThinking_ok.
  - by apply sendToolCalls_ok.
Qed.

Lemma create_ok gen requestId model inputTokens :
  emitter_ok (create gen requestId model inputTokens).
Proof. split; [by left|apply trace_ok_nil]. Qed.

Lemma finish_again e u u' : finish (finish e u) u' = finish e u.
Proof.
  unfold finish at 1. destruct (finished (finish e u)) eqn:Hfin; [done|].
  unfold finish in Hfin. destruct (finished e) eqn:He; [congruence|].
  simpl in Hfin.
  unfold closeThinkingBlock, closeTextBlock in Hfin.
  destruct e as [tr rid mdl inp next text think fin total]; simpl in *.
  by destruct text, think.
Qed.

(** *** Block discipline *)

(** A caller that awaits every call leaves no call suspended and the
    emitter as the calls, each carried out to its end, leave it. *)
Lemma play_awaited JSON_stringify generateRequestId (cs : list call) :
  forall e,
    play JSON_stringify generateRequestId e (concat (map awaited cs))
    = (run JSON_stringify generateRequestId e cs, []).
Proof.
  unfold play, run.
  induction cs as [|c cs IH]; intros e; [done|].
  cbn [map concat]. rewrite foldl_app. cbn [foldl].
  destruct c as [|t|t|l|u]; cbn [awaited foldl play_move perform];
    try apply IH.
  destruct l as [|x l]; cbn; apply IH.
Qed.

(** C7 (for awaited calls that end with the one [finish]).  The calls are
    made one after the other, each [sendToolCalls] awaited before the next
    call: the session is what a caller that awaits every call leaves.
    Whatever these calls, at no point of the event stream are two blocks
    open, so a text and a thinking block are never open together and a
    tool-use block overlaps no other block, and a second [finish] changes
    nothing.  When the calls are sends closed by one [finish], every
    [content_block_start] has its index started once and stopped once, and
    no block is left open. *)
Theorem block_discipline (JSON_stringify : json -> string)
        (generateRequestId : nat -> string) (requestId model : string)
        (inputTokens : Z) (sends : list call) (u : option usage) :
  no_finish sends ->
  (forall i,
      i ∈ starts (res (session JSON_stringify generateRequestId requestId
                               model inputTokens (sends ++ [Finish u]))) ->
      occurrences i
        (starts (res (session JSON_stringify generateRequestId requestId
                              model inputTokens (sends ++ [Finish u]))))
      = 1%nat /\
      occurrences i
        (stops (res (session JSON_stringify generateRequestId requestId
                             model inputTokens (sends ++ [Finish u]))))
      = 1%nat) /\
  open_after (res (session JSON_stringify generateRequestId requestId
                           model inputTokens (sends ++ [Finish u]))) = [] /\
  (forall calls,
      play JSON_stringify generateRequestId
           (create generateRequestId requestId model inputTokens)
           (concat (map awaited calls))
      = (session JSON_stringify generateRequestId requestId model inputTokens
                 calls, []) /\
      (forall p,
          p `prefix_of` res (session JSON_stringify generateRequestId
                                     requestId model inputTokens calls) ->
          (length (open_after p) <= 1)%nat) /\
      (textBlockIndex (session JSON_stringify generateRequestId requestId
                               model inputTokens calls) = None \/
       thinkingBlockIndex (session JSON_stringify generateRequestId requestId
                                   model inputTokens calls) = None) /\
      (forall u1 u2,
          finish (finish (session JSON_stringify generateRequestId requestId
                                  model inputTokens calls) u1) u2
          = finish (session JSON_stringify generateRequestId requestId
                            model inputTokens calls) u1)).
Proof.
  intros Hno.
  pose proof (create_ok generateRequestId requestId model inputTokens) as Hok0.
  assert (open_after (res (session JSON_stringify generateRequestId requestId
                                   model inputTokens (sends ++ [Finish u])))
          = [] /\
          emitter_ok (session JSON_stringify generateRequestId requestId
                              model inputTokens (sends ++ [Finish u])))
    as [Hclosed [_ Hok]].
  { unfold session, run. rewrite foldl_app. simpl.
    pose proof (run_ok JSON_stringify generateRequestId _ sends Hok0) as Hok1.
    pose proof (run_no_finish JSON_stringify generateRequestId _ sends Hok0 Hno)
      as Hfin.
    unfold run in Hok1, Hfin.
    destruct (finish_ok _ u Hok1) as (Hok2 & _ & Hnone).
    split; [|done]. destruct Hok2 as [_ Hok2].
    rewrite (ok_open _ _ _ Hok2), Hnone; done. }
  split; [|split; [done|]].
  - intros i Hi.
    pose proof (ok_once _ _ _ Hok i) as Honce.
    pose proof (ok_balance _ _ _ Hok i) as Hbal.
    pose proof (occurrences_present _ _ Hi) as Hpos.
    rewrite <- (ok_open _ _ _ Hok), Hclosed, occurrences_nil in Hbal. lia.
  - intros calls.
    pose proof (run_ok JSON_stringify generateRequestId _ calls Hok0)
      as [Hone Hokc].
    split; [apply play_awaited|].
    split; [apply (ok_single _ _ _ Hokc)|]. split; [done|].
    intros u1 u2. apply finish_again.
Qed.

Lemma block_discipline_witness :
  no_finish Scenarios.scenario_sends /\
  res (session Json.stringify Scenarios.request_ids "r1" "m" 10
               Scenarios.scenario_calls)
  = [ message_start "msg_r1" "m" 10;
      content_block_start 0 thinking_block;
      content_block_delta 0 (thinking_delta "a");
      content_block_stop 0;
      content_block_start 1 text_block;
      content_block_delta 1 (text_delta "b");
      content_block_stop 1;
      content_block_start 2 (tool_use_block "t1" "f");
      content_block_delta 2 (input_json_delta "{}");
      content_block_stop 2;
      message_delta 10 3; message_stop; response_end ] /\
  open_after (res (session Json.stringify Scenarios.request_ids "r1" "m" 10
                           Scenarios.scenario_calls)) = [].
Proof.
  split; [repeat constructor|]. split; [reflexivity|].
  apply (block_discipline Json.stringify Scenarios.request_ids "r1" "m" 10
                          Scenarios.scenario_sends Scenarios.scenario_usage).
  repeat constructor.
Defined.

(** C7, as stated for every sequence of calls, fails: a text sent after
    [finish] opens block 0, and the [finish] that follows emits nothing,
    so the block is started and never stopped. *)
Lemma late_send_counterexample :
  res (session Json.stringify Scenarios.request_ids "r1" "m" 10
               Scenarios.late_calls)
  = [ message_start "msg_r1" "m" 10;
      message_delta 10 0; message_stop; response_end;
      content_block_start 0 text_block;
      content_block_delta 0 (text_delta "a") ] /\
  0%nat ∈ starts (res (session Json.stringify Scenarios.request_ids "r1" "m" 10
                               Scenarios.late_calls)) /\
  occurrences 0 (stops (res (session Json.stringify Scenarios.request_ids
                                     "r1" "m" 10 Scenarios.late_calls)))
  = 0%nat.
Proof.
  split; [reflexivity|]. split; [|reflexivity].
  vm_compute. apply list_elem_of_here.
Qed.

(** Without the [await] the discipline is lost: [sendToolCalls] closes the
    text block and is suspended, the text sent next opens block 1, and the
    resumed call writes its tool-use block 2 while block 1 is open. *)
Lemma unawaited_calls_overlap :
  res (play Json.stringify Scenarios.request_ids
            (create Scenarios.request_ids "r1" "m" 10)
            Scenarios.unawaited_moves).1
  = [ message_start "msg_r1" "m" 10;
      content_block_start 0 text_block;
      content_block_delta 0 (text_delta "a");
      content_block_stop 0;
      content_block_start 1 text_block;
      content_block_delta 1 (text_delta "b");
      content_block_start 2 (tool_use_block "t1" "f");
      content_block_delta 2 (input_json_delta "{}");
      content_block_stop 2 ] /\
  open_after
    (take 7 (res (play Json.stringify Scenarios.request_ids
                       (create Scenarios.request_ids "r1" "m" 10)
                       Scenarios.unawaited_moves).1))
  = [2%nat; 1%nat].
Proof. split; reflexivity. Qed.

End SseEmitterFacts.

(** ** More of the credential store *)

Module CredentialStoreFacts.
Import TokenManager CredentialStore.

(** *** What the basic operations keep *)

Lemma saveToFile_fields m :
  tokens (saveToFile m) = tokens m /\
  currentIndex (saveToFile m) = currentIndex m /\
  hourlyLimit (saveToFile m) = hourlyLimit m /\
  quotaMonitor (saveToFile m) = quotaMonitor m.
Proof. unfold saveToFile. by destruct (file m). Qed.

Lemma markUsed_fields m t :
  tokens (markUsed m t) = tokens m /\
  currentIndex (markUsed m t) = currentIndex m /\
  hourlyLimit (markUsed m t) = hourlyLimit m /\
  file (markUsed m t) = file m.
Proof.
  unfold markUsed. destruct (quotaMonitor m), (projectId t) as [p|]; try done.
  by destruct (JsString.truthy p).
Qed.

Lemma moveToNextToken_index_ok m : index_ok (moveToNextToken m).
Proof.
  unfold index_ok, moveToNextToken.
  destruct (length (tokens m)) as [|n] eqn:Hn; simpl; rewrite Hn; [lia|].
  pose proof (Nat.mod_upper_bound (currentIndex m + 1) (S n)). lia.
Qed.

Lemma disableToken_index_ok m i t : index_ok (disableToken m i t).
Proof.
  unfold index_ok, disableToken. simpl.
  apply Nat.mod_upper_bound. lia.
Qed.

Lemma disableToken_tokens m i t :
  tokens (disableToken m i t)
  = filter (fun x => refresh_token x <> refresh_token t)
           (<[i := disabled_copy t]> (tokens m)).
Proof.
  change (tokens (disableToken m i t))
    with (filter (fun x => refresh_token x <> refresh_token t)
                 (tokens (saveToFile (update_at m i (disabled_copy t))))).
  by destruct (saveToFile_fields (update_at m i (disabled_copy t))) as (-> & _).
Qed.

Lemma disableToken_hourlyLimit m i t :
  hourlyLimit (disableToken m i t) = hourlyLimit m.
Proof.
  change (hourlyLimit (disableToken m i t))
    with (hourlyLimit (saveToFile (update_at m i (disabled_copy t)))).
  by destruct (saveToFile_fields (update_at m i (disabled_copy t)))
    as (_ & _ & -> & _).
Qed.

(** Writing over the object at [i] an object with the same [refresh_token]
    leaves the refresh tokens of the list as they were. *)
Lemma insert_same_refresh (l : list token) i t t' :
  l !! i = Some t -> refresh_token t' = refresh_token t ->
  refresh_token <$> (<[i := t']> l) = refresh_token <$> l.
Proof.
  intros Hl Hrt. rewrite list_fmap_insert, Hrt.
  apply list_insert_id. by rewrite list_lookup_fmap, Hl.
Qed.

Lemma insert_same_ident (l : list token) i t t' :
  l !! i = Some t -> ident t' = ident t ->
  ident <$> (<[i := t']> l) = ident <$> l.
Proof.
  intros Hl Hrt. rewrite list_fmap_insert, Hrt.
  apply list_insert_id. by rewrite list_lookup_fmap, Hl.
Qed.

Lemma ident_refresh (l l' : list token) rt :
  (forall x, x ∈ (ident <$> l') -> x ∈ (ident <$> l)) ->
  rt ∈ (refresh_token <$> l') -> rt ∈ (refresh_token <$> l).
Proof.
  intros Hsub Hin. apply list_elem_of_fmap in Hin as (t & -> & Ht).
  assert (ident t ∈ (ident <$> l)) as Hx.
  { apply Hsub, list_elem_of_fmap. by exists t. }
  apply list_elem_of_fmap in Hx as (t0 & Heq & Ht0).
  apply list_elem_of_fmap. exists t0. split; [|done].
  by injection Heq.
Qed.

Lemma disableToken_removes m i t :
  tokens m !! i = Some t ->
  (refresh_token t ∉ (refresh_token <$> tokens (disableToken m i t))) /\
  forall x, x ∈ (ident <$> tokens (disableToken m i t)) ->
            x ∈ (ident <$> tokens m).
Proof.
  intros Hl. rewrite disableToken_tokens. split.
  - intros Hin. apply list_elem_of_fmap in Hin as (x & Hrt & Hx).
    apply list_elem_of_filter in Hx as [Hne _]. congruence.
  - intros y Hin. apply list_elem_of_fmap in Hin as (x & -> & Hx).
    apply list_elem_of_filter in Hx as [_ Hx].
    rewrite <- (insert_same_ident (tokens m) i t (disabled_copy t)) by done.
    apply list_elem_of_fmap. by exists x.
Qed.

Lemma update_held m t t' :
  tokens m !! currentIndex m = Some t ->
  ident t' = ident t ->
  tokens (saveToFile (update_at m (currentIndex m) t'))
    !! currentIndex (saveToFile (update_at m (currentIndex m) t')) = Some t' /\
  currentIndex (saveToFile (update_at m (currentIndex m) t')) = currentIndex m /\
  ident <$> tokens (saveToFile (update_at m (currentIndex m) t'))
  = ident <$> tokens m /\
  hourlyLimit (saveToFile (update_at m (currentIndex m) t')) = hourlyLimit m.
Proof.
  intros Hl Hrt.
  destruct (saveToFile_fields (update_at m (currentIndex m) t'))
    as (-> & -> & -> & _). simpl.
  split; [|split; [done|split; [|done]]].
  - apply list_lookup_insert_eq. by eapply lookup_lt_Some.
  - by apply (insert_same_ident _ _ t).
Qed.

Lemma select_tail_spec w m t :
  match select_tail w m t with
  | inl (m', r) =>
      r = Some t /\ tokens m' = tokens m /\ currentIndex m' = currentIndex m /\
      hourlyLimit m' = hourlyLimit m /\ isWithinHourlyLimit w m t = true
  | inr m' => m' = moveToNextToken m /\ isWithinHourlyLimit w m t = false
  end.
Proof.
  unfold select_tail. destruct (isWithinHourlyLimit w m t); [|done].
  by destruct (markUsed_fields m t) as (-> & -> & -> & _).
Qed.

Lemma moveToNextToken_fields m :
  tokens (moveToNextToken m) = tokens m /\
  hourlyLimit (moveToNextToken m) = hourlyLimit m /\
  file (moveToNextToken m) = file m /\
  quotaMonitor (moveToNextToken m) = quotaMonitor m.
Proof. unfold moveToNextToken. by destruct (length (tokens m)). Qed.

Lemma isWithinHourlyLimit_limit w m m' t :
  hourlyLimit m' = hourlyLimit m ->
  isWithinHourlyLimit w m' t = isWithinHourlyLimit w m t.
Proof. unfold isWithinHourlyLimit. by intros ->. Qed.

Lemma isModelDisabled_models t t' model :
  disabledModels t' = disabledModels t ->
  isModelDisabled (Some t') model = isModelDisabled (Some t) model.
Proof. unfold isModelDisabled. by intros ->. Qed.

(** What one loop turn of [getToken] guarantees. *)
Lemma getToken_turn_spec w model m :
  match getToken_turn w model m with
  | inl (m', Some t) =>
      tokens m' !! currentIndex m' = Some t /\
      isModelDisabled (Some t) model = false /\
      isWithinHourlyLimit w m' t = true
  | inl (m', None) => tokens m' = []
  | inr m' => True
  end /\
  index_ok (after_turn (getToken_turn w model m)) /\
  hourlyLimit (after_turn (getToken_turn w model m)) = hourlyLimit m /\
  forall x,
    x ∈ (ident <$> tokens (after_turn (getToken_turn w model m))) ->
    x ∈ (ident <$> tokens m).
Proof.
  assert (forall m0, ident <$> tokens m0 = ident <$> tokens m ->
                     hourlyLimit m0 = hourlyLimit m ->
                     True /\ index_ok (moveToNextToken m0) /\
                     hourlyLimit (moveToNextToken m0) = hourlyLimit m /\
                     forall x,
                       x ∈ (ident <$> tokens (moveToNextToken m0)) ->
                       x ∈ (ident <$> tokens m)) as Hmove.
  { intros m0 Ht Hh. destruct (moveToNextToken_fields m0) as (Ht' & Hh' & _).
    split; [done|]. split; [apply moveToNextToken_index_ok|].
    split; [congruence|]. by rewrite Ht', Ht. }
  assert (forall m0 t0,
             tokens m0 !! currentIndex m0 = Some t0 ->
             ident <$> tokens m0 = ident <$> tokens m ->
             hourlyLimit m0 = hourlyLimit m ->
             let r : manager * option token + manager :=
               match tokens (disableToken m0 (currentIndex m0) t0) with
               | [] => inl (disableToken m0 (currentIndex m0) t0, None)
               | _ => inr (disableToken m0 (currentIndex m0) t0)
               end in
             match r with
             | inl (m', Some t) =>
                 tokens m' !! currentIndex m' = Some t /\
                 isModelDisabled (Some t) model = false /\
                 isWithinHourlyLimit w m' t = true
             | inl (m', None) => tokens m' = []
             | inr m' => True
             end /\
             index_ok (after_turn r) /\
             hourlyLimit (after_turn r) = hourlyLimit m /\
             forall x,
               x ∈ (ident <$> tokens (after_turn r)) ->
               x ∈ (ident <$> tokens m)) as Hdis.
  { intros m0 t0 Hl Hr Hh r.
    assert (after_turn r = disableToken m0 (currentIndex m0) t0) as ->.
    { subst r. by destruct (tokens (disableToken m0 (currentIndex m0) t0)). }
    split; [subst r;
            by destruct (tokens (disableToken m0 (currentIndex m0) t0)) eqn:E|].
    split; [apply disableToken_index_ok|].
    split; [by rewrite disableToken_hourlyLimit|].
    intros x Hrt. rewrite <- Hr. by apply (disableToken_removes m0 _ t0 Hl). }
  assert (forall m0 t0,
             tokens m0 !! currentIndex m0 = Some t0 ->
             ident <$> tokens m0 = ident <$> tokens m ->
             hourlyLimit m0 = hourlyLimit m ->
             isModelDisabled (Some t0) model = false ->
             match select_tail w m0 t0 with
             | inl (m', Some t) =>
                 tokens m' !! currentIndex m' = Some t /\
                 isModelDisabled (Some t) model = false /\
                 isWithinHourlyLimit w m' t = true
             | inl (m', None) => tokens m' = []
             | inr m' => True
             end /\
             index_ok (after_turn (select_tail w m0 t0)) /\
             hourlyLimit (after_turn (select_tail w m0 t0)) = hourlyLimit m /\
             forall x,
               x ∈ (ident <$> tokens (after_turn (select_tail w m0 t0))) ->
               x ∈ (ident <$> tokens m)) as Htail.
  { intros m0 t0 Hl Hr Hh Hd. pose proof (select_tail_spec w m0 t0) as Hs.
    destruct (select_tail w m0 t0) as [[m' r]|m'].
    - destruct Hs as (-> & Ht & Hi & Hh' & Hlim). simpl.
      split; [|split; [|split]].
      + rewrite Ht, Hi. split; [done|]. split; [done|].
        by rewrite (isWithinHourlyLimit_limit w m0 m' t0 Hh').
      + unfold index_ok. rewrite Ht, Hi.
        apply lookup_lt_Some in Hl. lia.
      + congruence.
      + by rewrite Ht, Hr.
    - destruct Hs as [-> _]. simpl.
      destruct (moveToNextToken_fields m0) as (Ht' & Hh' & _).
      split; [done|]. split; [apply moveToNextToken_index_ok|].
      split; [congruence|]. by rewrite Ht', Hr. }
  unfold getToken_turn.
  destruct (tokens m !! currentIndex m) as [t|] eqn:Hl; [|by apply Hmove].
  destruct (isModelDisabled (Some t) model) eqn:Hd; [by apply Hmove|].
  assert (forall m1 t1,
             tokens m1 !! currentIndex m1 = Some t1 ->
             currentIndex m1 = currentIndex m ->
             ident <$> tokens m1 = ident <$> tokens m ->
             hourlyLimit m1 = hourlyLimit m ->
             disabledModels t1 = disabledModels t ->
             let r :=
               if opt_truthy (projectId t1) then select_tail w m1 t1
               else if skipProjectIdFetch w then
                 select_tail w (saveToFile (update_at m1 (currentIndex m)
                                  (with_projectId t1 (generateProjectId w))))
                             (with_projectId t1 (generateProjectId w))
               else
                 match fetch_reply w t1 with
                 | FetchProject p =>
                     select_tail w (saveToFile (update_at m1 (currentIndex m)
                                      (with_projectId t1 p)))
                                 (with_projectId t1 p)
                 | FetchUndefined =>
                     match tokens (disableToken m1 (currentIndex m) t1) with
                     | [] => inl (disableToken m1 (currentIndex m) t1, None)
                     | _ => inr (disableToken m1 (currentIndex m) t1)
                     end
                 | FetchThrows => inr (moveToNextToken m1)
                 end in
             match r with
             | inl (m', Some t) =>
                 tokens m' !! currentIndex m' = Some t /\
                 isModelDisabled (Some t) model = false /\
                 isWithinHourlyLimit w m' t = true
             | inl (m', None) => tokens m' = []
             | inr m' => True
             end /\
             index_ok (after_turn r) /\
             hourlyLimit (after_turn r) = hourlyLimit m /\
             forall x,
               x ∈ (ident <$> tokens (after_turn r)) ->
               x ∈ (ident <$> tokens m)) as Hproject.
  { intros m1 t1 Hl1 Hi1 Hr1 Hh1 Hd1 r. subst r.
    assert (isModelDisabled (Some t1) model = false) as Hdm.
    { by rewrite (isModelDisabled_models t t1 model Hd1). }
    assert (forall p,
               match select_tail w (saveToFile (update_at m1 (currentIndex m)
                                      (with_projectId t1 p)))
                                 (with_projectId t1 p) with
               | inl (m', Some t) =>
                   tokens m' !! currentIndex m' = Some t /\
                   isModelDisabled (Some t) model = false /\
                   isWithinHourlyLimit w m' t = true
               | inl (m', None) => tokens m' = []
               | inr m' => True
               end /\
               index_ok (after_turn (select_tail w (saveToFile (update_at m1 (currentIndex m)
                                      (with_projectId t1 p)))
                                 (with_projectId t1 p))) /\
               hourlyLimit (after_turn (select_tail w (saveToFile (update_at m1 (currentIndex m)
                                      (with_projectId t1 p)))
                                 (with_projectId t1 p))) = hourlyLimit m /\
               forall x,
                 x ∈ (ident <$> tokens (after_turn (select_tail w (saveToFile (update_at m1 (currentIndex m)
                                      (with_projectId t1 p)))
                                 (with_projectId t1 p)))) ->
                 x ∈ (ident <$> tokens m)) as Hset.
    { intros p. rewrite <- Hi1.
      destruct (update_held m1 t1 (with_projectId t1 p) Hl1 eq_refl)
        as (Hl2 & Hi2 & Hr2 & Hh2).
      apply Htail; [done|congruence|congruence|].
      by rewrite (isModelDisabled_models t1 (with_projectId t1 p) model eq_refl). }
    destruct (opt_truthy (projectId t1)). { by apply Htail. }
    destruct (skipProjectIdFetch w); [apply Hset|].
    destruct (fetch_reply w t1) as [p| |]; [apply Hset| |by apply Hmove].
    rewrite <- Hi1. by apply Hdis. }
  destruct (isExpired w t).
  - unfold refreshToken. destruct (refresh_reply w t) as [access expires|code].
    + destruct (update_held m t
                  (Token (refresh_token t) access expires (Some (now w))
                         (projectId t) (enable t) (disabledModels t) (sessionId t))
                  Hl eq_refl) as (Hl2 & Hi2 & Hr2 & Hh2).
      by apply Hproject.
    + case_bool_decide; [|by apply Hmove]. by apply Hdis.
  - by apply Hproject.
Qed.

Lemma getToken_loop_spec w model left m :
  match (getToken_loop w model left m).2 with
  | Some t =>
      tokens (getToken_loop w model left m).1
        !! currentIndex (getToken_loop w model left m).1 = Some t /\
      isModelDisabled (Some t) model = false /\
      isWithinHourlyLimit w (getToken_loop w model left m).1 t = true
  | None => True
  end /\
  (index_ok m -> index_ok (getToken_loop w model left m).1) /\
  hourlyLimit (getToken_loop w model left m).1 = hourlyLimit m /\
  forall x,
    x ∈ (ident <$> tokens (getToken_loop w model left m).1) ->
    x ∈ (ident <$> tokens m).
Proof.
  revert m. induction left as [|left IH]; intros m; [done|].
  simpl. destruct (getToken_turn_spec w model m) as (Hres & Hok & Hh & Hsub).
  destruct (getToken_turn w model m) as [[m' r]|m']; simpl in *.
  - split; [by destruct r|]. done.
  - destruct (IH m') as (Hres' & Hok' & Hh' & Hsub').
    split; [done|]. split; [by intros _; apply Hok'|].
    split; [congruence|]. intros x Hrt. by apply Hsub, Hsub'.
Qed.

Lemma getToken_spec w model m :
  match (getToken w model m).2 with
  | Some t =>
      tokens (getToken w model m).1 !! currentIndex (getToken w model m).1
      = Some t /\
      isModelDisabled (Some t) (effectiveModelName model) = false /\
      isWithinHourlyLimit w (getToken w model m).1 t = true
  | None => True
  end /\
  (index_ok m -> index_ok (getToken w model m).1) /\
  hourlyLimit (getToken w model m).1 = hourlyLimit m /\
  forall x,
    x ∈ (ident <$> tokens (getToken w model m).1) ->
    x ∈ (ident <$> tokens m).
Proof.
  unfold getToken. destruct (tokens m) eqn:Ht; [simpl; by rewrite Ht|].
  rewrite <- Ht. apply getToken_loop_spec.
Qed.

Lemma selections_absent rt calls m :
  rt ∉ (refresh_token <$> tokens m) ->
  forall r, r ∈ selections calls m -> refresh_token <$> r <> Some rt.
Proof.
  revert m. induction calls as [|[w model] calls IH]; intros m Habs r Hr;
    [by apply elem_of_nil in Hr|].
  simpl in Hr. destruct (getToken_spec w model m) as (Hres & _ & _ & Hsub).
  destruct (getToken w model m) as [m' r0]. simpl in *.
  apply elem_of_cons in Hr as [->|Hr].
  - destruct r0 as [t|]; [|done]. simpl. intros [= <-].
    destruct Hres as (Hheld & _). apply Habs, (ident_refresh _ _ _ Hsub).
    apply list_elem_of_fmap. exists t. split; [done|].
    by eapply list_elem_of_lookup_2.
  - apply (IH m'); [|done]. intros Hin.
    by apply Habs, (ident_refresh _ _ _ Hsub).
Qed.

(** *** A round in which every credential is passed over *)

Lemma set_index_same m : set_index m (currentIndex m) = m.
Proof. by destruct m. Qed.

Lemma moveToNextToken_set_index m :
  tokens m <> [] ->
  moveToNextToken m
  = set_index m ((currentIndex m + 1) mod length (tokens m))%nat.
Proof.
  unfold moveToNextToken. by destruct (tokens m).
Qed.

Lemma turn_passed_over w model m t :
  tokens m !! currentIndex m = Some t ->
  passed_over w model m t ->
  getToken_turn w (effectiveModelName model) m = inr (moveToNextToken m).
Proof.
  intros Hl Hp. unfold getToken_turn. rewrite Hl.
  destruct (isModelDisabled (Some t) (effectiveModelName model)) eqn:Hd; [done|].
  destruct Hp as [Hp|(He & Hi & Hlim)]; [congruence|].
  rewrite He, Hi. unfold select_tail. by rewrite Hlim.
Qed.

Lemma loop_passed_over w model k m :
  (currentIndex m < length (tokens m))%nat ->
  (forall t, t ∈ tokens m -> passed_over w model m t) ->
  getToken_loop w (effectiveModelName model) k m
  = (set_index m ((currentIndex m + k) mod length (tokens m))%nat, None).
Proof.
  revert m. induction k as [|k IH]; intros m Hi Hall.
  - simpl. rewrite Nat.add_0_r, Nat.mod_small by done.
    by rewrite set_index_same.
  - assert (tokens m <> []) as Hne.
    { intros E. rewrite E in Hi. simpl in Hi. lia. }
    destruct (lookup_lt_is_Some_2 (tokens m) (currentIndex m) Hi) as [t Hl].
    simpl. rewrite (turn_passed_over w model m t Hl)
      by (apply Hall; by eapply list_elem_of_lookup_2).
    rewrite moveToNextToken_set_index by done.
    rewrite IH; simpl.
    + f_equal. unfold set_index. simpl. f_equal.
      rewrite Nat.Div0.add_mod_idemp_l. f_equal. lia.
    + apply Nat.mod_upper_bound. lia.
    + intros t' Ht'. destruct (Hall t' Ht') as [Hd|(He & Hp & Hlim)];
        [by left|]. right. done.
Qed.

(** *** Selection *)

(** X1.  The rotating index never leaves the list: if it points into the
    list (or is 0 on an empty list) before [getToken],
    [getTokenByProjectId], [disableCurrentToken] or [moveToNextToken], it
    does so afterwards, and the manager the constructor builds starts that
    way; so on a non-empty list [tokens[currentIndex]] is a credential. *)
Theorem selector_index_in_range (w : world) (model p : option string)
        (tok : token) (m : manager) :
  index_ok m ->
  index_ok (getToken w model m).1 /\
  index_ok (getTokenByProjectId w p m).1 /\
  index_ok (disableCurrentToken m tok) /\
  index_ok (moveToNextToken m) /\
  (tokens m <> [] -> is_Some (tokens m !! currentIndex m)) /\
  forall limit file sessions, index_ok (construct limit file sessions).
Proof.
  intros Hok. split; [by apply getToken_spec|]. split; [|split; [|split; [|split]]].
  - unfold getTokenByProjectId.
    destruct p as [p|]; [|done]. destruct (tokens m) as [|hd tl] eqn:Ht; [done|].
    rewrite <- Ht. destruct (negb (JsString.truthy p)); [done|].
    destruct (list_find _ (tokens m)) as [[i t]|] eqn:Hf; [|done].
    apply list_find_Some in Hf as (Hl & _ & _).
    assert (forall t', index_ok (markUsed (saveToFile (update_at m i t')) t'))
      as Hupd.
    { intros t'. unfold index_ok in *.
      destruct (markUsed_fields (saveToFile (update_at m i t')) t')
        as (-> & -> & _).
      destruct (saveToFile_fields (update_at m i t')) as (-> & -> & _).
      simpl. by rewrite length_insert. }
    destruct (isExpired w t).
    + unfold refreshToken. destruct (refresh_reply w t); simpl; [apply Hupd|].
      case_bool_decide; [apply disableToken_index_ok|done].
    + simpl. unfold index_ok in *.
      by destruct (markUsed_fields m t) as (-> & -> & _).
  - unfold disableCurrentToken.
    destruct (list_find _ (tokens m)) as [[i t]|]; [|done].
    apply disableToken_index_ok.
  - apply moveToNextToken_index_ok.
  - intros Hne. apply lookup_lt_is_Some_2. unfold index_ok in Hok.
    destruct (tokens m); [done|]. simpl in *. lia.
  - intros limit file sessions. unfold index_ok, construct. simpl. lia.
Qed.

Lemma selector_index_in_range_witness :
  index_ok Scenarios.pool /\
  index_ok (getToken (Scenarios.world_at 2000000 20) (Some "gemini-2.5-pro")
                     Scenarios.pool).1.
Proof.
  split; [unfold index_ok; simpl; lia|].
  apply (selector_index_in_range
           (Scenarios.world_at 2000000 20) (Some "gemini-2.5-pro") None
           Scenarios.credA Scenarios.pool).
  unfold index_ok. simpl. lia.
Defined.



(** X3.  When every credential of the pool is disabled for the requested
    model, or usable but at its hourly limit, [getToken] returns none after
    one round and leaves the list, the file and the index as they were. *)
Theorem fruitless_round (w : world) (model : option string) (m : manager) :
  (currentIndex m < length (tokens m))%nat ->
  (forall t, t ∈ tokens m -> passed_over w model m t) ->
  getToken w model m = (m, None).
Proof.
  intros Hi Hall. unfold getToken.
  rewrite loop_passed_over by done.
  assert ((currentIndex m + length (tokens m)) mod length (tokens m)
          = currentIndex m)%nat as ->.
  { rewrite <- (Nat.mul_1_l (length (tokens m))) at 1.
    rewrite Nat.Div0.mod_add. by apply Nat.mod_small. }
  rewrite set_index_same. destruct (tokens m); [simpl in Hi; lia|done].
Qed.

Lemma fruitless_round_witness :
  getToken (Scenarios.world_at 2000000 20) (Some "gemini-2.5-pro")
           (set_tokens Scenarios.pool [Scenarios.credA])
  = (set_tokens Scenarios.pool [Scenarios.credA], None).
Proof.
  apply fruitless_round.
  - simpl. lia.
  - intros t Ht. apply list_elem_of_singleton in Ht as ->.
    right. by vm_compute.
Defined.

(** X4.  Once [disableToken] has run for a credential, no later [getToken]
    returns a credential with its [refresh_token]. *)
Theorem disabled_never_selected (m : manager) (i : nat) (t : token)
        (calls : list (world * option string)) :
  tokens m !! i = Some t ->
  forall r, r ∈ selections calls (disableToken m i t) ->
            refresh_token <$> r <> Some (refresh_token t).
Proof.
  intros Hl. apply selections_absent. by apply disableToken_removes.
Qed.

Lemma disabled_never_selected_witness :
  selections Scenarios.three_requests
             (disableToken Scenarios.pool 0 Scenarios.credA)
  = [Some Scenarios.credB; Some Scenarios.credB; Some Scenarios.credB] /\
  forall r, r ∈ selections Scenarios.three_requests
                           (disableToken Scenarios.pool 0 Scenarios.credA) ->
            refresh_token <$> r <> Some (refresh_token Scenarios.credA).
Proof.
  split; [by vm_compute|].
  apply (disabled_never_selected Scenarios.pool 0 Scenarios.credA).
  reflexivity.
Defined.


(** *** The file across a restart *)

Lemma findIndex_unique rt l i d :
  NoDup (refresh_token <$> l) -> l !! i = Some d -> refresh_token d = rt ->
  findIndex rt l = Some i.
Proof.
  intros Hnd Hl Hrt. destruct (findIndex rt l) as [j|] eqn:Hj.
  - apply TokenManagerFacts.findIndex_Some in Hj as (t' & Ht' & Hrt').
    f_equal. eapply (NoDup_lookup _ j i rt Hnd).
    + by rewrite list_lookup_fmap, Ht'; simpl; rewrite Hrt'.
    + by rewrite list_lookup_fmap, Hl; simpl; rewrite Hrt.
  - apply TokenManagerFacts.findIndex_None in Hj. destruct Hj.
    apply list_elem_of_fmap. exists d. split; [done|].
    by eapply list_elem_of_lookup_2.
Qed.

Lemma merge_tokens_length mem disk :
  length (merge_tokens mem disk) = length disk.
Proof.
  rewrite <- (length_fmap refresh_token (merge_tokens mem disk)).
  by rewrite TokenManagerFacts.merge_tokens_refresh, length_fmap.
Qed.

Lemma merge_untouched mem disk i d :
  disk !! i = Some d ->
  (forall t, t ∈ mem -> refresh_token t <> refresh_token d) ->
  merge_tokens mem disk !! i = Some d.
Proof.
  intros Hl Hno.
  destruct (merge_tokens mem disk !! i) as [d'|] eqn:Hm.
  - apply TokenManagerFacts.merge_tokens_entry in Hm
      as [Hm|(t & Hin & _ & Hrt)]; [congruence|].
    rewrite Hl in Hrt. simpl in Hrt. injection Hrt as Hrt.
    by destruct (Hno t Hin).
  - apply lookup_ge_None in Hm. rewrite merge_tokens_length in Hm.
    apply lookup_lt_Some in Hl. lia.
Qed.

Lemma merge_overwrites mem disk i d t :
  NoDup (refresh_token <$> mem) -> NoDup (refresh_token <$> disk) ->
  t ∈ mem -> disk !! i = Some d -> refresh_token d = refresh_token t ->
  merge_tokens mem disk !! i = Some (strip_session t).
Proof.
  unfold merge_tokens. revert disk d.
  induction mem as [|a mem IH]; intros disk d Hmem Hdisk Hin Hl Hrt.
  { by apply elem_of_nil in Hin. }
  simpl. rewrite fmap_cons in Hmem. apply NoDup_cons in Hmem as [Ha Hmem].
  apply elem_of_cons in Hin as [->|Hin].
  - unfold save_one. rewrite (findIndex_unique _ disk i d) by done.
    apply (merge_untouched mem).
    + apply list_lookup_insert_eq. by eapply lookup_lt_Some.
    + intros t Ht Heq. apply Ha. apply list_elem_of_fmap. by exists t.
  - assert (refresh_token a <> refresh_token t) as Hne.
    { intros Heq. apply Ha. rewrite Heq. apply list_elem_of_fmap. by exists t. }
    apply (IH _ d); try done.
    + by rewrite TokenManagerFacts.save_one_refresh.
    + unfold save_one. destruct (findIndex _ disk) as [j|] eqn:Hj; [|done].
      apply TokenManagerFacts.findIndex_Some in Hj as (t0 & Ht0 & Hrt0).
      rewrite list_lookup_insert_ne; [done|]. intros ->. congruence.
Qed.

Lemma construct_tokens limit disk sessions x :
  x ∈ tokens (construct limit (Some disk) sessions) ->
  exists k d, d ∈ disk /\ enable d <> Some false /\ x = load_token sessions k d.
Proof.
  simpl. intros Hx. apply list_elem_of_lookup in Hx as [k Hk].
  rewrite list_lookup_imap in Hk.
  destruct (filter _ disk !! k) as [d|] eqn:Hd; [|done].
  simpl in Hk. injection Hk as <-.
  apply list_elem_of_lookup_2, list_elem_of_filter in Hd as [He Hd].
  by exists k, d.
Qed.

(** X6.  A credential disabled by [disableToken] is not loaded again by a
    manager constructed from the file afterwards, when refresh tokens are
    not repeated in the list or in the file. *)
Theorem disable_survives_restart (m : manager) (i : nat) (t : token)
        (disk : list token) (limit : option Z) (sessions : nat -> string) :
  tokens m !! i = Some t -> file m = Some disk ->
  NoDup (refresh_token <$> tokens m) -> NoDup (refresh_token <$> disk) ->
  refresh_token t ∉
    (refresh_token <$>
       tokens (construct limit (file (disableToken m i t)) sessions)).
Proof.
  intros Hl Hf Hmem Hdisk.
  assert (file (disableToken m i t)
          = Some (merge_tokens (<[i := disabled_copy t]> (tokens m)) disk))
    as ->.
  { unfold disableToken, saveToFile, update_at. simpl. by rewrite Hf. }
  intros Hin. apply list_elem_of_fmap in Hin as (x & Hrt & Hx).
  apply construct_tokens in Hx as (k & d & Hd & He & ->).
  change (refresh_token (load_token sessions k d)) with (refresh_token d) in Hrt.
  apply list_elem_of_lookup in Hd as [j Hj].
  assert (exists d0, disk !! j = Some d0 /\ refresh_token d0 = refresh_token d)
    as (d0 & Hd0 & Hrt0).
  { assert ((refresh_token <$> disk) !! j = Some (refresh_token d)) as H.
    { rewrite <- (TokenManagerFacts.merge_tokens_refresh
                    (<[i := disabled_copy t]> (tokens m)) disk).
      by rewrite list_lookup_fmap, Hj. }
    rewrite list_lookup_fmap in H.
    destruct (disk !! j) as [d0|]; [|done]. simpl in H. injection H as H.
    by exists d0. }
  rewrite (merge_overwrites _ disk j d0 (disabled_copy t)) in Hj.
  - injection Hj as <-. by apply He.
  - rewrite list_fmap_insert. simpl. rewrite list_insert_id; [done|].
    by rewrite list_lookup_fmap, Hl.
  - done.
  - eapply list_elem_of_lookup_2, list_lookup_insert_eq.
    by eapply lookup_lt_Some.
  - done.
  - simpl. congruence.
Qed.

Lemma disable_survives_restart_witness :
  refresh_token Scenarios.credA ∉
    (refresh_token <$>
       tokens (construct (Some 20)
                 (file (disableToken Scenarios.pool 0 Scenarios.credA))
                 (fun _ => "session"))).
Proof.
  apply (disable_survives_restart Scenarios.pool 0 Scenarios.credA
           [strip_session Scenarios.credA; strip_session Scenarios.credB]).
  - reflexivity.
  - reflexivity.
  - apply (bool_decide_unpack _). by vm_compute.
  - apply (bool_decide_unpack _). by vm_compute.
Defined.

(** X7.  Saving right after loading changes the file only in form: an
    entry that is disabled stays as it was, and an enabled one is written
    back with [disabledModels] defaulted to the empty list and without
    [sessionId]; no entry is added, dropped or moved. *)
Theorem save_after_load (disk : list token) (limit : option Z)
        (sessions : nat -> string) :
  NoDup (refresh_token <$> disk) ->
  file (saveToFile (construct limit (Some disk) sessions))
  = Some (saved_entry <$> disk).
Proof.
  intros Hdisk. unfold saveToFile.
  change (file (construct limit (Some disk) sessions)) with (Some disk).
  simpl. f_equal.
  set (mem := imap (load_token sessions)
                   (filter (fun t => enable t <> Some false) disk)).
  assert (refresh_token <$> mem
          = refresh_token <$> filter (fun t => enable t <> Some false) disk)
    as Hrts.
  { unfold mem. apply list_eq. intros k.
    rewrite !list_lookup_fmap, list_lookup_imap.
    by destruct (filter _ disk !! k). }
  assert (NoDup (refresh_token <$> mem)) as Hmem.
  { rewrite Hrts. eapply sublist_NoDup; [exact Hdisk|apply fmap_sublist, sublist_filter]. }
  apply list_eq. intros j. rewrite list_lookup_fmap.
  destruct (disk !! j) as [d|] eqn:Hj; simpl.
  - unfold saved_entry. case_bool_decide as He.
    + apply merge_untouched; [done|]. intros t Ht Heq.
      apply list_elem_of_lookup in Ht as [k Hk]. unfold mem in Hk.
      rewrite list_lookup_imap in Hk.
      destruct (filter _ disk !! k) as [d'|] eqn:Hd'; [|done].
      simpl in Hk. injection Hk as <-.
      apply list_elem_of_lookup_2, list_elem_of_filter in Hd' as [He' Hd'].
      apply list_elem_of_lookup in Hd' as [j' Hj'].
      assert (j' = j) as ->.
      { eapply (NoDup_lookup _ j' j (refresh_token d) Hdisk).
        - rewrite list_lookup_fmap, Hj'. simpl. by rewrite <- Heq.
        - by rewrite list_lookup_fmap, Hj. }
      congruence.
    + assert (d ∈ filter (fun t => enable t <> Some false) disk) as Hd.
      { apply list_elem_of_filter. split; [done|].
        by eapply list_elem_of_lookup_2. }
      apply list_elem_of_lookup in Hd as [k Hk].
      rewrite (merge_overwrites mem disk j d (load_token sessions k d));
        try done.
      apply (list_elem_of_lookup_2 _ k). unfold mem.
      by rewrite list_lookup_imap, Hk.
  - apply lookup_ge_None. rewrite merge_tokens_length.
    by apply lookup_ge_None.
Qed.

Lemma save_after_load_witness :
  file (saveToFile
          (construct (Some 20)
             (Some [strip_session Scenarios.credA; strip_session Scenarios.credB])
             (fun _ => "session")))
  = Some [strip_session Scenarios.credA; strip_session Scenarios.credB].
Proof.
  apply (save_after_load
           [strip_session Scenarios.credA; strip_session Scenarios.credB]).
  apply (bool_decide_unpack _). by vm_compute.
Defined.

(** What the [k]-th call of a series returns. *)
Lemma selections_sound (calls : list (world * option string)) :
  forall (m : manager) k w model t,
    calls !! k = Some (w, model) ->
    selections calls m !! k = Some (Some t) ->
    isModelDisabled (Some t) (effectiveModelName model) = false /\
    exists t0, t0 ∈ tokens m /\ refresh_token t0 = refresh_token t /\
               disabledModels t0 = disabledModels t.
Proof.
  induction calls as [|[w0 model0] calls IH]; intros m k w model t; [done|].
  simpl. pose proof (getToken_spec w0 model0 m) as (Hres & _ & _ & Hsub).
  destruct (getToken w0 model0 m) as [m' r0] eqn:Hget. cbn [fst snd] in *.
  assert (forall t1, t1 ∈ tokens m' ->
                     exists t0, t0 ∈ tokens m /\
                                refresh_token t0 = refresh_token t1 /\
                                disabledModels t0 = disabledModels t1) as Hback.
  { intros t1 Ht1.
    assert (ident t1 ∈ (ident <$> tokens m)) as Hx.
    { apply Hsub, list_elem_of_fmap. by exists t1. }
    apply list_elem_of_fmap in Hx as (t0 & Heq & Ht0).
    injection Heq as H1 H2. by exists t0. }
  destruct k as [|k]; simpl.
  - intros [= -> ->] [= ->]. destruct Hres as (Hheld & Hd & _).
    split; [done|]. apply Hback. by eapply list_elem_of_lookup_2.
  - intros Hk Hsel. destruct (IH m' k w model t Hk Hsel)
      as (Hd & t1 & Ht1 & Hrt1 & Hdm1).
    split; [done|]. destruct (Hback t1 Ht1) as (t0 & Ht0 & Hrt0 & Hdm0).
    exists t0. split; [done|]. split; congruence.
Qed.

(** X8.  Through any series of [getToken] calls, a call for a model never
    returns a credential whose [disabledModels] listed that model when the
    series began. *)
Theorem disabled_model_never_selected (rt name : string)
        (calls : list (world * option string)) (m : manager) :
  (forall t0, t0 ∈ tokens m -> refresh_token t0 = rt ->
              isModelDisabled (Some t0) (Some name) = true) ->
  forall k w model t,
    calls !! k = Some (w, model) ->
    effectiveModelName model = Some name ->
    selections calls m !! k = Some (Some t) ->
    refresh_token t <> rt.
Proof.
  intros Hall k w model t Hk Hname Hsel Hrt.
  destruct (selections_sound calls m k w model t Hk Hsel)
    as (Hd & t0 & Ht0 & Hrt0 & Hdm0).
  rewrite Hname in Hd.
  rewrite (isModelDisabled_models t0 t (Some name) (eq_sym Hdm0)) in Hd.
  rewrite Hall in Hd; [done|done|congruence].
Qed.

Lemma disabled_model_never_selected_witness :
  selections Scenarios.three_requests MoreScenarios.blocked_pool !! O
  = Some (Some Scenarios.credB) /\
  refresh_token Scenarios.credB <> "refresh-A".
Proof.
  split; [by vm_compute|].
  apply (disabled_model_never_selected
           "refresh-A" "gemini-2.5-pro" Scenarios.three_requests
           MoreScenarios.blocked_pool
           ltac:(intros t0 Ht0 Hrt; simpl in Ht0;
                 apply elem_of_cons in Ht0 as [-> | Ht0]; [reflexivity|];
                 apply list_elem_of_singleton in Ht0 as ->; discriminate Hrt)
           O (Scenarios.world_at 2000000 0) (Some "gemini-2.5-pro")
           Scenarios.credB).
  - reflexivity.
  - by vm_compute.
  - by vm_compute.
Defined.

End CredentialStoreFacts.

(** ** The quota monitor *)

Module QuotaMonitorFacts.
Import TokenManager QuotaMonitor.

(** *** The list of disabled models against a quota report *)

Lemma indexOf_spec name l :
  name ∈ l ->
  exists i, indexOf name l = Some i /\
            (forall x, x <> name -> (x ∈ delete i l <-> x ∈ l)) /\
            (NoDup l -> (name ∉ delete i l) /\ NoDup (delete i l)).
Proof.
  induction l as [|a l IH]; intros Hin; [by apply elem_of_nil in Hin|].
  simpl. case_bool_decide as Ha.
  - subst a. exists O. split; [done|]. simpl. split.
    + intros x Hx. rewrite elem_of_cons. split; [by right|]. by intros [? | ?].
    + intros Hnd. by apply NoDup_cons in Hnd.
  - apply elem_of_cons in Hin as [Hin | Hin]; [congruence|].
    destruct (IH Hin) as (i & -> & Hother & Hnd). exists (S i).
    split; [done|]. simpl. split.
    + intros x Hx. rewrite !elem_of_cons. by rewrite (Hother x Hx).
    + intros Hl. apply NoDup_cons in Hl as [Hal Hl].
      destruct (Hnd Hl) as [Hout Hnd']. split.
      * rewrite not_elem_of_cons. split; [congruence|done].
      * apply NoDup_cons. split; [|done].
        intros Hin'. apply Hal. by apply (Hother a Ha).
Qed.

(** One turn of the loop. *)
Lemma adjust_turn dl ch name info :
  (low info = true -> name ∈ (adjust (dl, ch) (name, info)).1) /\
  (low info = false -> NoDup dl -> name ∉ (adjust (dl, ch) (name, info)).1) /\
  (forall x, x <> name -> (x ∈ (adjust (dl, ch) (name, info)).1 <-> x ∈ dl)) /\
  (NoDup dl -> NoDup (adjust (dl, ch) (name, info)).1) /\
  ((adjust (dl, ch) (name, info)).2 = false ->
   (adjust (dl, ch) (name, info)).1 = dl /\ ch = false) /\
  ((low info = true -> name ∈ dl) -> (low info = false -> name ∉ dl) ->
   adjust (dl, ch) (name, info) = (dl, ch)).
Proof.
  unfold adjust. destruct (low info) eqn:Hlow; simpl;
    case_bool_decide as Hin; simpl.
  - split_and!; try done; try (by intros _ _).
  - split_and!; try done.
    + intros _. apply elem_of_app. right. apply list_elem_of_here.
    + intros x Hx. rewrite elem_of_app, list_elem_of_singleton.
      split; [by intros [? | ?]|by left].
    + intros Hnd. apply NoDup_app. split; [done|]. split.
      * intros x Hx Hx'. apply list_elem_of_singleton in Hx'. congruence.
      * apply NoDup_singleton.
    + intros H. by destruct Hin; apply H.
  - destruct (indexOf_spec name dl Hin) as (i & -> & Hother & Hnd). simpl.
    split_and!; try done.
    + intros _ Hl. by apply Hnd.
    + intros Hl. by apply Hnd.
    + intros _ H. by destruct H.
  - split_and!; try done; try (by intros _ _).
Qed.

(** The whole loop, for a report that names no model twice. *)
Lemma adjust_all ms : forall dl ch,
  NoDup ms.*1 ->
  (forall name info, (name, info) ∈ ms -> low info = true ->
                     name ∈ (foldl adjust (dl, ch) ms).1) /\
  (forall name info, (name, info) ∈ ms -> low info = false -> NoDup dl ->
                     name ∉ (foldl adjust (dl, ch) ms).1) /\
  (forall x, x ∉ ms.*1 -> (x ∈ (foldl adjust (dl, ch) ms).1 <-> x ∈ dl)) /\
  (NoDup dl -> NoDup (foldl adjust (dl, ch) ms).1) /\
  ((foldl adjust (dl, ch) ms).2 = false ->
   (foldl adjust (dl, ch) ms).1 = dl /\ ch = false).
Proof.
  induction ms as [|[name info] ms IH]; intros dl ch Hnd.
  { simpl. repeat split; try done.
    - intros ? ? H. by apply elem_of_nil in H.
    - intros ? ? H. by apply elem_of_nil in H. }
  rewrite fmap_cons in Hnd. apply NoDup_cons in Hnd as [Hname Hnd].
  cbn [fst] in Hname.
  pose proof (adjust_turn dl ch name info) as (T1 & T2 & T3 & T4 & T5 & _).
  change (foldl adjust (dl, ch) ((name, info) :: ms))
    with (foldl adjust (adjust (dl, ch) (name, info)) ms).
  destruct (adjust (dl, ch) (name, info)) as [dl1 ch1].
  cbn [fst snd] in *. destruct (IH dl1 ch1 Hnd) as (I1 & I2 & I3 & I4 & I5).
  split_and!.
  - intros n i Hin Hlow. apply elem_of_cons in Hin as [[= -> ->] | Hin].
    + apply (I3 name Hname). by apply T1.
    + by apply (I1 n i).
  - intros n i Hin Hlow Hdl. apply elem_of_cons in Hin as [[= -> ->] | Hin].
    + rewrite (I3 name Hname). by apply T2.
    + apply (I2 n i); [done|done|by apply T4].
  - intros x Hx. rewrite fmap_cons, not_elem_of_cons in Hx. cbn [fst] in Hx.
    destruct Hx as [Hx1 Hx2]. rewrite (I3 x Hx2). by apply T3.
  - intros Hdl. by apply I4, T4.
  - intros Hch. destruct (I5 Hch) as [-> ->]. by apply T5.
Qed.

Lemma adjust_settled ms : forall dl ch,
  (forall name info, (name, info) ∈ ms ->
                     (low info = true -> name ∈ dl) /\
                     (low info = false -> name ∉ dl)) ->
  foldl adjust (dl, ch) ms = (dl, ch).
Proof.
  induction ms as [|[name info] ms IH]; intros dl ch Hall; [done|].
  change (foldl adjust (dl, ch) ((name, info) :: ms))
    with (foldl adjust (adjust (dl, ch) (name, info)) ms).
  destruct (adjust_turn dl ch name info) as (_ & _ & _ & _ & _ & T6).
  rewrite T6.
  - apply IH. intros n i Hin. apply Hall. by apply list_elem_of_further.
  - apply (Hall name info), list_elem_of_here.
  - apply (Hall name info), list_elem_of_here.
Qed.

(** *** A check of one account *)

Lemma set_disabledModels_but dl t :
  but_disabledModels (set_disabledModels dl t) = but_disabledModels t.
Proof. done. Qed.

Lemma alter_but dl i (l : list token) :
  but_disabledModels <$> alter (set_disabledModels dl) i l
  = but_disabledModels <$> l.
Proof.
  apply list_eq. intros j. rewrite !list_lookup_fmap.
  destruct (decide (j = i)) as [->|Hne].
  - rewrite list_lookup_alter_eq. by destruct (l !! i).
  - by rewrite list_lookup_alter_ne.
Qed.

Lemma alter_refresh dl i (l : list token) :
  refresh_token <$> alter (set_disabledModels dl) i l = refresh_token <$> l.
Proof.
  apply list_eq. intros j. rewrite !list_lookup_fmap.
  destruct (decide (j = i)) as [->|Hne].
  - rewrite list_lookup_alter_eq. by destruct (l !! i).
  - by rewrite list_lookup_alter_ne.
Qed.

(** The monitor after a check that was answered, in terms of the list the
    loop ends with. *)
Lemma checkQuotaForAccount_answered now ms q account :
  let dl := (foldl adjust (default [] (disabledModels account), false) ms).1 in
  let q' := checkQuotaForAccount now (QuotaModels ms) q account in
  quotaCache q'
  = <[credentialKey account :=
        CacheEntry ms now
          (default 0 (lastUsed <$> quotaCache q !! credentialKey account))]>
      (quotaCache q) /\
  isChecking q' = isChecking q /\
  ((accounts q' = accounts q /\ tokens q' = tokens q) \/
   (exists accs i,
       accounts q = Some accs /\
       findIndex (refresh_token account) accs = Some i /\
       accounts q' = Some (alter (set_disabledModels dl) i accs) /\
       tokens q' = match findIndex (refresh_token account) (tokens q) with
                   | Some j => alter (set_disabledModels dl) j (tokens q)
                   | None => tokens q
                   end)) /\
  (forall accs i,
      accounts q = Some accs ->
      findIndex (refresh_token account) accs = Some i ->
      (foldl adjust (default [] (disabledModels account), false) ms).2 = true ->
      accounts q' = Some (alter (set_disabledModels dl) i accs) /\
      tokens q' = match findIndex (refresh_token account) (tokens q) with
                  | Some j => alter (set_disabledModels dl) j (tokens q)
                  | None => tokens q
                  end) /\
  ((foldl adjust (default [] (disabledModels account), false) ms).2 = false ->
   accounts q' = accounts q /\ tokens q' = tokens q).
Proof.
  intros dl q'. subst dl q'. unfold checkQuotaForAccount.
  destruct (foldl adjust (default [] (disabledModels account), false) ms)
    as [dl ch]. cbn [fst snd].
  destruct ch.
  - unfold updateAccountDisabledModels. cbn [accounts tokens quotaCache isChecking].
    destruct (accounts q) as [accs|] eqn:Ha.
    + destruct (findIndex (refresh_token account) accs) as [i|] eqn:Hi;
        cbn [accounts tokens quotaCache isChecking].
      * split_and!; try done.
        -- right. by exists accs, i.
        -- intros accs' i' [= <-] Hi' _. rewrite Hi in Hi'.
           by injection Hi' as <-.
      * split_and!; try done.
        -- by left.
        -- intros accs' i' [= <-] Hi' _. congruence.
    + cbn [accounts tokens quotaCache isChecking].
      split_and!; try done. by left.
  - cbn [accounts tokens quotaCache isChecking].
    split_and!; try done. by left.
Qed.

Lemma model_quota_reported ms name info :
  NoDup ms.*1 -> (name, info) ∈ ms -> model_quota ms name = Some info.
Proof.
  unfold model_quota. intros Hnd Hin.
  destruct (list_find (fun e => e.1 = name) ms) as [[j e]|] eqn:Hf.
  - apply list_find_Some in Hf as (Hj & He & _).
    apply list_elem_of_lookup in Hin as [k Hk].
    assert (j = k) as ->.
    { apply (NoDup_lookup _ j k name Hnd).
      - by rewrite list_lookup_fmap, Hj; simpl; rewrite He.
      - by rewrite list_lookup_fmap, Hk. }
    rewrite Hk in Hj. by injection Hj as <-.
  - apply list_find_None in Hf. rewrite Forall_forall in Hf.
    by destruct (Hf _ Hin).
Qed.

Lemma effectiveModelName_truthy model name :
  effectiveModelName model = Some name -> JsString.truthy name = true.
Proof.
  unfold effectiveModelName. destruct model as [s|]; [|done].
  destruct (JsString.truthy (JsString.trim s)) eqn:E; [|done].
  by intros [= <-].
Qed.

(** X9.  A credential marked as used is not skipped by the periodic check
    during the next 30 minutes; and a credential is skipped only if the
    monitor has an entry for it whose last check is less than 5 hours old
    and which was not used in the last 30 minutes. *)
Theorem skip_rule (now0 now : Z) (q : monitor) (k : string) :
  (JsString.truthy k = true -> 0 < now0 -> now - now0 < checkInterval ->
   shouldSkipCheck now (markTokenUsed now0 q (Some k)) k = false) /\
  (shouldSkipCheck now q k = true ->
   exists e, quotaCache q !! k = Some e /\
             (lastCheck e <> 0) /\ (now - lastCheck e < maxSkipMs) /\
             ~ (0 < lastUsed e /\ now - lastUsed e < checkInterval)).
Proof.
  split.
  - intros Hk H0 Hlt. unfold markTokenUsed, shouldSkipCheck. rewrite Hk.
    cbn [quotaCache lastUsed]. rewrite lookup_insert_eq. cbn [lastUsed].
    assert ((0 <? now0) = true) as -> by lia.
    assert ((now - now0 <? checkInterval) = true) as -> by lia. done.
  - unfold shouldSkipCheck. destruct (quotaCache q !! k) as [e|]; [|done].
    intros H. exists e. split; [done|].
    destruct (0 <? lastUsed e) eqn:E1;
      destruct (now - lastUsed e <? checkInterval) eqn:E2;
      simpl in H; try done;
      destruct (lastCheck e =? 0) eqn:E3; try done; lia.
Qed.

Lemma skip_rule_witness :
  shouldSkipCheck 1500000
    (markTokenUsed 1000000 (Monitor ∅ None [] false) (Some "A")) "A" = false.
Proof.
  apply (skip_rule 1000000 1500000 (Monitor ∅ None [] false) "A").
  - reflexivity.
  - lia.
  - unfold checkInterval. lia.
Defined.

(** X10.  After a check of an account that the quota query answered, the
    account's entry in the file lists every reported model whose remaining
    quota is at most 5%, no reported model whose remaining quota is above 5%
    (when the list had no repetition), and the models that were not reported
    exactly as before; nothing else of the entry changes. *)
Theorem threshold_rule (now : Z) (ms : quotas) (q : monitor)
        (account : token) (accs : list token) (i : nat) :
  accounts q = Some accs ->
  accs !! i = Some account ->
  findIndex (refresh_token account) accs = Some i ->
  NoDup ms.*1 ->
  exists account',
    accounts (checkQuotaForAccount now (QuotaModels ms) q account) ≫= (.!! i)
    = Some account' /\
    but_disabledModels account' = but_disabledModels account /\
    (forall name info,
        (name, info) ∈ ms -> low info = true ->
        name ∈ default [] (disabledModels account')) /\
    (forall name info,
        (name, info) ∈ ms -> low info = false ->
        NoDup (default [] (disabledModels account)) ->
        name ∉ default [] (disabledModels account')) /\
    (forall name,
        name ∉ ms.*1 ->
        (name ∈ default [] (disabledModels account')
         <-> name ∈ default [] (disabledModels account))).
Proof.
  intros Ha Hi Hf Hnd.
  destruct (checkQuotaForAccount_answered now ms q account)
    as (_ & _ & _ & Hch & Hsame).
  destruct (adjust_all ms (default [] (disabledModels account)) false Hnd)
    as (A1 & A2 & A3 & _ & A5).
  destruct (foldl adjust (default [] (disabledModels account), false) ms)
    as [dl ch] eqn:E. cbn [fst snd] in *. destruct ch.
  - destruct (Hch accs i Ha Hf eq_refl) as [-> _].
    exists (set_disabledModels dl account). split.
    { simpl. by rewrite list_lookup_alter_eq, Hi. }
    split; [done|]. done.
  - destruct (Hsame eq_refl) as [-> _]. destruct (A5 eq_refl) as [-> _].
    exists account. split; [by rewrite Ha; simpl|].
    split; [done|]. done.
Qed.

Lemma threshold_rule_witness :
  exists account',
    accounts (checkQuotaForAccount 2000000 (QuotaModels MoreScenarios.report)
                MoreScenarios.monitor0 MoreScenarios.accountA) ≫= (.!! O)
    = Some account' /\
    disabledModels account' = Some ["gemini-2.5-pro"; "claude-sonnet-4-5"].
Proof.
  destruct (threshold_rule 2000000 MoreScenarios.report MoreScenarios.monitor0
              MoreScenarios.accountA
              [strip_session Scenarios.credA; strip_session Scenarios.credB] O)
    as (account' & Hacc & _).
  - reflexivity.
  - reflexivity.
  - by vm_compute.
  - apply (bool_decide_unpack _). by vm_compute.
  - exists account'. split; [exact Hacc|].
    vm_compute in Hacc. by injection Hacc as <-.
Defined.


(** X11.  When a check finds a model of an account at 5% or less, later
    [getToken] calls for that model do not return the account's
    credential, provided the list held by the token manager is the one the
    monitor updates, repeats no refresh token and agreed with the file on
    the account's [disabledModels]. *)
Theorem low_quota_blocks_selection (now : Z) (ms : quotas) (q : monitor)
        (account : token) (accs : list token) (i : nat)
        (name : string) (info : option Q) :
  accounts q = Some accs ->
  findIndex (refresh_token account) accs = Some i ->
  NoDup ms.*1 ->
  NoDup (refresh_token <$> tokens q) ->
  (forall t, t ∈ tokens q -> refresh_token t = refresh_token account ->
             disabledModels t = disabledModels account) ->
  (name, info) ∈ ms -> low info = true ->
  forall m calls k w model t,
    TokenManager.tokens m
    = tokens (checkQuotaForAccount now (QuotaModels ms) q account) ->
    calls !! k = Some (w, model) ->
    effectiveModelName model = Some name ->
    selections calls m !! k = Some (Some t) ->
    refresh_token t <> refresh_token account.
Proof.
  intros Ha Hf Hnd Hrts Hsync Hin Hlow m calls k w model t Hm Hk Hname Hsel Hrt.
  destruct (CredentialStoreFacts.selections_sound calls m k w model t Hk Hsel)
    as (Hd & t0 & Ht0 & Hrt0 & Hdm0).
  rewrite Hrt in Hrt0. clear Hrt. rename Hrt0 into Hrt.
  rewrite Hname in Hd.
  rewrite (CredentialStoreFacts.isModelDisabled_models
             t0 t (Some name) (eq_sym Hdm0)) in Hd.
  enough (isModelDisabled (Some t0) (Some name) = true) by congruence.
  clear Hd. unfold isModelDisabled.
  rewrite (effectiveModelName_truthy model name Hname).
  apply bool_decide_eq_true. rewrite Hm in Ht0.
  destruct (checkQuotaForAccount_answered now ms q account)
    as (_ & _ & _ & Hch & Hsame).
  destruct (adjust_all ms (default [] (disabledModels account)) false Hnd)
    as (A1 & _ & _ & _ & A5).
  specialize (A1 name info Hin Hlow).
  destruct (foldl adjust (default [] (disabledModels account), false) ms)
    as [dl ch] eqn:E. cbn [fst snd] in *. destruct ch.
  - destruct (Hch accs i Ha Hf eq_refl) as [_ Ht]. rewrite Ht in Ht0.
    destruct (findIndex (refresh_token account) (tokens q)) as [j|] eqn:Hj.
    + apply TokenManagerFacts.findIndex_Some in Hj as (tj & Htj & Hrtj).
      apply list_elem_of_lookup in Ht0 as [j' Hj'].
      assert (j' = j) as ->.
      { apply (NoDup_lookup _ j' j (refresh_token account) Hrts).
        - rewrite <- (alter_refresh dl j (tokens q)).
          by rewrite list_lookup_fmap, Hj'; simpl; rewrite Hrt.
        - by rewrite list_lookup_fmap, Htj; simpl; rewrite Hrtj. }
      rewrite list_lookup_alter_eq, Htj in Hj'. simpl in Hj'.
      by injection Hj' as <-.
    + apply TokenManagerFacts.findIndex_None in Hj. destruct Hj.
      rewrite <- Hrt. apply list_elem_of_fmap. by exists t0.
  - destruct (Hsame eq_refl) as [_ Ht]. rewrite Ht in Ht0.
    destruct (A5 eq_refl) as [-> _].
    by rewrite (Hsync t0 Ht0 Hrt).
Qed.

Lemma low_quota_blocks_selection_witness :
  selections Scenarios.three_requests MoreScenarios.checked_pool !! O
  = Some (Some Scenarios.credB) /\
  refresh_token Scenarios.credB <> refresh_token MoreScenarios.accountA.
Proof.
  split; [by vm_compute|].
  apply (low_quota_blocks_selection 2000000 MoreScenarios.report
           MoreScenarios.monitor0 MoreScenarios.accountA
           [strip_session Scenarios.credA; strip_session Scenarios.credB] O
           "gemini-2.5-pro" (Some (2 # 100)%Q)
           eq_refl ltac:(by vm_compute)
           ltac:(apply (bool_decide_unpack _); by vm_compute)
           ltac:(apply (bool_decide_unpack _); by vm_compute)
           ltac:(intros t Ht Hrt; simpl in Ht;
                 apply elem_of_cons in Ht as [-> | Ht]; [reflexivity|];
                 apply list_elem_of_singleton in Ht as ->; discriminate Hrt)
           ltac:(apply list_elem_of_here) eq_refl
           MoreScenarios.checked_pool Scenarios.three_requests O
           (Scenarios.world_at 2000000 0) (Some "gemini-2.5-pro")
           Scenarios.credB).
  - reflexivity.
  - reflexivity.
  - by vm_compute.
  - by vm_compute.
Defined.


Lemma checkQuotaForAccount_keeps now r q account :
  but_disabledModels <$> tokens (checkQuotaForAccount now r q account)
  = but_disabledModels <$> tokens q /\
  fmap (M := list) but_disabledModels <$> accounts (checkQuotaForAccount now r q account)
  = fmap but_disabledModels <$> accounts q /\
  isChecking (checkQuotaForAccount now r q account) = isChecking q /\
  forall k, is_Some (quotaCache q !! k) ->
            is_Some (quotaCache (checkQuotaForAccount now r q account) !! k).
Proof.
  destruct r as [| |ms]; [done|done|].
  destruct (checkQuotaForAccount_answered now ms q account)
    as (Hc & Hi & [[Ha Ht]|(accs & i & Ha & Hf & Ha' & Ht')] & _).
  - rewrite Ha, Ht, Hc, Hi. split_and!; try done.
    intros k Hk. destruct (decide (k = credentialKey account)) as [->|Hne].
    + by rewrite lookup_insert_eq.
    + by rewrite lookup_insert_ne.
  - rewrite Ha', Ht', Hc, Hi, Ha. split_and!; try done.
    + destruct (findIndex _ (tokens q)); [apply alter_but|done].
    + simpl. by rewrite alter_but.
    + intros k Hk. destruct (decide (k = credentialKey account)) as [->|Hne].
      * by rewrite lookup_insert_eq.
      * by rewrite lookup_insert_ne.
Qed.

Lemma check_from_keeps visits accounts0 : forall i q,
  but_disabledModels <$> tokens (check_from visits i accounts0 q)
  = but_disabledModels <$> tokens q /\
  fmap (M := list) but_disabledModels <$> accounts (check_from visits i accounts0 q)
  = fmap but_disabledModels <$> accounts q /\
  isChecking (check_from visits i accounts0 q) = isChecking q /\
  forall k, is_Some (quotaCache q !! k) ->
            is_Some (quotaCache (check_from visits i accounts0 q) !! k).
Proof.
  induction accounts0 as [|account rest IH]; intros i q; [done|].
  simpl.
  destruct (negb (JsString.truthy (credentialKey account))); [done|].
  destruct (shouldSkipCheck _ q _); [done|].
  destruct (IH (S i) (checkQuotaForAccount (check_at (visits i))
                        (reply (visits i)) q account))
    as (H1 & H2 & H3 & H4).
  destruct (checkQuotaForAccount_keeps (check_at (visits i))
              (reply (visits i)) q account) as (K1 & K2 & K3 & K4).
  split_and!; [congruence|congruence|congruence|].
  intros k Hk. by apply H4, K4.
Qed.

(** X12.  A round of the periodic check changes nothing of the credentials
    but their [disabledModels]: in the file and in the list of the token
    manager the same credentials stand in the same order with every other
    field as before; and no entry leaves the monitor's cache. *)
Theorem checkAllQuotas_keeps (visits : nat -> visit) (q : monitor) :
  but_disabledModels <$> tokens (checkAllQuotas visits q)
  = but_disabledModels <$> tokens q /\
  fmap (M := list) but_disabledModels <$> accounts (checkAllQuotas visits q)
  = fmap but_disabledModels <$> accounts q /\
  isChecking (checkAllQuotas visits q) = isChecking q /\
  forall k, is_Some (quotaCache q !! k) ->
            is_Some (quotaCache (checkAllQuotas visits q) !! k).
Proof.
  unfold checkAllQuotas. destruct (isChecking q) eqn:Hc; [by rewrite Hc|].
  destruct (accounts q) as [[|a accs]|] eqn:Ha; try (by rewrite Hc, Ha).
  rewrite <- Hc, <- Ha. apply check_from_keeps.
Qed.

(** X13.  A check settles the list: a second check of the account as the
    file now has it, against the same report, writes nothing to the file
    or to the list of the token manager. *)
Theorem second_check_writes_nothing (now now' : Z) (ms : quotas) (q : monitor)
        (account account' : token) (accs : list token) (i : nat) :
  accounts q = Some accs ->
  accs !! i = Some account ->
  findIndex (refresh_token account) accs = Some i ->
  NoDup ms.*1 ->
  NoDup (default [] (disabledModels account)) ->
  accounts (checkQuotaForAccount now (QuotaModels ms) q account) ≫= (.!! i)
  = Some account' ->
  accounts (checkQuotaForAccount now' (QuotaModels ms)
              (checkQuotaForAccount now (QuotaModels ms) q account) account')
  = accounts (checkQuotaForAccount now (QuotaModels ms) q account) /\
  tokens (checkQuotaForAccount now' (QuotaModels ms)
            (checkQuotaForAccount now (QuotaModels ms) q account) account')
  = tokens (checkQuotaForAccount now (QuotaModels ms) q account).
Proof.
  intros Ha Hi Hf Hnd Hdl Hacc.
  destruct (checkQuotaForAccount_answered now ms q account)
    as (_ & _ & _ & Hch & Hsame).
  destruct (adjust_all ms (default [] (disabledModels account)) false Hnd)
    as (A1 & A2 & _ & _ & A5).
  assert (default [] (disabledModels account')
          = (foldl adjust (default [] (disabledModels account), false) ms).1)
    as Hdl'.
  { destruct (foldl adjust (default [] (disabledModels account), false) ms)
      as [dl ch] eqn:E. cbn [fst snd] in *. destruct ch.
    - destruct (Hch accs i Ha Hf eq_refl) as [Ha' _]. rewrite Ha' in Hacc.
      simpl in Hacc. rewrite list_lookup_alter_eq, Hi in Hacc.
      by injection Hacc as <-.
    - destruct (Hsame eq_refl) as [Ha' _]. rewrite Ha', Ha in Hacc.
      simpl in Hacc. rewrite Hi in Hacc. injection Hacc as <-.
      by destruct (A5 eq_refl) as [-> _]. }
  destruct (checkQuotaForAccount_answered now' ms
              (checkQuotaForAccount now (QuotaModels ms) q account) account')
    as (_ & _ & _ & _ & Hsame').
  apply Hsame'. rewrite Hdl'.
  rewrite (adjust_settled ms _ false); [done|].
  intros n inf Hin. split.
  - intros Hlow. by apply (A1 n inf).
  - intros Hlow. by apply (A2 n inf).
Qed.

Lemma second_check_writes_nothing_witness :
  accounts (checkQuotaForAccount 3000000 (QuotaModels MoreScenarios.report)
              (checkQuotaForAccount 2000000 (QuotaModels MoreScenarios.report)
                 MoreScenarios.monitor0 MoreScenarios.accountA)
              (set_disabledModels ["gemini-2.5-pro"; "claude-sonnet-4-5"]
                 MoreScenarios.accountA))
  = accounts (checkQuotaForAccount 2000000 (QuotaModels MoreScenarios.report)
                MoreScenarios.monitor0 MoreScenarios.accountA).
Proof.
  apply (second_check_writes_nothing 2000000 3000000 MoreScenarios.report
           MoreScenarios.monitor0 MoreScenarios.accountA
           (set_disabledModels ["gemini-2.5-pro"; "claude-sonnet-4-5"]
              MoreScenarios.accountA)
           [strip_session Scenarios.credA; strip_session Scenarios.credB] O).
  - reflexivity.
  - reflexivity.
  - by vm_compute.
  - apply (bool_decide_unpack _). by vm_compute.
  - apply NoDup_nil_2.
  - by vm_compute.
Defined.


(** X14.  After a check of an account that the quota query answered, the
    monitor's cache and the file agree on every reported model:
    [isModelAvailable] holds of it exactly when the account's entry does
    not list it as disabled (the list having had no repetition). *)
Theorem cache_agrees_with_file (now : Z) (ms : quotas) (q : monitor)
        (account account' : token) (accs : list token) (i : nat) :
  accounts q = Some accs ->
  accs !! i = Some account ->
  findIndex (refresh_token account) accs = Some i ->
  NoDup ms.*1 ->
  NoDup (default [] (disabledModels account)) ->
  accounts (checkQuotaForAccount now (QuotaModels ms) q account) ≫= (.!! i)
  = Some account' ->
  forall name info,
    (name, info) ∈ ms ->
    isModelAvailable (checkQuotaForAccount now (QuotaModels ms) q account)
                     (credentialKey account) name = negb (low info) /\
    (isModelAvailable (checkQuotaForAccount now (QuotaModels ms) q account)
                      (credentialKey account) name = true
     <-> name ∉ default [] (disabledModels account')).
Proof.
  intros Ha Hi Hf Hnd Hdl Hacc name info Hin.
  destruct (checkQuotaForAccount_answered now ms q account)
    as (Hc & _ & _ & Hch & Hsame).
  assert (isModelAvailable (checkQuotaForAccount now (QuotaModels ms) q account)
                           (credentialKey account) name = negb (low info))
    as Hav.
  { unfold isModelAvailable. rewrite Hc, lookup_insert_eq. cbn [models].
    by rewrite (model_quota_reported ms name info Hnd Hin). }
  split; [done|]. rewrite Hav.
  destruct (adjust_all ms (default [] (disabledModels account)) false Hnd)
    as (A1 & A2 & _ & _ & A5).
  assert (default [] (disabledModels account')
          = (foldl adjust (default [] (disabledModels account), false) ms).1)
    as ->.
  { destruct (foldl adjust (default [] (disabledModels account), false) ms)
      as [dl ch] eqn:E. cbn [fst snd] in *. destruct ch.
    - destruct (Hch accs i Ha Hf eq_refl) as [Ha' _]. rewrite Ha' in Hacc.
      simpl in Hacc. rewrite list_lookup_alter_eq, Hi in Hacc.
      by injection Hacc as <-.
    - destruct (Hsame eq_refl) as [Ha' _]. rewrite Ha', Ha in Hacc.
      simpl in Hacc. rewrite Hi in Hacc. injection Hacc as <-.
      by destruct (A5 eq_refl) as [-> _]. }
  destruct (low info) eqn:Hlow; simpl.
  - split; [done|]. intros H. destruct H. by apply (A1 name info).
  - split; [|done]. intros _. by apply (A2 name info).
Qed.

Lemma cache_agrees_with_file_witness :
  isModelAvailable
    (checkQuotaForAccount 2000000 (QuotaModels MoreScenarios.report)
       MoreScenarios.monitor0 MoreScenarios.accountA)
    (credentialKey MoreScenarios.accountA) "gemini-2.5-flash"
  = negb (low (Some (1 # 2)%Q)) /\
  (isModelAvailable
     (checkQuotaForAccount 2000000 (QuotaModels MoreScenarios.report)
        MoreScenarios.monitor0 MoreScenarios.accountA)
     (credentialKey MoreScenarios.accountA) "gemini-2.5-flash" = true
   <-> "gemini-2.5-flash" ∉ ["gemini-2.5-pro"; "claude-sonnet-4-5"]).
Proof.
  apply (cache_agrees_with_file 2000000 MoreScenarios.report
           MoreScenarios.monitor0 MoreScenarios.accountA
           (set_disabledModels ["gemini-2.5-pro"; "claude-sonnet-4-5"]
              MoreScenarios.accountA)
           [strip_session Scenarios.credA; strip_session Scenarios.credB] O
           eq_refl eq_refl).
  - by vm_compute.
  - apply (bool_decide_unpack _). by vm_compute.
  - apply NoDup_nil_2.
  - by vm_compute.
  - apply list_elem_of_further, list_elem_of_here.
Defined.


End QuotaMonitorFacts.

(** ** The cooldown registry across a restart *)

Module CooldownAdminFacts.
Import ModelCooldown CooldownAdmin ModelCooldownFacts.

(** The loop of [initialize] over records with distinct keys, from empty
    maps: what it leaves under a key. *)
Lemma restore_all now file (data : list info) :
  NoDup (key_of <$> data) ->
  forall k,
    (forall i', cooldownMap (foldl (restore now) (Registry ∅ ∅ file) data) !! k
                = Some i' <->
                exists i, i ∈ data /\ key_of i = k /\ now < resetTimestamp i /\
                          i' = restored now i) /\
    (forall t, timerMap (foldl (restore now) (Registry ∅ ∅ file) data) !! k
               = Some t <->
               exists i, i ∈ data /\ key_of i = k /\ now < resetTimestamp i /\
                         t = Timer (timeout_due now (resetTimestamp i - now))
                                   (projectId i) (model i)).
Proof.
  induction data as [|x data IH] using rev_ind; intros Hnd k.
  { simpl. split; intros ?; (split; [done|]);
      intros (i & Hi & _); by apply elem_of_nil in Hi. }
  rewrite fmap_app in Hnd. apply NoDup_app in Hnd as (Hnd & Hx & _).
  rewrite foldl_app. simpl. destruct (IH Hnd k) as [IHc IHt].
  assert (forall i, i ∈ data -> key_of i <> key_of x) as Hother.
  { intros i Hi Heq. apply (Hx (key_of i)).
    - apply list_elem_of_fmap. by exists i.
    - rewrite Heq. apply list_elem_of_here. }
  unfold restore at 1 3. destruct (resetTimestamp x <=? now) eqn:Hexp.
  - apply Z.leb_le in Hexp. split.
    + intros i'. rewrite IHc. split.
      * intros (i & Hi & H). exists i. split; [|done].
        apply elem_of_app. by left.
      * intros (i & Hi & Hk & Hlive & ->). exists i.
        apply elem_of_app in Hi as [Hi | Hi]; [done|].
        apply list_elem_of_singleton in Hi as ->. lia.
    + intros t. rewrite IHt. split.
      * intros (i & Hi & H). exists i. split; [|done].
        apply elem_of_app. by left.
      * intros (i & Hi & Hk & Hlive & ->). exists i.
        apply elem_of_app in Hi as [Hi | Hi]; [done|].
        apply list_elem_of_singleton in Hi as ->. lia.
  - apply Z.leb_gt in Hexp.
    split.
    + intros i'. rewrite setCooldownInternal_lookup by done.
      fold (key_of x). case_decide as Hk.
      * split.
        -- intros [= <-]. exists x. split; [|done].
           apply elem_of_app. right. apply list_elem_of_here.
        -- intros (i & Hi & Hki & Hlive & ->).
           apply elem_of_app in Hi as [Hi | Hi].
           ++ destruct (Hother i Hi). congruence.
           ++ by apply list_elem_of_singleton in Hi as ->.
      * rewrite IHc. split.
        -- intros (i & Hi & H). exists i. split; [|done].
           apply elem_of_app. by left.
        -- intros (i & Hi & Hki & Hlive & ->). exists i.
           apply elem_of_app in Hi as [Hi | Hi]; [done|].
           apply list_elem_of_singleton in Hi as ->. done.
    + intros t. rewrite setCooldownInternal_timer by done.
      fold (key_of x). case_decide as Hk.
      * split.
        -- intros [= <-]. exists x. split; [|done].
           apply elem_of_app. right. apply list_elem_of_here.
        -- intros (i & Hi & Hki & Hlive & ->).
           apply elem_of_app in Hi as [Hi | Hi].
           ++ destruct (Hother i Hi). congruence.
           ++ by apply list_elem_of_singleton in Hi as ->.
      * rewrite IHt. split.
        -- intros (i & Hi & H). exists i. split; [|done].
           apply elem_of_app. by left.
        -- intros (i & Hi & Hki & Hlive & ->). exists i.
           apply elem_of_app in Hi as [Hi | Hi]; [done|].
           apply list_elem_of_singleton in Hi as ->. done.
Qed.

Lemma saved_records (M : gmap string info) :
  (forall k i, M !! k = Some i -> key_of i = k) ->
  NoDup (key_of <$> (map_to_list M).*2) /\
  forall i k, (i ∈ (map_to_list M).*2 /\ key_of i = k) <-> M !! k = Some i.
Proof.
  intros Hkeyed. split.
  - assert (key_of <$> (map_to_list M).*2 = (map_to_list M).*1) as ->.
    { rewrite <- list_fmap_compose. apply list_fmap_ext.
      intros j [k i] Hj. simpl. apply Hkeyed.
      by apply elem_of_map_to_list, list_elem_of_lookup_2 with j. }
    apply NoDup_fst_map_to_list.
  - intros i k. split.
    + intros [Hi Hk]. apply list_elem_of_fmap in Hi as ([k' i'] & -> & Hi).
      apply elem_of_map_to_list in Hi. simpl in *.
      by rewrite <- Hk, (Hkeyed k' i' Hi).
    + intros Hi. split; [|by apply Hkeyed].
      apply list_elem_of_fmap. exists (k, i). split; [done|].
      by apply elem_of_map_to_list.
Qed.

Lemma initialize_maps now r :
  cooldownMap (initialize now r) = cooldownMap (foldl (restore now) r (saved r)) /\
  timerMap (initialize now r) = timerMap (foldl (restore now) r (saved r)).
Proof. unfold initialize. by destruct (existsb _ _). Qed.

(** What a new process finds under a key once it has initialised from the
    file of a registry that was in step with its file. *)
Lemma restart_lookup now r k :
  records_keyed r -> in_sync r ->
  (forall i', cooldownMap (initialize now (restart r)) !! k = Some i' <->
              exists i, cooldownMap r !! k = Some i /\ now < resetTimestamp i /\
                        i' = restored now i) /\
  (forall t, timerMap (initialize now (restart r)) !! k = Some t <->
             exists i, cooldownMap r !! k = Some i /\ now < resetTimestamp i /\
                       t = Timer (timeout_due now (resetTimestamp i - now))
                                 (projectId i) (model i)).
Proof.
  intros Hkeyed Hsync. destruct (initialize_maps now (restart r)) as [-> ->].
  unfold restart. cbn [saved]. rewrite Hsync.
  destruct (saved_records (cooldownMap r) Hkeyed) as [Hnd Hin].
  destruct (restore_all now (map_to_list (cooldownMap r)).*2
              (map_to_list (cooldownMap r)).*2 Hnd k) as [Hc Ht].
  split.
  - intros i'. rewrite Hc. split.
    + intros (i & Hi & Hk & H). exists i. split; [|done]. by apply Hin.
    + intros (i & Hi & H). apply Hin in Hi as [Hi Hk]. by exists i.
  - intros t. rewrite Ht. split.
    + intros (i & Hi & Hk & H). exists i. split; [|done]. by apply Hin.
    + intros (i & Hi & H). apply Hin in Hi as [Hi Hk]. by exists i.
Qed.

Lemma isOnCooldown_answer now r p m :
  (isOnCooldown now r p m).2 = true <->
  exists i, cooldownMap r !! buildKey p m = Some i /\ now < resetTimestamp i.
Proof.
  unfold isOnCooldown. destruct (cooldownMap r !! buildKey p m) as [i|].
  - destruct (resetTimestamp i <=? now) eqn:E; simpl.
    + apply Z.leb_le in E. split; [done|]. intros (i' & [= <-] & H). lia.
    + apply Z.leb_gt in E. split; [|done]. intros _. by exists i.
  - simpl. split; [done|]. by intros (i & H & _).
Qed.

Lemma setCooldownInternal_records_keyed now r p m ts reason save :
  records_keyed r ->
  records_keyed (setCooldownInternal now r p m ts reason save).
Proof.
  intros Hwf k i. destruct (Z.lt_ge_cases now ts) as [Hlt|Hge].
  - rewrite setCooldownInternal_lookup by done.
    case_decide as Hk; [by intros [= <-]|apply Hwf].
  - rewrite setCooldownInternal_expired by lia. simpl.
    rewrite lookup_delete. case_decide; [done|apply Hwf].
Qed.

Lemma cool_group_records_keyed now r p models ts reason :
  records_keyed r -> records_keyed (cool_group now r p models ts reason).
Proof.
  unfold cool_group. revert r.
  induction models as [|x models IH]; intros r Hwf; simpl; [done|].
  by apply IH, setCooldownInternal_records_keyed.
Qed.

Lemma setCooldown_restorable now reply r p m ts reason has_token :
  records_keyed r -> now < ts ->
  records_keyed (setCooldown now reply r p m ts reason has_token) /\
  in_sync (setCooldown now reply r p m ts reason has_token).
Proof.
  intros Hwf Hlt.
  destruct (setCooldown_cases now reply r p m ts reason has_token)
    as [->|(g & Hg & ->)].
  - split; [by apply setCooldownInternal_records_keyed|].
    unfold setCooldownInternal.
    by rewrite (proj2 (Z.ltb_lt 0 (ts - now))) by lia.
  - split; [|done].
    by apply (cool_group_records_keyed now r p (getModelsInGroup g) ts reason).
Qed.

Lemma removeCooldown_restorable r p m :
  records_keyed r ->
  records_keyed (removeCooldown r p m) /\ in_sync (removeCooldown r p m).
Proof.
  intros Hwf. split; [|done]. intros k i. unfold removeCooldown. simpl.
  rewrite lookup_delete. case_decide; [done|apply Hwf].
Qed.

Lemma empty_records_keyed : records_keyed empty_registry.
Proof.
  intros k i H. unfold empty_registry in H. simpl in H.
  by rewrite lookup_empty in H.
Qed.

Lemma live_registry_near :
  forall k i, cooldownMap Scenarios.live_registry !! k = Some i ->
              resetTimestamp i - 1000 <= TIMEOUT_MAX.
Proof.
  intros k i. unfold Scenarios.live_registry.
  destruct (Z.lt_ge_cases 0 60000) as [Hlt|Hge]; [|lia].
  rewrite setCooldownInternal_lookup by lia.
  case_decide; [|by intros Hk; simpl in Hk; rewrite lookup_empty in Hk].
  intros [= <-]. unfold TIMEOUT_MAX. simpl. lia.
Qed.

Lemma live_registry_restorable :
  records_keyed Scenarios.live_registry /\ in_sync Scenarios.live_registry.
Proof.
  split; [|done].
  apply setCooldownInternal_records_keyed, empty_records_keyed.
Qed.

(** The timers of a new process sit under the keys of their pairs. *)
Lemma restart_timers_keyed now r :
  records_keyed r -> in_sync r -> timers_keyed (initialize now (restart r)).
Proof.
  intros Hkeyed Hsync k t Ht.
  destruct (restart_lookup now r k Hkeyed Hsync) as [_ Htimer].
  apply Htimer in Ht as (i & Hi & _ & ->). by apply Hkeyed.
Qed.

(** A record that is live when the new process starts, with a delay
    [setTimeout] takes as it is, is restored with its timer due at the
    deadline. *)
Lemma restart_armed now r k i :
  records_keyed r -> in_sync r ->
  cooldownMap r !! k = Some i ->
  now < resetTimestamp i -> resetTimestamp i - now <= TIMEOUT_MAX ->
  armed (initialize now (restart r)) k (resetTimestamp i).
Proof.
  intros Hkeyed Hsync Hi Hlive Hnear.
  destruct (restart_lookup now r k Hkeyed Hsync) as [Hc Ht]. split.
  - exists (restored now i). split; [|done]. apply Hc. by exists i.
  - eexists. split; [apply Ht; by exists i|]. simpl.
    by apply timeout_due_near.
Qed.

Lemma removeCooldown_settled now' r r' p m :
  (forall i, cooldownMap r' !! buildKey p m = Some i ->
             resetTimestamp i <= now') ->
  settled_until now' r r' -> settled_until now' r (removeCooldown r' p m).
Proof.
  intros Hexpired (Hwf & Hdue & Hlive). split_and!.
  - by apply removeCooldown_timers_keyed.
  - intros k t. simpl. rewrite !lookup_delete.
    case_decide; [done|apply Hdue].
  - intros k. rewrite <- Hlive. simpl. rewrite lookup_delete.
    case_decide as Hk; [|done]. subst k. split.
    + by intros (i' & ? & _).
    + intros (i' & Hi' & Hlt). specialize (Hexpired i' Hi'). lia.
Qed.

Lemma passive_settled now' r r' a :
  passive a = true -> instant a <= now' ->
  settled_until now' r r' -> settled_until now' r (act r' a).
Proof.
  intros Hpassive Hle Hs.
  destruct a as [t0 p m|w model exclude mgr|t0 reply p m ts reason tok|t0 key];
    try done; simpl in *.
  - unfold isOnCooldown.
    destruct (cooldownMap r' !! buildKey p m) as [i|] eqn:Hi; [|done].
    destruct (resetTimestamp i <=? t0) eqn:Hexp; [|done]. simpl.
    apply Z.leb_le in Hexp. apply removeCooldown_settled; [|done].
    intros i' Hi'. rewrite Hi in Hi'. injection Hi' as <-. lia.
  - destruct (timerMap r' !! key) as [t|] eqn:Ht; [|done].
    destruct (dueAt t <=? t0) eqn:Hexp; [|done].
    apply Z.leb_le in Hexp. unfold fire. rewrite Ht.
    destruct Hs as (Hwf & Hdue & Hlive).
    apply removeCooldown_settled; [|done].
    rewrite (Hwf key t Ht). intros i' Hi'.
    destruct (Hdue key t Ht) as (i & Hi & Heq).
    rewrite Hi in Hi'. injection Hi' as <-. lia.
Qed.

Lemma passives_settled now' r r' between :
  Forall (fun a => passive a = true /\ instant a <= now') between ->
  settled_until now' r r' -> settled_until now' r (foldl act r' between).
Proof.
  intros Hall. revert r'.
  induction Hall as [|a between [Ha Hle] _ IH]; intros r' Hs; simpl; [done|].
  by apply IH, passive_settled.
Qed.

(** X15.  A restart is transparent to cooldown queries.  When every record
    sits under the key of its own pair, the file holds the records of the
    map and no deadline lies more than [TIMEOUT_MAX] milliseconds after
    the start of the new process: every record the new process restored
    has its timer, due at the record's deadline; and whatever queries and
    timer expiries happen in the new process up to an instant, at that
    instant it answers [isOnCooldown] as the registry of the old process
    does. *)
Theorem restart_keeps_cooldowns (now now' : Z) (r : registry) (p m : string)
        (between : list action) :
  records_keyed r -> in_sync r -> now <= now' ->
  (forall k i, cooldownMap r !! k = Some i ->
               resetTimestamp i - now <= TIMEOUT_MAX) ->
  Forall (fun a => passive a = true /\ instant a <= now') between ->
  (isOnCooldown now' (foldl act (initialize now (restart r)) between) p m).2
  = (isOnCooldown now' r p m).2 /\
  forall k i,
    cooldownMap (initialize now (restart r)) !! k = Some i ->
    exists t, timerMap (initialize now (restart r)) !! k = Some t /\
              dueAt t = resetTimestamp i /\
              buildKey (timerProject t) (timerModel t) = k.
Proof.
  intros Hkeyed Hsync Hle Hnear Hbetween.
  assert (forall k i,
             cooldownMap (initialize now (restart r)) !! k = Some i ->
             exists t, timerMap (initialize now (restart r)) !! k = Some t /\
                       dueAt t = resetTimestamp i /\
                       buildKey (timerProject t) (timerModel t) = k) as Htimers.
  { intros k i' Hi'.
    destruct (restart_lookup now r k Hkeyed Hsync) as [Hc Ht].
    apply Hc in Hi' as (i & Hi & Hnow & ->).
    destruct (restart_armed now r k i Hkeyed Hsync Hi Hnow (Hnear k i Hi))
      as [_ (t & Ht' & Hdue)].
    exists t. split; [done|]. split; [done|].
    by apply (restart_timers_keyed now r Hkeyed Hsync). }
  split; [|done].
  assert (settled_until now' r (initialize now (restart r))) as Hs.
  { split_and!.
    - by apply restart_timers_keyed.
    - intros k t Ht.
      destruct (restart_lookup now r k Hkeyed Hsync) as [Hc Htimer].
      apply Htimer in Ht as (i & Hi & Hnow & ->).
      exists (restored now i). split; [apply Hc; by exists i|]. simpl.
      apply timeout_due_near; [done|by apply (Hnear k)].
    - intros k. destruct (restart_lookup now r k Hkeyed Hsync) as [Hc _].
      split.
      + intros (i' & Hi' & Hlive). apply Hc in Hi' as (i & Hi & Hnow & ->).
        by exists i.
      + intros (i & Hi & Hlive). exists (restored now i). split; [|done].
        apply Hc. exists i. split; [done|]. split; [lia|done]. }
  destruct (passives_settled now' r _ between Hbetween Hs) as (_ & _ & Hlive).
  apply Bool.eq_iff_eq_true. rewrite !isOnCooldown_answer. apply Hlive.
Qed.

Lemma restart_keeps_cooldowns_witness :
  (isOnCooldown 30000
     (foldl act (initialize 1000 (restart Scenarios.live_registry))
            [ Query 2000 "B" "gemini-2.5-pro";
              Due 3000 (buildKey "A" "gemini-2.5-pro") ])
     "A" "gemini-2.5-pro").2
  = (isOnCooldown 30000 Scenarios.live_registry "A" "gemini-2.5-pro").2 /\
  forall k i,
    cooldownMap (initialize 1000 (restart Scenarios.live_registry)) !! k
    = Some i ->
    exists t, timerMap (initialize 1000 (restart Scenarios.live_registry)) !! k
              = Some t /\
              dueAt t = resetTimestamp i /\
              buildKey (timerProject t) (timerModel t) = k.
Proof.
  apply (restart_keeps_cooldowns 1000 30000 Scenarios.live_registry
           "A" "gemini-2.5-pro").
  - apply live_registry_restorable.
  - apply live_registry_restorable.
  - lia.
  - apply live_registry_near.
  - repeat constructor; simpl; lia.
Defined.


(** X16.  Removing is final: after [removeCooldown] the pair is not on
    cooldown, nor is it after a restart from the file; and after [clearAll]
    a restart finds nothing to restore. *)
Theorem removal_survives_restart (now now' : Z) (r : registry) (p m : string) :
  records_keyed r ->
  (isOnCooldown now' (removeCooldown r p m) p m).2 = false /\
  (isOnCooldown now' (initialize now (restart (removeCooldown r p m))) p m).2
  = false /\
  cooldownMap (initialize now (restart (clearAll r))) = ∅ /\
  timerMap (initialize now (restart (clearAll r))) = ∅.
Proof.
  intros Hkeyed. destruct (removeCooldown_restorable r p m Hkeyed) as [Hk Hs].
  assert (cooldownMap (removeCooldown r p m) !! buildKey p m = None) as Hgone.
  { unfold removeCooldown. simpl. apply lookup_delete_eq. }
  split_and!.
  - by rewrite isOnCooldown_absent.
  - apply Bool.not_true_is_false. rewrite isOnCooldown_answer.
    intros (i' & Hi' & _).
    destruct (restart_lookup now (removeCooldown r p m) (buildKey p m) Hk Hs)
      as [Hc _].
    apply Hc in Hi' as (i & Hi & _). congruence.
  - unfold initialize, restart, clearAll, saveToFile. simpl.
    by rewrite map_to_list_empty.
  - unfold initialize, restart, clearAll, saveToFile. simpl.
    by rewrite map_to_list_empty.
Qed.

Lemma removal_survives_restart_witness :
  (isOnCooldown 30000
     (removeCooldown Scenarios.live_registry "A" "gemini-2.5-pro")
     "A" "gemini-2.5-pro").2 = false /\
  (isOnCooldown 30000
     (initialize 1000
        (restart (removeCooldown Scenarios.live_registry "A" "gemini-2.5-pro")))
     "A" "gemini-2.5-pro").2 = false /\
  cooldownMap (initialize 1000 (restart (clearAll Scenarios.live_registry))) = ∅ /\
  timerMap (initialize 1000 (restart (clearAll Scenarios.live_registry))) = ∅.
Proof.
  apply (removal_survives_restart 1000 30000 Scenarios.live_registry
           "A" "gemini-2.5-pro").
  apply live_registry_restorable.
Defined.


(** X17.  A cooldown outlives a restart: after [setCooldown] with a
    deadline in the future and at most [TIMEOUT_MAX] milliseconds ahead, a
    new process initialised from the file before the deadline answers
    [isOnCooldown] with true for the pair at every instant from its
    initialisation up to the deadline, whatever queries, selections, timer
    expiries and further cooldowns (each with a deadline that is not
    earlier and at most [TIMEOUT_MAX] milliseconds ahead of its call)
    happen in it before the deadline. *)
Theorem cooldown_survives_restart (now0 now1 now2 : Z)
        (reply : option (gmap string (option spec_float))) (r : registry)
        (p m : string) (ts : Z) (reason : string) (has_token : bool)
        (between : list action) :
  records_keyed r -> now0 < ts -> ts - now0 <= TIMEOUT_MAX ->
  now0 <= now1 -> now1 <= now2 -> now2 < ts ->
  Forall (before ts) between ->
  (isOnCooldown now2
     (foldl act
        (initialize now1
           (restart (setCooldown now0 reply r p m ts reason has_token)))
        between) p m).2
  = true.
Proof.
  intros Hkeyed H0 Hnear H01 H1 H2 Hbetween.
  destruct (setCooldown_restorable now0 reply r p m ts reason has_token Hkeyed H0)
    as [Hk Hs].
  destruct (setCooldown_armed now0 reply r p m ts reason has_token H0 Hnear)
    as [(i & Hi & Hts) _].
  pose proof (restart_armed now1 _ (buildKey p m) i Hk Hs Hi) as Harmed.
  rewrite Hts in Harmed.
  destruct (acts_keep_armed
              (initialize now1
                 (restart (setCooldown now0 reply r p m ts reason has_token)))
              between (buildKey p m) ts Hbetween)
    as (_ & ts' & Hts' & Harmed').
  { by apply restart_timers_keyed. }
  { exists ts. split; [lia|]. apply Harmed; lia. }
  assert (now2 < ts') as H2' by lia.
  by rewrite (isOnCooldown_armed _ _ p m ts' H2' Harmed').
Qed.

Lemma cooldown_survives_restart_witness :
  (isOnCooldown 30000
     (foldl act
        (initialize 1000
           (restart (setCooldown 0 None empty_registry "A" "gemini-2.5-pro"
                                 60000 "RESOURCE_EXHAUSTED" false)))
        [ Query 2000 "A" "gemini-2.5-pro";
          Put 3000 None "A" "gemini-2.5-pro" 90000 "RESOURCE_EXHAUSTED" false;
          Due 4000 (buildKey "A" "gemini-2.5-pro") ])
     "A" "gemini-2.5-pro").2 = true.
Proof.
  apply (cooldown_survives_restart 0 1000 30000 None empty_registry
           "A" "gemini-2.5-pro" 60000 "RESOURCE_EXHAUSTED" false).
  - apply empty_records_keyed.
  - lia.
  - unfold TIMEOUT_MAX. lia.
  - lia.
  - lia.
  - lia.
  - repeat constructor; unfold TIMEOUT_MAX; simpl; lia.
Defined.


(** X18.  [getCooldownInfo] and [isOnCooldown] agree: they leave the same
    registry, one reports a record exactly when the other answers true,
    and a reported record is the stored one with a positive [remainingMs]
    that reaches the deadline. *)
Theorem getCooldownInfo_agrees (now : Z) (r : registry) (p m : string) :
  (getCooldownInfo now r p m).1 = (isOnCooldown now r p m).1 /\
  (is_Some (getCooldownInfo now r p m).2 <-> (isOnCooldown now r p m).2 = true) /\
  forall v, (getCooldownInfo now r p m).2 = Some v ->
            0 < remainingMs v /\
            now + remainingMs v = infoResetTimestamp v /\
            exists i, cooldownMap r !! buildKey p m = Some i /\
                      infoProjectId v = projectId i /\
                      infoModel v = model i /\
                      infoResetTimestamp v = resetTimestamp i /\
                      infoReason v = reason i.
Proof.
  unfold getCooldownInfo, isOnCooldown.
  destruct (cooldownMap r !! buildKey p m) as [i|]; simpl.
  - destruct (resetTimestamp i <=? now) eqn:E; simpl.
    + split; [done|]. split; [|done]. split; [by intros [? ?]|done].
    + apply Z.leb_gt in E. split; [done|]. split; [done|].
      intros v [= <-]. simpl. split; [lia|]. split; [lia|]. by exists i.
  - split; [done|]. split; [|done]. split; [by intros [? ?]|done].
Qed.

End CooldownAdminFacts.

(** ** The shape of a cleaned schema *)

Module SchemaShapeFacts.
Import Json SchemaCleaner SchemaShape SchemaCleanerFacts.

(** Induction over a JSON value and the values it holds. *)
Lemma json_induction (P : json -> Prop) :
  P JNull -> (forall b, P (JBool b)) -> (forall n, P (JNum n)) ->
  (forall s, P (JStr s)) ->
  (forall items, Forall P items -> P (JArr items)) ->
  (forall fields, Forall (fun kv => P kv.2) fields -> P (JObj fields)) ->
  forall j, P j.
Proof.
  intros HN HB Hn Hs HA HO. fix IH 1.
  intros [|b|n|s|items|fields]; [done|done|done|done| |].
  - apply HA. induction items as [|x items IHi]; constructor; [apply IH|done].
  - apply HO. induction fields as [|[k v] fields IHf]; constructor;
      [apply IH|done].
Qed.

(** *** What the loop lets through *)

Lemma entries_ok root validations obj l :
  Forall (fun kv => forall r, cleaned (cleanObject r kv.2) = true) l ->
  forallb entry_ok (entries root validations obj l) = true.
Proof.
  induction 1 as [|[key value] rest Hv _ IH]; [done|].
  simpl in Hv. simpl. destruct (negb (has_key key obj)); [done|].
  destruct (bool_decide (key ∈ fieldsToRemove)) eqn:E1; [done|].
  destruct (in_validationFields key) eqn:E2; [done|].
  assert (kept_key key = true) as Hk.
  { unfold kept_key. by rewrite E1, E2. }
  destruct (_ && _ && root); simpl; rewrite Hk, IH; simpl; [done|].
  by rewrite (Hv false).
Qed.

Lemma assoc_elem key (fields : list (string * json)) value :
  assoc key fields = Some value -> (key, value) ∈ fields.
Proof.
  induction fields as [|[k v] rest IH]; [done|]. simpl.
  case_bool_decide as Hk.
  - intros [= <-]. subst k. apply list_elem_of_here.
  - intros H. by apply list_elem_of_further, IH.
Qed.

Lemma forallb_elem {A} (f : A -> bool) (l : list A) :
  forallb f l = true <-> forall x, x ∈ l -> f x = true.
Proof.
  induction l as [|a l IH]; simpl.
  - split; [|done]. intros _ x Hx. by apply elem_of_nil in Hx.
  - rewrite andb_true_iff, IH. split.
    + intros [Ha Hl] x Hx. apply elem_of_cons in Hx as [-> | Hx]; [done|].
      by apply Hl.
    + intros H. split.
      * apply H, list_elem_of_here.
      * intros x Hx. by apply H, list_elem_of_further.
Qed.

Lemma pruned_sub c required x : x ∈ pruned c required -> x ∈ required.
Proof.
  unfold pruned. destruct (assoc "properties" c) as [props|]; [|done].
  destruct (truthy props && is_object_type props); [|done].
  intros Hx. apply list_elem_of_In, filter_In in Hx as [Hx _].
  by apply list_elem_of_In.
Qed.

Lemma filter_again {A} (f : A -> bool) (l : list A) :
  List.filter f (List.filter f l) = List.filter f l.
Proof.
  induction l as [|a l IH]; [done|]. simpl.
  destruct (f a) eqn:E; simpl; [|done]. by rewrite E, IH.
Qed.

Lemma prune_required_ok c :
  forallb entry_ok c = true ->
  forallb entry_ok (prune_required c) = true /\
  required_ok (prune_required c) = true.
Proof.
  intros Hc. rewrite forallb_elem in Hc.
  destruct (prune_required_cases c)
    as [(required & Hreq & [[Hnil ->] | [Hne ->]]) | [Hno ->]].
  - split.
    + apply forallb_elem. intros x Hx. apply Hc.
      unfold remove_key in Hx. by apply list_elem_of_filter in Hx as [_ Hx].
    + unfold required_ok. by rewrite assoc_remove_key.
  - assert (forall x, x ∈ required -> cleaned x = true) as Hitems.
    { apply assoc_elem, Hc in Hreq. cbn [entry_ok] in Hreq.
      apply andb_true_iff in Hreq as [_ Hreq]. cbn [cleaned] in Hreq.
      by apply forallb_elem. }
    split.
    + apply forallb_elem. intros x Hx. unfold replace_key in Hx.
      apply list_elem_of_fmap in Hx as (kv & -> & Hkv).
      case_bool_decide as Hk; [|by apply Hc].
      simpl. apply forallb_elem. intros y Hy.
      by apply Hitems, (pruned_sub c).
    + unfold required_ok. rewrite !assoc_replace_key, Hreq. simpl.
      rewrite bool_decide_eq_false_2 by done. simpl.
      unfold pruned in *. destruct (assoc "properties" c) as [props|]; [|done].
      destruct (truthy props && is_object_type props); [|done].
      apply forallb_elem. intros y Hy.
      by apply list_elem_of_In, filter_In in Hy as [_ Hy].
  - split; [by apply forallb_elem|]. unfold required_ok.
    destruct (assoc "required" c) as [[| | | |required|]|] eqn:E; try done.
    by destruct (Hno required).
Qed.

(** The cleaned value has the shape. *)
Lemma cleanObject_cleaned j : forall r, cleaned (cleanObject r j) = true.
Proof.
  induction j as [|b|n|s|items IH|fields IH] using json_induction;
    intros r; try done.
  - simpl. apply forallb_elem. intros x Hx.
    apply list_elem_of_In, in_map_iff in Hx as (y & <- & Hy).
    rewrite Forall_forall in IH. by apply IH, list_elem_of_In.
  - rewrite cleanObject_obj.
    destruct (prune_required_ok
                (entries r (collectValidations fields).1
                         (collectValidations fields).2 fields)) as [H1 H2].
    { by apply entries_ok. }
    cbn [cleaned]. apply andb_true_iff. done.
Qed.

(** *** Cleaning a cleaned value *)

Lemma foldl_fixed {A B} (f : A -> B -> A) (a : A) (l : list B) :
  (forall x, x ∈ l -> f a x = a) -> foldl f a l = a.
Proof.
  induction l as [|x l IH]; intros H; [done|]. simpl.
  rewrite (H x) by apply list_elem_of_here.
  apply IH. intros y Hy. by apply H, list_elem_of_further.
Qed.

Lemma kept_key_absent c name :
  (forall kv, kv ∈ c -> kept_key kv.1 = true) ->
  name ∈ validationFields.*1 \/ name ∈ fieldsToRemove ->
  has_key name c = false.
Proof.
  intros Hc Hname. unfold has_key. apply bool_decide_eq_false_2.
  intros Hin. apply list_elem_of_fmap in Hin as (kv & -> & Hkv).
  specialize (Hc kv Hkv). unfold kept_key, in_validationFields in Hc.
  apply andb_true_iff in Hc as [H1 H2].
  apply negb_true_iff in H1, H2. apply orb_false_iff in H2 as [H2 _].
  apply bool_decide_eq_false in H1, H2. by destruct Hname.
Qed.

Lemma collectValidations_kept c :
  (forall kv, kv ∈ c -> kept_key kv.1 = true) ->
  collectValidations c = ([], c).
Proof.
  intros Hc. unfold collectValidations.
  rewrite (foldl_fixed _ ([], c) validationFields).
  - apply foldl_fixed. intros field Hf. cbn [fst snd].
    rewrite (kept_key_absent c field Hc); [done|by right].
  - intros fv Hfv. cbn [fst snd].
    rewrite (kept_key_absent c fv.1 Hc); [done|].
    left. apply list_elem_of_fmap. by exists fv.
Qed.

Lemma entries_stable r obj l :
  (forall kv, kv ∈ l -> has_key kv.1 obj = true /\ kept_key kv.1 = true /\
                        cleanObject false kv.2 = kv.2) ->
  entries r [] obj l = l.
Proof.
  induction l as [|[key value] rest IH]; intros H; [done|].
  destruct (H (key, value)) as (H1 & H2 & H3); [apply list_elem_of_here|].
  simpl in H1, H2, H3. unfold kept_key in H2.
  apply andb_true_iff in H2 as [H2 H2'].
  apply negb_true_iff in H2, H2'.
  simpl. rewrite H1, H2, H2'. simpl.
  rewrite andb_false_r. simpl. rewrite H3, IH; [done|].
  intros kv Hkv. by apply H, list_elem_of_further.
Qed.

Lemma replace_key_again key value c :
  replace_key key value (replace_key key value c) = replace_key key value c.
Proof.
  unfold replace_key. rewrite map_map. apply map_ext. intros [k v].
  cbn [fst]. destruct (decide (k = key)) as [->|Hk].
  - rewrite (bool_decide_eq_true_2 (key = key)) by done. cbn [fst].
    by rewrite (bool_decide_eq_true_2 (key = key)).
  - rewrite (bool_decide_eq_false_2 (k = key)) by done. cbn [fst].
    by rewrite (bool_decide_eq_false_2 (k = key)).
Qed.

Lemma prune_required_again c :
  prune_required (prune_required c) = prune_required c.
Proof.
  destruct (prune_required_cases c)
    as [(required & Hreq & [[Hnil ->] | [Hne ->]]) | [Hno ->]].
  - unfold prune_required at 1. by rewrite assoc_remove_key.
  - unfold prune_required at 1. rewrite !assoc_replace_key, Hreq.
    rewrite (bool_decide_eq_true_2 ("required" = "required")) by done.
    rewrite (bool_decide_eq_false_2 ("properties" = "required")) by done.
    cbn [fmap option_fmap option_map].
    assert (match assoc "properties" c with
            | Some props =>
                if truthy props && is_object_type props
                then List.filter
                       (fun prop => match prop with
                                    | JStr s => bool_decide (s ∈ keys props)
                                    | _ => false
                                    end) (pruned c required)
                else pruned c required
            | None => pruned c required
            end = pruned c required) as ->.
    { unfold pruned. destruct (assoc "properties" c) as [props|]; [|done].
      destruct (truthy props && is_object_type props); [|done].
      apply filter_again. }
    destruct (pruned c required) eqn:E; [done|].
    apply replace_key_again.
  - unfold prune_required.
    destruct (assoc "required" c) as [[| | | |required|]|] eqn:E; try done.
    by destruct (Hno required).
Qed.

Lemma map_fixed {A} (f : A -> A) (l : list A) :
  map f l = l <-> forall x, x ∈ l -> f x = x.
Proof.
  induction l as [|a l IH]; simpl.
  - split; [|done]. intros _ x Hx. by apply elem_of_nil in Hx.
  - split.
    + intros [= Ha Hl] x Hx. apply elem_of_cons in Hx as [-> | Hx]; [done|].
      by apply IH.
    + intros H. f_equal; [apply H, list_elem_of_here|].
      apply IH. intros x Hx. by apply H, list_elem_of_further.
Qed.

Lemma prune_required_stable c :
  (forall kv, kv ∈ c -> cleanObject false kv.2 = kv.2) ->
  forall kv, kv ∈ prune_required c -> cleanObject false kv.2 = kv.2.
Proof.
  intros Hc kv.
  destruct (prune_required_cases c)
    as [(required & Hreq & [[Hnil ->] | [Hne ->]]) | [Hno ->]].
  - intros Hkv. apply Hc. unfold remove_key in Hkv.
    by apply list_elem_of_filter in Hkv as [_ Hkv].
  - intros Hkv. unfold replace_key in Hkv.
    apply list_elem_of_fmap in Hkv as (kv0 & -> & Hkv0).
    case_bool_decide as Hk; [|by apply Hc].
    apply assoc_elem, Hc in Hreq. simpl in Hreq.
    injection Hreq as Hreq. rewrite map_fixed in Hreq.
    simpl. f_equal. apply map_fixed. intros x Hx.
    by apply Hreq, (pruned_sub c).
  - apply Hc.
Qed.

Lemma entries_values root validations obj l :
  Forall (fun kv => forall r1 r2, cleanObject r2 (cleanObject r1 kv.2)
                                  = cleanObject r1 kv.2) l ->
  forall kv, kv ∈ entries root validations obj l ->
             cleanObject false kv.2 = kv.2.
Proof.
  induction 1 as [|[key value] rest Hv _ IH]; intros kv;
    [by intros H; apply elem_of_nil in H|].
  simpl. destruct (negb (has_key key obj)); [apply IH|].
  destruct (bool_decide (key ∈ fieldsToRemove)); [apply IH|].
  destruct (in_validationFields key); [apply IH|].
  destruct (_ && _ && root); intros Hkv;
    apply elem_of_cons in Hkv as [-> | Hkv]; try (by apply IH); [done|].
  apply Hv.
Qed.

Lemma cleanObject_again j :
  forall r1 r2, cleanObject r2 (cleanObject r1 j) = cleanObject r1 j.
Proof.
  induction j as [|b|n|s|items IH|fields IH] using json_induction;
    intros r1 r2; try done.
  - simpl. f_equal. rewrite map_map. apply map_ext_in. intros x Hx.
    rewrite Forall_forall in IH. by apply IH, list_elem_of_In.
  - rewrite cleanObject_obj.
    set (c := entries r1 (collectValidations fields).1
                      (collectValidations fields).2 fields).
    destruct (prune_required_ok c) as [Hok _].
    { apply entries_ok. apply Forall_forall. intros kv _ r.
      apply cleanObject_cleaned. }
    rewrite forallb_elem in Hok.
    assert (forall kv, kv ∈ prune_required c -> kept_key kv.1 = true) as Hkept.
    { intros [k v] Hkv. apply Hok in Hkv. simpl in Hkv.
      by apply andb_true_iff in Hkv as [Hkv _]. }
    rewrite cleanObject_obj, (collectValidations_kept _ Hkept). cbn [fst snd].
    rewrite entries_stable; [by rewrite prune_required_again|].
    intros kv Hkv. split; [|split; [by apply Hkept|]].
    + unfold has_key. apply bool_decide_eq_true_2.
      apply list_elem_of_fmap. by exists kv.
    + revert kv Hkv. apply prune_required_stable, entries_values, IH.
Qed.

(** X19.  A cleaned schema holds, at no depth, a key the cleaner removes
    ([$schema], [additionalProperties], [uniqueItems], the exclusive
    bounds, the validation facets), and wherever it has an array
    [required], that array is not empty and names only keys of
    [properties]; and cleaning it again changes nothing. *)
Theorem cleanJsonSchema_cleaned (schema : json) :
  cleaned (cleanJsonSchema schema) = true /\
  cleanJsonSchema (cleanJsonSchema schema) = cleanJsonSchema schema.
Proof.
  unfold cleanJsonSchema.
  destruct (negb (truthy schema) || negb (is_object_type schema)) eqn:E.
  - rewrite E. split; [|done]. by destruct schema.
  - split; [apply cleanObject_cleaned|].
    assert (negb (truthy (cleanObject true schema))
            || negb (is_object_type (cleanObject true schema)) = false) as ->.
    { destruct schema; try done. }
    apply cleanObject_again.
Qed.

(** On a schema with a property named as a facet: the property goes, and
    its name leaves [required]. *)
Example nested_schema_cleaned :
  cleanJsonSchema nested_schema
  = JObj [ ("description", JStr "args (maxProperties: maxProperties)");
           ("type", JStr "object");
           ("properties",
            JObj [ ("tags", JObj [ ("type", JStr "array");
                                   ("items", JObj [("type", JStr "string")]) ]) ]);
           ("required", JArr [JStr "tags"]) ].
Proof. reflexivity. Qed.

End SchemaShapeFacts.

(** ** The shape of a translated request *)

Module TranslatorShapeFacts.
Import Json Translator TranslatorShape.

(** *** Roles *)





Section WithStringify.
Variable JSON_stringify : json -> string.





End WithStringify.

(** *** The last model content *)

Lemma existsb_filter_head {A} (f : A -> bool) (l : list A) :
  existsb f l = true ->
  exists x rest, List.filter f l = x :: rest /\ f x = true.
Proof.
  induction l as [|a l IH]; [done|]. cbn [existsb List.filter].
  destruct (f a) eqn:E; [by exists a, (List.filter f l)|].
  apply IH.
Qed.

Lemma check_last_model_thought reversed :
  (check_last_model reversed).2 = false ->
  forall c,
    List.find (fun c => bool_decide (grole_of c = RoleModel))
              (check_last_model reversed).1 = Some c ->
    thought_first c = true.
Proof.
  induction reversed as [|c0 rest IH]; [done|].
  cbn [check_last_model]. destruct (grole_of c0) eqn:Hc.
  - destruct (parts c0) as [|first others] eqn:Hp.
    + cbn [fst snd List.find]. rewrite Hc. intros _ c [= <-].
      unfold thought_first. by rewrite Hp.
    + destruct (existsb is_thought (first :: others)) eqn:He;
        cbn [negb]; [|done].
      destruct (is_thought first) eqn:Hf; cbn [negb fst snd List.find].
      * rewrite Hc. intros _ c [= <-].
        unfold thought_first. by rewrite Hp.
      * intros _ c. cbn [grole_of]. intros [= <-].
        unfold thought_first. cbn [parts]. rewrite Hf.
        cbn [existsb] in He. rewrite Hf in He. cbn [orb] in He.
        destruct (existsb_filter_head is_thought others He)
          as (x & more & -> & Hx). done.
  - destruct (check_last_model rest) as [rest' off]. cbn [fst snd] in *.
    intros Hoff c. cbn [List.find]. rewrite Hc.
    rewrite bool_decide_eq_false_2 by done. by apply IH.
Qed.

Lemma strip_signatures_last_model cs :
  last_model (strip_signatures cs)
  = (fun c => GContent (grole_of c)
                       (map (fun p => plain (payload_of p)) (parts c)))
      <$> last_model cs.
Proof.
  unfold last_model, strip_signatures. rewrite <- map_rev.
  induction (rev cs) as [|c l IH]; [done|].
  cbn [map List.find grole_of]. by destruct (bool_decide (grole_of c = RoleModel)).
Qed.


Lemma thought_first_plain c :
  thought_first (GContent (grole_of c)
                          (map (fun p => plain (payload_of p)) (parts c)))
  = thought_first c.
Proof. unfold thought_first. cbn [parts]. by destruct (parts c). Qed.

Section WithStringify.
Variable JSON_stringify : json -> string.

Lemma enableThinking_history modelName off :
  enableThinking modelName off = true ->
  off = false /\ history_enableThinking modelName = true.
Proof.
  unfold enableThinking, history_enableThinking. destruct off; [done|].
  cbn [negb andb]. intros ->. done.
Qed.

Lemma converted_thought_first messages modelName :
  history_enableThinking modelName = true ->
  (convertClaudeMessagesToGeminiContents JSON_stringify messages modelName).2
  = false ->
  forall c,
    last_model (convertClaudeMessagesToGeminiContents
                  JSON_stringify messages modelName).1 = Some c ->
    thought_first c = true.
Proof.
  unfold convertClaudeMessagesToGeminiContents. intros ->.
  destruct (unsigned_thinking messages); [done|].
  pose proof (check_last_model_thought
                (rev (foldl (add_message JSON_stringify) [] messages))) as H.
  destruct (check_last_model _) as [reversed off]. cbn [fst snd] in *.
  intros Hoff c. unfold last_model. rewrite rev_involutive. by apply H.
Qed.

End WithStringify.




(** X20.  Whenever the translated request asks for thoughts
    ([thinkingConfig.includeThoughts]), the last content of role [model],
    if it has parts, begins with a thought part. *)
Theorem thoughts_come_first (JSON_stringify : json -> string) (cfg : config)
        (generated : string) (req : claudeRequest) (token : TokenManager.token)
        (g : geminiRequest) :
  convertClaudeToGeminiRequest JSON_stringify cfg generated req token = Some g ->
  includeThoughts (thinkingConfig_of (generationConfig_of (request_of g))) = true ->
  forall c, last_model (contents (request_of g)) = Some c ->
            thought_first c = true.
Proof.
  unfold convertClaudeToGeminiRequest.
  destruct (messages req) as [[|msg msgs]|]; [done| |done].
  set (name := if JsString.truthy (model req) then model req
               else "gemini-2.0-flash-exp").
  pose proof (converted_thought_first JSON_stringify (msg :: msgs) name) as H.
  destruct (convertClaudeMessagesToGeminiContents
              JSON_stringify (msg :: msgs) name) as [cs off].
  cbn [fst snd] in H.
  destruct (convertClaudeToolsToGeminiTools (tools req)) as [geminiTools|];
    [|done].
  intros [= <-].
  cbn [request_of generationConfig_of thinkingConfig_of includeThoughts contents
       generateGenerationConfig].
  intros He. apply enableThinking_history in He as [-> Hh].
  specialize (H Hh eq_refl). intros c.
  destruct (JsString.includes name "claude"); [|apply H].
  rewrite strip_signatures_last_model.
  destruct (last_model cs) as [c0|]; [|done].
  intros [= <-]. rewrite thought_first_plain. by apply H.
Qed.

Lemma thoughts_come_first_witness :
  thought_first late_thinking_model_turn = true.
Proof.
  apply (thoughts_come_first Json.stringify Scenarios.config "req-1"
           late_thinking_request Scenarios.credA
           (default (GeminiRequest None "" (Request [] "" None None
                       (generateGenerationConfig Scenarios.config
                          late_thinking_request "" false) None) "" "")
              (convertClaudeToGeminiRequest Json.stringify Scenarios.config
                 "req-1" late_thinking_request Scenarios.credA))).
  - by vm_compute.
  - by vm_compute.
  - by vm_compute.
Defined.



(** *** Names of function responses *)







(** X23.  Placing the signature changes no content: the parts produced for
    the blocks of a message are, payload for payload and in order, the
    parts of its blocks, and a part that carries a signature carries the
    first non-empty signature of the message. *)
Theorem signature_keeps_payloads (JSON_stringify : json -> string)
        (blocks : list block) :
  payload_of <$> convertClaudeContentToGeminiParts JSON_stringify (CBlocks blocks)
  = payload_of <$> concat (map (block_parts JSON_stringify) blocks) /\
  forall p sg,
    p ∈ convertClaudeContentToGeminiParts JSON_stringify (CBlocks blocks) ->
    thoughtSignature p = Some sg -> sg = first_signature blocks.
Proof.
  cbn [convertClaudeContentToGeminiParts].
  set (built := concat (map (block_parts JSON_stringify) blocks)).
  assert (Forall (fun p => thoughtSignature p = None) built) as Hplain.
  { apply Forall_forall. intros p Hp. subst built.
    apply list_elem_of_In, in_concat in Hp as (l & Hl & Hp).
    apply in_map_iff in Hl as (b & <- & _).
    destruct b as [t|[media data| |]|t sg0| |i n inp|i c e|ty|]; simpl in Hp;
      repeat match goal with
             | H : context [if ?b then _ else _] |- _ => destruct b
             end;
      simpl in Hp; try done; by destruct Hp as [<- | []]. }
  destruct (JsString.truthy (first_signature blocks)); [|split; [done|]].
  - destruct (TranslatorFacts.applySignatureToParts_placed
                built (first_signature blocks)) as [Hsome Hnone].
    destruct (existsb signable built) eqn:E.
    + destruct (Hsome eq_refl) as (pre & p0 & post & Hb & -> & _).
      rewrite Hb in *. split.
      * by rewrite !fmap_app, !fmap_cons.
      * intros p sg Hp Hsg. apply elem_of_app in Hp as [Hp | Hp].
        -- apply Forall_app in Hplain as [Hpre _].
           rewrite Forall_forall in Hpre. rewrite (Hpre p Hp) in Hsg. done.
        -- apply elem_of_cons in Hp as [-> | Hp].
           ++ cbn [sign thoughtSignature] in Hsg. by injection Hsg as <-.
           ++ apply Forall_app in Hplain as [_ Hpost].
              apply Forall_cons in Hpost as [_ Hpost].
              rewrite Forall_forall in Hpost. rewrite (Hpost p Hp) in Hsg. done.
    + rewrite (Hnone eq_refl). split; [done|].
      intros p sg Hp Hsg. rewrite Forall_forall in Hplain.
      rewrite (Hplain p Hp) in Hsg. done.
  - intros p sg Hp Hsg. rewrite Forall_forall in Hplain.
    rewrite (Hplain p Hp) in Hsg. done.
Qed.

End TranslatorShapeFacts.

(** ** The shape of an event stream *)

Module StreamShapeFacts.
Import Json SseEmitter StreamShape.

Ltac settle :=
  repeat (cbn;
          first [ rewrite bool_decide_eq_true_2 by done
                | match goal with
                  | H : textBlockIndex _ = _ |- _ => rewrite H
                  | H : thinkingBlockIndex _ = _ |- _ => rewrite H
                  end ]);
  cbn; done.

Section WithBuiltins.
Variable JSON_stringify : json -> string.
Variable generateRequestId : nat -> string.

Lemma read_all_snoc tr ev : read_all (tr ++ [ev]) = read (read_all tr) ev.
Proof. unfold read_all. by rewrite foldl_app. Qed.

Lemma trace_tokens_snoc tr ev :
  trace_tokens JSON_stringify (tr ++ [ev])
  = trace_tokens JSON_stringify tr
    + match ev with
      | content_block_delta _ d => delta_tokens JSON_stringify d
      | _ => 0
      end.
Proof.
  induction tr as [|a tr IH]; simpl.
  - destruct ev; lia.
  - rewrite IH. destruct a; lia.
Qed.

Lemma closeTextBlock_in_step e :
  in_step JSON_stringify e ->
  in_step JSON_stringify (closeTextBlock e) /\
  textBlockIndex (closeTextBlock e) = None /\
  thinkingBlockIndex (closeTextBlock e) = thinkingBlockIndex e /\
  finished (closeTextBlock e) = finished e /\
  inputTokens (closeTextBlock e) = inputTokens e.
Proof.
  intros He. pose proof He as (Hone & Hread & Htok). unfold closeTextBlock.
  destruct (textBlockIndex e) as [i|] eqn:Ht; [|done].
  destruct Hone as [Hone | Hone]; [done|].
  split; [|done]. split; [by left|]. split.
  - cbn [writeSSE res set_blocks]. rewrite read_all_snoc, Hread.
    unfold reader_of. rewrite Ht, Hone. cbn.
    by rewrite bool_decide_eq_true_2.
  - cbn [writeSSE res set_blocks totalOutputTokens].
    rewrite trace_tokens_snoc. lia.
Qed.

Lemma closeThinkingBlock_in_step e :
  in_step JSON_stringify e ->
  in_step JSON_stringify (closeThinkingBlock e) /\
  thinkingBlockIndex (closeThinkingBlock e) = None /\
  textBlockIndex (closeThinkingBlock e) = textBlockIndex e /\
  finished (closeThinkingBlock e) = finished e /\
  inputTokens (closeThinkingBlock e) = inputTokens e.
Proof.
  intros He. pose proof He as (Hone & Hread & Htok). unfold closeThinkingBlock.
  destruct (thinkingBlockIndex e) as [i|] eqn:Ht; [|done].
  destruct Hone as [Hone | Hone]; [|done].
  split; [|done]. split; [by right|]. split.
  - cbn [writeSSE res set_blocks]. rewrite read_all_snoc, Hread.
    unfold reader_of. rewrite Ht, Hone. cbn.
    by rewrite bool_decide_eq_true_2.
  - cbn [writeSSE res set_blocks totalOutputTokens].
    rewrite trace_tokens_snoc. lia.
Qed.

Lemma sendText_in_step e text : in_step JSON_stringify e -> in_step JSON_stringify (sendText JSON_stringify e text).
Proof.
  intros He. unfold sendText. destruct (negb (JsString.truthy text)); [done|].
  destruct (closeThinkingBlock_in_step e He) as ((Hone & Hread & Htok) & Hth & _).
  set (e0 := closeThinkingBlock e) in *. unfold ensureTextBlock.
  destruct (textBlockIndex e0) as [i|] eqn:Ht.
  - cbn [add_tokens textBlockIndex]. rewrite Ht.
    split; [by right|]. split.
    + cbn [writeSSE res add_tokens]. rewrite read_all_snoc, Hread.
      unfold reader_of. cbn [nextIndex textBlockIndex thinkingBlockIndex].
      settle.
    + cbn [writeSSE res add_tokens totalOutputTokens].
      rewrite trace_tokens_snoc, Htok. done.
  - cbn [add_tokens writeSSE set_blocks textBlockIndex].
    split; [by right|]. split.
    + cbn [res writeSSE add_tokens set_blocks]. rewrite !read_all_snoc, Hread.
      unfold reader_of. cbn [nextIndex textBlockIndex thinkingBlockIndex].
      settle.
    + cbn [res totalOutputTokens writeSSE add_tokens set_blocks]. rewrite !trace_tokens_snoc, Htok.
      unfold delta_tokens. lia.
Qed.

Lemma sendThinking_in_step e thinking :
  in_step JSON_stringify e -> in_step JSON_stringify (sendThinking JSON_stringify e thinking).
Proof.
  intros He. unfold sendThinking.
  destruct (negb (JsString.truthy thinking)); [done|].
  destruct (closeTextBlock_in_step e He) as ((Hone & Hread & Htok) & Htx & _).
  set (e0 := closeTextBlock e) in *. unfold ensureThinkingBlock.
  destruct (thinkingBlockIndex e0) as [i|] eqn:Ht.
  - cbn [add_tokens thinkingBlockIndex]. rewrite Ht.
    split; [by left|]. split.
    + cbn [writeSSE res add_tokens]. rewrite read_all_snoc, Hread.
      unfold reader_of. cbn [nextIndex textBlockIndex thinkingBlockIndex].
      settle.
    + cbn [writeSSE res add_tokens totalOutputTokens].
      rewrite trace_tokens_snoc, Htok. done.
  - cbn [add_tokens writeSSE set_blocks thinkingBlockIndex].
    split; [by left|]. split.
    + cbn [res writeSSE add_tokens set_blocks]. rewrite !read_all_snoc, Hread.
      unfold reader_of. cbn [nextIndex textBlockIndex thinkingBlockIndex].
      settle.
    + cbn [res totalOutputTokens writeSSE add_tokens set_blocks]. rewrite !trace_tokens_snoc, Htok.
      unfold delta_tokens. lia.
Qed.

Lemma send_one_call_in_step e call :
  in_step JSON_stringify e -> textBlockIndex e = None -> thinkingBlockIndex e = None ->
  in_step JSON_stringify (send_one_call JSON_stringify generateRequestId e call) /\
  textBlockIndex (send_one_call JSON_stringify generateRequestId e call) = None /\
  thinkingBlockIndex (send_one_call JSON_stringify generateRequestId e call) = None.
Proof.
  intros (Hone & Hread & Htok) Htx Hth. unfold send_one_call.
  cbn [writeSSE set_blocks add_tokens textBlockIndex thinkingBlockIndex].
  split; [|done]. split; [by left|]. split.
  - cbn [res writeSSE add_tokens set_blocks]. rewrite !read_all_snoc, Hread.
    unfold reader_of. cbn [nextIndex textBlockIndex thinkingBlockIndex].
    settle.
  - cbn [res totalOutputTokens writeSSE add_tokens set_blocks]. rewrite !trace_tokens_snoc, Htok.
    unfold delta_tokens. lia.
Qed.

Lemma sendToolCalls_in_step e toolCalls :
  in_step JSON_stringify e -> in_step JSON_stringify (sendToolCalls JSON_stringify generateRequestId e toolCalls).
Proof.
  intros He. unfold sendToolCalls. destruct toolCalls as [|c cs]; [done|].
  destruct (closeTextBlock_in_step e He) as (He1 & Htx & Hth & _).
  destruct (closeThinkingBlock_in_step _ He1) as (He2 & Hth2 & Htx2 & _).
  rewrite Htx in Htx2.
  generalize dependent (closeThinkingBlock (closeTextBlock e)).
  clear. intros e0 He0 Hth Htx. revert e0 He0 Hth Htx.
  induction (c :: cs) as [|c' cs' IH]; intros e0 He0 Hth Htx; [done|].
  cbn [foldl].
  destruct (send_one_call_in_step e0 c' He0 Htx Hth) as (H1 & H2 & H3).
  by apply IH.
Qed.

Lemma start_in_step e : in_step JSON_stringify e -> in_step JSON_stringify (start e).
Proof.
  intros (Hone & Hread & Htok). unfold start.
  split; [done|]. split.
  - cbn [writeSSE res]. by rewrite read_all_snoc, Hread.
  - cbn [writeSSE res totalOutputTokens]. rewrite trace_tokens_snoc. lia.
Qed.

Lemma finish_in_step e u : in_step JSON_stringify e -> in_step JSON_stringify (finish e u).
Proof.
  intros He. unfold finish. destruct (finished e); [done|].
  assert (in_step JSON_stringify (set_finished e)) as He0 by done.
  destruct (closeTextBlock_in_step _ He0) as (He1 & _).
  destruct (closeThinkingBlock_in_step _ He1) as ((Hone & Hread & Htok) & _).
  set (e1 := closeThinkingBlock (closeTextBlock (set_finished e))) in *.
  split; [done|]. split.
  - cbn [writeSSE res]. by rewrite !read_all_snoc, Hread.
  - cbn [writeSSE res totalOutputTokens]. rewrite !trace_tokens_snoc. lia.
Qed.

Lemma run_in_step cs : forall e,
  in_step JSON_stringify e -> in_step JSON_stringify (run JSON_stringify generateRequestId e cs).
Proof.
  induction cs as [|c cs IH]; intros e He; [done|].
  cbn [run foldl]. apply IH. destruct c; cbn [perform].
  - by apply start_in_step.
  - by apply sendText_in_step.
  - by apply sendThinking_in_step.
  - by apply sendToolCalls_in_step.
  - by apply finish_in_step.
Qed.

Lemma perform_keeps e c :
  is_finish c = false ->
  finished (perform JSON_stringify generateRequestId e c) = finished e /\
  inputTokens (perform JSON_stringify generateRequestId e c) = inputTokens e.
Proof.
  destruct c as [|t|t|l|u]; intros Hc; try done; cbn [perform].
  - unfold sendText, ensureTextBlock, closeThinkingBlock.
    destruct (negb (JsString.truthy t)); [done|].
    by destruct e as [tr rid mdl inp next [i|] [j|] fin total].
  - unfold sendThinking, ensureThinkingBlock, closeTextBlock.
    destruct (negb (JsString.truthy t)); [done|].
    by destruct e as [tr rid mdl inp next [i|] [j|] fin total].
  - unfold sendToolCalls. destruct l as [|c cs]; [done|].
    assert (finished (closeThinkingBlock (closeTextBlock e)) = finished e /\
            inputTokens (closeThinkingBlock (closeTextBlock e)) = inputTokens e)
      as [<- <-].
    { unfold closeThinkingBlock, closeTextBlock.
      by destruct e as [tr rid mdl inp next [i|] [j|] fin total]. }
    generalize (closeThinkingBlock (closeTextBlock e)). clear Hc.
    generalize (c :: cs). clear. intros l.
    induction l as [|c' cs' IH]; intros e0; [done|].
    cbn [foldl]. destruct (IH (send_one_call JSON_stringify generateRequestId e0 c'))
      as [-> ->]. done.
Qed.

Lemma run_keeps cs : forall e,
  no_finish cs ->
  finished (run JSON_stringify generateRequestId e cs) = finished e /\
  inputTokens (run JSON_stringify generateRequestId e cs) = inputTokens e.
Proof.
  induction cs as [|c cs IH]; intros e Hno; [done|].
  apply Forall_cons in Hno as [Hc Hno]. unfold run in *. cbn [foldl].
  destruct (IH (perform JSON_stringify generateRequestId e c) Hno) as [-> ->].
  by apply perform_keeps.
Qed.

Lemma read_all_starts tr : forall n o,
  read_all tr = Some (n, o) -> starts tr = seq 0 n.
Proof.
  induction tr as [|ev tr IH] using rev_ind; intros n o.
  { by intros [= <- <-]. }
  rewrite read_all_snoc, SseEmitterFacts.starts_snoc.
  destruct (read_all tr) as [[n0 o0]|]; [|done].
  specialize (IH n0 o0 eq_refl).
  destruct ev as [? ? ?|i b|i d|i| | |]; cbn [read];
    try (intros [= <- <-]; rewrite IH; apply app_nil_r).
  - destruct o0; [done|]. case_bool_decide; [|done].
    intros [= <- <-]. subst i. rewrite IH.
    change (starts [content_block_start n0 b]) with [n0]. by rewrite seq_S.
  - destruct o0 as [[j k]|]; [|done].
    destruct (_ && _); [|done]. intros [= <- <-]. rewrite IH. apply app_nil_r.
  - destruct o0 as [[j k]|]; [|done].
    case_bool_decide; [|done]. intros [= <- <-]. rewrite IH. apply app_nil_r.
Qed.

End WithBuiltins.

(** X24.  Whatever calls are made on an emitter, each awaited before the
    next is made, the stream it writes reads well: blocks are numbered 0,
    1, 2, ... in the order they start, a block starts only when none is
    open, every delta goes to the open block and is of its kind (text,
    thinking or tool input), and a stop closes the open block. *)
Theorem stream_reads_well (JSON_stringify : json -> string)
        (generateRequestId : nat -> string) (requestId model : string)
        (inputTokens : Z) (cs : list call) :
  play JSON_stringify generateRequestId
       (create generateRequestId requestId model inputTokens)
       (concat (map awaited cs))
  = (session JSON_stringify generateRequestId requestId model inputTokens cs,
     []) /\
  read_all (res (session JSON_stringify generateRequestId requestId model
                         inputTokens cs))
  = reader_of (session JSON_stringify generateRequestId requestId model
                       inputTokens cs) /\
  starts (res (session JSON_stringify generateRequestId requestId model
                       inputTokens cs))
  = seq 0 (nextIndex (session JSON_stringify generateRequestId requestId model
                              inputTokens cs)).
Proof.
  split; [apply SseEmitterFacts.play_awaited|].
  assert (in_step JSON_stringify
            (session JSON_stringify generateRequestId requestId model
                     inputTokens cs)) as (_ & Hread & _).
  { apply run_in_step. split; [by left|]. done. }
  split; [done|]. by eapply read_all_starts.
Qed.

(** X25.  The usage reported at the end: a first [finish] writes, after
    closing the open block, [message_delta], [message_stop] and the end of
    the response, and nothing else; the output tokens it reports are those
    of the upstream usage when given, and otherwise the sum of the
    estimates of all the deltas of the stream; the input tokens are those
    of the upstream usage or the ones the emitter was created with. *)
Theorem finish_reports_usage (JSON_stringify : json -> string)
        (generateRequestId : nat -> string) (requestId model : string)
        (inputTokens : Z) (cs : list call) (u : option usage) :
  no_finish cs ->
  exists pre,
    res (finish (session JSON_stringify generateRequestId requestId model
                         inputTokens cs) u)
    = pre ++ [ message_delta
                 (default (default inputTokens (u ≫= usage_input_tokens))
                          (u ≫= prompt_tokens))
                 (default (default (trace_tokens JSON_stringify pre)
                                   (u ≫= output_tokens))
                          (u ≫= completion_tokens));
               message_stop; response_end ] /\
    res (session JSON_stringify generateRequestId requestId model
                 inputTokens cs) `prefix_of` pre /\
    trace_tokens JSON_stringify pre
    = trace_tokens JSON_stringify
        (res (session JSON_stringify generateRequestId requestId model
                      inputTokens cs)).
Proof.
  intros Hno. unfold session.
  set (e0 := create generateRequestId requestId model inputTokens).
  destruct (run_keeps JSON_stringify generateRequestId cs e0 Hno) as [Hfin Hin].
  assert (in_step JSON_stringify (run JSON_stringify generateRequestId e0 cs))
    as He.
  { apply run_in_step. split; [by left|]. done. }
  set (e := run JSON_stringify generateRequestId e0 cs) in *.
  unfold finish. rewrite Hfin. cbn [finished e0 create].
  assert (in_step JSON_stringify (set_finished e)) as Hs by done.
  destruct (closeTextBlock_in_step JSON_stringify _ Hs)
    as (H1 & _ & _ & _ & Hin1).
  destruct (closeThinkingBlock_in_step JSON_stringify _ H1)
    as ((_ & _ & Htok) & _ & _ & _ & Hin2).
  set (e1 := closeThinkingBlock (closeTextBlock (set_finished e))) in *.
  exists (res e1). split; [|split].
  - cbn [writeSSE res]. rewrite <- !app_assoc. cbn [app].
    rewrite Htok, Hin2, Hin1. cbn [set_finished SseEmitter.inputTokens].
    rewrite Hin. cbn [e0 create SseEmitter.inputTokens].
    by destruct u as [[[c|] [o|] [p|] [i|]]|].
  - subst e1. unfold closeThinkingBlock, closeTextBlock.
    destruct (textBlockIndex (set_finished e)) eqn:E1;
      cbn [writeSSE set_blocks thinkingBlockIndex res];
      destruct (thinkingBlockIndex (set_finished e)) eqn:E2;
      cbn [writeSSE set_blocks thinkingBlockIndex res set_finished];
      rewrite ?E2; cbn [writeSSE set_blocks res set_finished];
      try rewrite <- app_assoc; try apply prefix_app_r; done.
  - destruct He as (_ & _ & Htok0). rewrite <- Htok, <- Htok0.
    subst e1. unfold closeThinkingBlock, closeTextBlock.
    by destruct (textBlockIndex (set_finished e)),
                (thinkingBlockIndex (set_finished e)).
Qed.

Lemma finish_reports_usage_witness :
  exists pre,
    res (finish (session Json.stringify Scenarios.request_ids "r" "m" 7
                         Scenarios.scenario_sends) None)
    = pre ++ [ message_delta 7 (trace_tokens Json.stringify pre);
               message_stop; response_end ] /\
    res (session Json.stringify Scenarios.request_ids "r" "m" 7
                 Scenarios.scenario_sends) `prefix_of` pre /\
    trace_tokens Json.stringify pre
    = trace_tokens Json.stringify
        (res (session Json.stringify Scenarios.request_ids "r" "m" 7
                      Scenarios.scenario_sends)).
Proof.
  apply (finish_reports_usage Json.stringify Scenarios.request_ids "r" "m" 7
           Scenarios.scenario_sends None).
  repeat constructor.
Defined.


End StreamShapeFacts.

(** ** Bounds of the token estimate *)

Module EstimatorBounds.
Import Json Translator Estimator.

Lemma ceiling_quarter (n : Z) : Qceiling (n # 4) = (n + 3) / 4.
Proof.
  unfold Qceiling, Qfloor. cbn [Qopp Qnum Qden].
  change (Z.pos 4) with 4.
  pose proof (Z.div_mod (- n) 4 ltac:(lia)).
  pose proof (Z.mod_pos_bound (- n) 4 ltac:(lia)).
  pose proof (Z.div_mod (n + 3) 4 ltac:(lia)).
  pose proof (Z.mod_pos_bound (n + 3) 4 ltac:(lia)).
  lia.
Qed.

Lemma estimate_value (JSON_stringify : json -> string) (s : string) :
  estimateTokensFromText JSON_stringify (JStr s)
  = if bool_decide (s = "") then 0
    else Z.max 1 ((Z.of_nat (String.length s) + 3) / 4).
Proof.
  unfold estimateTokensFromText. destruct s as [|c s]; [done|].
  rewrite bool_decide_eq_false_2 by done.
  cbn [truthy JsString.truthy negb]. by rewrite ceiling_quarter.
Qed.

Lemma length_append (s t : string) :
  String.length (s +:+ t) = (String.length s + String.length t)%nat.
Proof.
  induction s as [|c s IH]; [done|].
  rewrite JsStringFacts.append_cons. cbn [String.length]. by rewrite IH.
Qed.

Lemma append_empty (s t : string) : s +:+ t = "" <-> s = "" /\ t = "".
Proof.
  destruct s as [|c s].
  - change ("" +:+ t) with t. split; [by intros ->|by intros [_ ->]].
  - rewrite JsStringFacts.append_cons. split; [done|by intros [? _]].
Qed.

(** X26.  The estimate of a text is 0 exactly for the empty text and
    otherwise the least [n >= 1] with [length <= 4 n]; it grows with the
    length; and estimating a text in two chunks, as a stream does, gives at
    least the estimate of the whole text and at most one more. *)
Theorem estimate_bounds (JSON_stringify : json -> string) (s t : string) :
  (estimateTokensFromText JSON_stringify (JStr s) = 0 <-> s = "") /\
  (s <> "" ->
   1 <= estimateTokensFromText JSON_stringify (JStr s) /\
   Z.of_nat (String.length s)
   <= 4 * estimateTokensFromText JSON_stringify (JStr s) /\
   (1 < estimateTokensFromText JSON_stringify (JStr s) ->
    4 * (estimateTokensFromText JSON_stringify (JStr s) - 1)
    < Z.of_nat (String.length s))) /\
  ((String.length s <= String.length t)%nat ->
   estimateTokensFromText JSON_stringify (JStr s)
   <= estimateTokensFromText JSON_stringify (JStr t)) /\
  estimateTokensFromText JSON_stringify (JStr (s +:+ t))
  <= estimateTokensFromText JSON_stringify (JStr s)
     + estimateTokensFromText JSON_stringify (JStr t) /\
  estimateTokensFromText JSON_stringify (JStr s)
  + estimateTokensFromText JSON_stringify (JStr t)
  <= estimateTokensFromText JSON_stringify (JStr (s +:+ t)) + 1.
Proof.
  rewrite !estimate_value, length_append.
  assert (forall x : string, x <> "" -> (1 <= String.length x)%nat) as Hlen.
  { intros [|c x] Hx; [done|]. cbn [String.length]. lia. }
  pose proof (Z.div_mod (Z.of_nat (String.length s) + 3) 4 ltac:(lia)).
  pose proof (Z.mod_pos_bound (Z.of_nat (String.length s) + 3) 4 ltac:(lia)).
  pose proof (Z.div_mod (Z.of_nat (String.length t) + 3) 4 ltac:(lia)).
  pose proof (Z.mod_pos_bound (Z.of_nat (String.length t) + 3) 4 ltac:(lia)).
  pose proof (Z.div_mod (Z.of_nat (String.length s + String.length t) + 3) 4
                ltac:(lia)).
  pose proof (Z.mod_pos_bound (Z.of_nat (String.length s + String.length t) + 3)
                4 ltac:(lia)).
  destruct (decide (s = "")) as [-> | Hs]; destruct (decide (t = "")) as [-> | Ht].
  - change ("" +:+ "") with "". rewrite !bool_decide_eq_true_2 by done.
    split_and!; try done; lia.
  - change ("" +:+ t) with t. rewrite (bool_decide_eq_true_2 ("" = "")) by done.
    rewrite (bool_decide_eq_false_2 (t = "")) by done.
    split_and!; try done; lia.
  - assert (s +:+ "" <> "") as Hst by (rewrite append_empty; tauto).
    pose proof (Hlen s Hs).
    rewrite (bool_decide_eq_true_2 ("" = "")) by done.
    rewrite (bool_decide_eq_false_2 (s = "")) by done.
    rewrite (bool_decide_eq_false_2 (s +:+ "" = "")) by done.
    cbn [String.length] in *. split_and!; try done; try lia.
    split; [lia|done].
  - assert (s +:+ t <> "") as Hst by (rewrite append_empty; tauto).
    pose proof (Hlen s Hs). pose proof (Hlen t Ht).
    rewrite (bool_decide_eq_false_2 (s = "")) by done.
    rewrite (bool_decide_eq_false_2 (t = "")) by done.
    rewrite (bool_decide_eq_false_2 (s +:+ t = "")) by done.
    split_and!; try done; try lia.
    split; [lia|done].
Qed.

Lemma estimate_bounds_witness :
  "hello" <> "" /\
  Z.of_nat (String.length "hello")
  <= 4 * Estimator.estimateTokensFromText Json.stringify (JStr "hello") /\
  Estimator.estimateTokensFromText Json.stringify (JStr "hello")
  + Estimator.estimateTokensFromText Json.stringify (JStr " world")
  <= Estimator.estimateTokensFromText Json.stringify (JStr "hello world") + 1.
Proof.
  destruct (estimate_bounds Json.stringify "hello" " world")
    as (_ & Hs & _ & _ & Hsum).
  split; [done|]. split; [by apply Hs|exact Hsum].
Defined.

End EstimatorBounds.

(** ** The configuration store *)

Module ConfigStoreFacts.
Import ConfigStore.

Lemma docker_keys_lookup (env : gmap string string) (keys : list string) :
  forall (c : gmap string value) k,
    foldl (fun effectiveConfig key =>
             match env !! key with
             | Some v => <[key := VStr v]> effectiveConfig
             | None => delete key effectiveConfig
             end) c keys !! k
    = if bool_decide (k ∈ keys) then VStr <$> env !! k else c !! k.
Proof.
  induction keys as [|key keys IH]; intros c k; [done|].
  cbn [foldl]. rewrite IH. clear IH.
  destruct (decide (k ∈ keys)) as [Hin | Hout].
  - rewrite !bool_decide_eq_true_2; [done| |done]. by apply list_elem_of_further.
  - rewrite (bool_decide_eq_false_2 (k ∈ keys)) by done.
    destruct (decide (k = key)) as [-> | Hne].
    + rewrite bool_decide_eq_true_2 by apply list_elem_of_here.
      destruct (env !! key); [by rewrite lookup_insert_eq|by rewrite lookup_delete_eq].
    + rewrite bool_decide_eq_false_2.
      * destruct (env !! key); [by rewrite lookup_insert_ne|by rewrite lookup_delete_ne].
      * intros H. by apply elem_of_cons in H as [? | ?].
Qed.

Lemma load_has_defaults f k :
  is_Some (DEFAULT_DATA_CONFIG !! k) -> is_Some ((loadDataConfig f).2 !! k).
Proof.
  intros [v Hv]. destruct f as [| |c]; cbn [loadDataConfig snd];
    [rewrite Hv; by eexists|rewrite Hv; by eexists|].
  apply lookup_union_is_Some. right. by exists v.
Qed.

(** X27.  The three keys [PANEL_USER], [PANEL_PASSWORD] and [API_KEY] of
    the effective configuration come from the environment alone, whatever
    the file holds, and every other key is as [loadDataConfig] gives it;
    what [saveDataConfig] returns is what the next [loadDataConfig] reads,
    with every key saved holding the value saved and every other key as
    before; and every default key is always present. *)
Theorem config_store (env : gmap string string) (f : file) (config : gmap string value)
        (k : string) :
  (getEffectiveConfig env f).2 !! k
  = (if isDockerOnlyKey k then VStr <$> env !! k
     else (loadDataConfig f).2 !! k) /\
  (loadDataConfig (saveDataConfig f config).1).2 = (saveDataConfig f config).2 /\
  (saveDataConfig f config).2 !! k
  = (match config !! k with
     | Some v => Some v
     | None => (loadDataConfig f).2 !! k
     end) /\
  (is_Some (DEFAULT_DATA_CONFIG !! k) ->
   is_Some ((loadDataConfig f).2 !! k) /\
   is_Some ((saveDataConfig f config).2 !! k)).
Proof.
  split_and!.
  - unfold getEffectiveConfig, isDockerOnlyKey.
    destruct (loadDataConfig f) as [f' dataConfig]. cbn [snd].
    apply docker_keys_lookup.
  - unfold saveDataConfig. cbn [fst snd loadDataConfig].
    apply map_eq. intros i. rewrite !lookup_union.
    destruct (DEFAULT_DATA_CONFIG !! i) as [d|] eqn:Hd.
    + destruct (load_has_defaults f i) as [w Hw]; [by exists d|].
      rewrite Hw. by destruct (config !! i).
    + by destruct (config !! i), ((loadDataConfig f).2 !! i).
  - unfold saveDataConfig. cbn [snd]. rewrite lookup_union.
    by destruct (config !! k), ((loadDataConfig f).2 !! k).
  - intros Hd. split; [by apply load_has_defaults|].
    unfold saveDataConfig. cbn [snd]. apply lookup_union_is_Some.
    right. by apply load_has_defaults.
Qed.

Lemma config_store_witness :
  is_Some (DEFAULT_DATA_CONFIG !! "PORT") /\
  is_Some ((saveDataConfig Unreadable {["HOST" := VStr "127.0.0.1"]}).2 !! "PORT").
Proof.
  assert (is_Some (DEFAULT_DATA_CONFIG !! "PORT")) as Hd.
  { exists (VNum 8045). reflexivity. }
  split; [exact Hd|].
  destruct (config_store ∅ Unreadable {["HOST" := VStr "127.0.0.1"]} "PORT")
    as (_ & _ & _ & H).
  by apply H.
Defined.

End ConfigStoreFacts.
(** ** The logger: hiding base64 payloads *)

Module LoggerFacts.
Import Json Logger.

Lemma all_base64_app s t : all_base64 (s +:+ t) = all_base64 s && all_base64 t.
Proof.
  induction s as [|c s IH]; [done|].
  rewrite JsStringFacts.append_cons. cbn [all_base64]. by rewrite IH, andb_assoc.
Qed.

Lemma truncated_not_base64 n s : base64Regex_test (truncated n s) = false.
Proof.
  unfold base64Regex_test, truncated. rewrite all_base64_app.
  rewrite !JsStringFacts.append_cons. cbn [all_base64].
  replace (base64_char ".") with false by (by vm_compute).
  cbn [andb]. by rewrite !andb_false_r.
Qed.

Lemma truncateBase64_obj n fields :
  truncateBase64 n (JObj fields) = JObj (copy n fields).
Proof.
  cbn [truncateBase64]. f_equal.
  induction fields as [|[key value] rest IH]; [done|].
  cbn [copy]. by rewrite IH.
Qed.

Lemma truncateBase64_loggable n j : loggable (truncateBase64 n j) = true.
Proof.
  induction j as [|b|m|s|items IH|fields IH]
    using SchemaShapeFacts.json_induction; try done.
  - cbn [truncateBase64]. destruct (base64Regex_test s) eqn:E; cbn [loggable].
    + by rewrite truncated_not_base64.
    + by rewrite E.
  - cbn [truncateBase64 loggable]. apply SchemaShapeFacts.forallb_elem.
    intros x Hx. apply list_elem_of_In, in_map_iff in Hx as (y & <- & Hy).
    rewrite Forall_forall in IH. by apply IH, list_elem_of_In.
  - rewrite truncateBase64_obj. cbn [loggable].
    induction IH as [|[key value] rest Hv _ IHrest]; [done|].
    cbn [copy]. case_bool_decide as Hk; [done|].
    cbn [forallb]. rewrite bool_decide_eq_false_2 by done.
    cbn [negb andb snd] in *. by rewrite Hv.
Qed.

Lemma truncateBase64_nothing n j :
  loggable j = true -> truncateBase64 n j = j.
Proof.
  induction j as [|b|m|s|items IH|fields IH]
    using SchemaShapeFacts.json_induction; try done.
  - cbn [loggable truncateBase64]. intros H.
    by apply negb_true_iff in H as ->.
  - cbn [loggable truncateBase64]. intros H. f_equal.
    rewrite SchemaShapeFacts.forallb_elem in H.
    apply SchemaShapeFacts.map_fixed. intros x Hx.
    rewrite Forall_forall in IH. by apply IH; [|apply H].
  - rewrite truncateBase64_obj. cbn [loggable]. intros H. f_equal.
    induction IH as [|[key value] rest Hv _ IHrest]; [done|].
    cbn [forallb] in H. apply andb_true_iff in H as [H1 H2].
    apply andb_true_iff in H1 as [Hk Hl]. apply negb_true_iff in Hk.
    cbn [copy]. rewrite Hk. cbn [snd] in Hv. by rewrite (Hv Hl), (IHrest H2).
Qed.

(** X28.  What [truncateBase64] returns holds no string that is a run of
    200 or more base64 characters; a value without such strings (and
    without own keys [__proto__]) is returned as it is; and truncating
    twice is truncating once, whatever the lengths asked for. *)
Theorem truncateBase64_settles (n m : nat) (j : json) :
  loggable (truncateBase64 n j) = true /\
  (loggable j = true -> truncateBase64 n j = j) /\
  truncateBase64 m (truncateBase64 n j) = truncateBase64 n j.
Proof.
  split_and!.
  - apply truncateBase64_loggable.
  - apply truncateBase64_nothing.
  - apply truncateBase64_nothing, truncateBase64_loggable.
Qed.

Lemma truncateBase64_settles_witness :
  loggable (JObj [("image", JStr "iVBORw0KGgo=")]) = true /\
  truncateBase64 100 (JObj [("image", JStr "iVBORw0KGgo=")])
  = JObj [("image", JStr "iVBORw0KGgo=")].
Proof.
  split; [reflexivity|].
  destruct (truncateBase64_settles
              100 100 (JObj [("image", JStr "iVBORw0KGgo=")])) as (_ & H & _).
  by apply H.
Defined.

End LoggerFacts.
